(** * Salesforce CRUD services: a shallow embedding and its verification

    The development follows the Python sources of the repository:

    - [shared/src/utils/data_handler.py] (CSV serialisation and parsing),
      together with the parts of CPython 3.11's [csv] module it calls;
    - [shared/src/salesforce/auth.py] (the OAuth2 token cache);
    - [shared/src/salesforce/operations.py], [src/salesforce/operations.py]
      and [bulk-service/src/app/routers/bulk.py] (Bulk API 2.0 jobs);
    - [salesforce_standard.py] (single-record operations with retry, the
      batch insert, the recent records and the record endpoints);
    - [src/salesforce/client.py] (the HTTP client and its retry on status
      401) with [update_record] and [delete_record] of
      [src/salesforce/operations.py];
    - [record-service/src/app/routers/records.py] (update and delete).

    Python strings are modelled by [string] (code points below 256), Python
    integers by [Z], dictionaries by association lists in insertion order,
    and effectful code by a small state-and-exception monad in which the
    side effects of a computation survive the exception it raises. *)

From Stdlib Require Import String Ascii List ZArith Lia Bool DecimalString.
Import ListNotations.
Local Open Scope string_scope.
Local Open Scope list_scope.

(** ** Python runtime *)

Module Py.

(** The result of running a piece of Python code: a value or a raised
    exception of type [E]. *)
Inductive outcome (E A : Type) : Type :=
| Ret (a : A)
| Exc (e : E).
Arguments Ret {E A} a.
Arguments Exc {E A} e.

(** State-and-exception monad; the state is kept when an exception is
    raised, as mutations and I/O are in Python. *)
Definition M (S E A : Type) : Type := S -> outcome E A * S.

Definition ret {S E A} (a : A) : M S E A := fun s => (Ret a, s).

Definition bind {S E A B} (m : M S E A) (k : A -> M S E B) : M S E B :=
  fun s => match m s with
           | (Ret a, s') => k a s'
           | (Exc e, s') => (Exc e, s')
           end.

Definition raise {S E A} (e : E) : M S E A := fun s => (Exc e, s).

(** [try: m  except Exception as e: h e] *)
Definition try_except {S E A} (m : M S E A) (h : E -> M S E A) : M S E A :=
  fun s => match m s with
           | (Ret a, s') => (Ret a, s')
           | (Exc e, s') => h e s'
           end.

Definition gets {S E A} (f : S -> A) : M S E A := fun s => (Ret (f s), s).
Definition modify {S E} (f : S -> S) : M S E unit := fun s => (Ret tt, f s).

(** [needle in hay] on strings. *)
Fixpoint str_in (needle hay : string) : bool :=
  if String.prefix needle hay then true
  else match hay with
       | EmptyString => false
       | String _ rest => str_in needle rest
       end.

(** Truthiness of a string ([bool(s)]): non-empty. *)
Definition truthy (s : string) : bool :=
  match s with EmptyString => false | _ => true end.

(** Truthiness of an optional string ([None] and [''] are falsy). *)
Definition truthy_opt (o : option string) : bool :=
  match o with Some s => truthy s | None => false end.

(** [str(n)] for an integer. *)
Definition str_of_int (n : Z) : string := NilZero.string_of_int (Z.to_int n).

(** Scalar field values of a record: [None], a string or an integer. *)
Inductive value : Type :=
| VNone
| VStr (s : string)
| VInt (n : Z).

(** Dictionaries with keys of type [K], in insertion order. *)
Section Dict.
Context {K V : Type} (eqb : K -> K -> bool).

Fixpoint dict_get (d : list (K * V)) (k : K) : option V :=
  match d with
  | [] => None
  | (k', v) :: d' => if eqb k k' then Some v else dict_get d' k
  end.

(** [d[k] = v]: an existing key keeps its position. *)
Fixpoint dict_set (d : list (K * V)) (k : K) (v : V) : list (K * V) :=
  match d with
  | [] => [(k, v)]
  | (k', v') :: d' =>
      if eqb k k' then (k', v) :: d' else (k', v') :: dict_set d' k v
  end.

(** [d.update(other)] *)
Definition dict_update (d other : list (K * V)) : list (K * V) :=
  fold_left (fun acc kv => dict_set acc (fst kv) (snd kv)) other d.

Definition dict_keys (d : list (K * V)) : list K := map fst d.
End Dict.

(** A record is a [dict] from field names to scalar values. *)
Definition record : Type := list (string * value).

Definition get (r : record) (k : string) : option value :=
  dict_get String.eqb r k.

End Py.

Declare Scope py_scope.
Delimit Scope py_scope with py.
Notation "x <- m ;; k" := (Py.bind m (fun x => k))
  (at level 61, m at next level, right associativity) : py_scope.
Notation "m ;; k" := (Py.bind m (fun _ => k))
  (at level 61, right associativity) : py_scope.

(** ** The parts of CPython 3.11's [csv] module used by the data handler

    Writer and reader follow [Modules/_csv.c] for the dialect the code
    selects: delimiter [,], quote character 34, [QUOTE_MINIMAL],
    [doublequote], no escape character, no [skipinitialspace], not
    [strict]; the writer's line terminator is a line feed. [DictWriter] and
    [DictReader] follow [Lib/csv.py]. *)

Module Csv.
Import Py.

Definition COMMA : ascii := ",".
Definition DQUOTE : ascii := "034".
Definition LF : ascii := "010".
Definition CR : ascii := "013".

(** *** Writer *)

(** [join_append_data]: the characters that make the writer quote a field
    are the delimiter, the quote character and the characters of the line
    terminator. *)
Definition forces_quotes (c : ascii) : bool :=
  (c =? COMMA)%char || (c =? DQUOTE)%char || (c =? LF)%char.

Fixpoint quoted (field : string) : bool :=
  match field with
  | EmptyString => false
  | String c rest => forces_quotes c || quoted rest
  end.

(** The characters written for the field: a quote character is doubled. *)
Fixpoint doubled (field : string) : string :=
  match field with
  | EmptyString => EmptyString
  | String c rest =>
      if (c =? DQUOTE)%char then String c (String c (doubled rest))
      else String c (doubled rest)
  end.

(** [join_append]: one field as it appears in the record. *)
Definition join_append (field : string) : string :=
  if quoted field then String DQUOTE (doubled field ++ String DQUOTE EmptyString)
  else doubled field.

(** The text the writer uses for a value: nothing for [None], the string
    itself, [str(v)] otherwise. *)
Definition field_text (v : value) : string :=
  match v with
  | VNone => EmptyString
  | VStr s => s
  | VInt n => str_of_int n
  end.

(** [csv.writer.writerow]: the fields joined by the delimiter; a record made
    of a single empty field is written as two quote characters; then the
    line terminator. *)
Definition writerow (row : list value) : string :=
  let rec := String.concat (String COMMA EmptyString)
               (map (fun v => join_append (field_text v)) row) in
  (if negb (Nat.eqb (length row) 0) && Nat.eqb (String.length rec) 0
   then String DQUOTE (String DQUOTE EmptyString)
   else rec)
  ++ String LF EmptyString.

Definition writerows (rows : list (list value)) : string :=
  String.concat EmptyString (map writerow rows).

(** [DictWriter._dict_to_list] with [restval=''] and
    [extrasaction='ignore']: [rowdict.get(key, '')] for each field name. *)
Definition dict_to_list (fieldnames : list string) (rowdict : record)
    : list value :=
  map (fun key => match get rowdict key with
                  | Some v => v
                  | None => VStr EmptyString
                  end) fieldnames.

(** [DictWriter.writeheader]: the row [dict(zip(fieldnames, fieldnames))]. *)
Definition writeheader (fieldnames : list string) : string :=
  writerow (dict_to_list fieldnames
              (dict_update String.eqb []
                 (combine fieldnames (map VStr fieldnames)))).

(** [DictWriter.writerows] *)
Definition dictwriter_writerows (fieldnames : list string)
    (rowdicts : list record) : string :=
  writerows (map (dict_to_list fieldnames) rowdicts).

(** *** Reader *)

Inductive ParserState : Type :=
| START_RECORD
| START_FIELD
| IN_FIELD
| IN_QUOTED_FIELD
| QUOTE_IN_QUOTED_FIELD
| EAT_CRNL.
(* ESCAPED_CHAR, AFTER_ESCAPED_CRNL and ESCAPE_IN_QUOTED_FIELD are entered
   only on the escape character, which the dialect does not have. *)

Record ReaderObj : Type := {
  state : ParserState;
  field : string;           (* the characters of the field being read *)
  fields : list string      (* the fields of the record being read *)
}.

(** What the parser is fed: a character of the line, or the end-of-line
    mark after the last character of each line. *)
Inductive input : Type :=
| Char (c : ascii)
| EOL.

(** [csv.field_size_limit()] *)
Definition field_limit : Z := 131072.

Definition set_state (self : ReaderObj) (s : ParserState) : ReaderObj :=
  {| state := s; field := field self; fields := fields self |}.

Definition parse_add_char (self : ReaderObj) (c : ascii)
    : outcome string ReaderObj :=
  if (field_limit <=? Z.of_nat (String.length (field self)))%Z then
    Exc "field larger than field limit (131072)"
  else
    Ret {| state := state self;
           field := field self ++ String c EmptyString;
           fields := fields self |}.

Definition parse_save_field (self : ReaderObj) : ReaderObj :=
  {| state := state self; field := EmptyString;
     fields := fields self ++ [field self] |}.

Definition is_newline (c : ascii) : bool := (c =? LF)%char || (c =? CR)%char.

(** The case [START_FIELD] of [parse_process_char], into which
    [START_RECORD] falls through. *)
Definition parse_start_field (self : ReaderObj) (i : input)
    : outcome string ReaderObj :=
  match i with
  | EOL => Ret (set_state (parse_save_field self) START_RECORD)
  | Char c =>
      if is_newline c then Ret (set_state (parse_save_field self) EAT_CRNL)
      else if (c =? DQUOTE)%char then Ret (set_state self IN_QUOTED_FIELD)
      else if (c =? COMMA)%char then Ret (parse_save_field self)
      else match parse_add_char self c with
           | Ret self' => Ret (set_state self' IN_FIELD)
           | Exc e => Exc e
           end
  end.

Definition parse_process_char (self : ReaderObj) (i : input)
    : outcome string ReaderObj :=
  match state self with
  | START_RECORD =>
      match i with
      | EOL => Ret self
      | Char c =>
          if is_newline c then Ret (set_state self EAT_CRNL)
          else parse_start_field (set_state self START_FIELD) i
      end
  | START_FIELD => parse_start_field self i
  | IN_FIELD =>
      match i with
      | EOL => Ret (set_state (parse_save_field self) START_RECORD)
      | Char c =>
          if is_newline c then Ret (set_state (parse_save_field self) EAT_CRNL)
          else if (c =? COMMA)%char then
            Ret (set_state (parse_save_field self) START_FIELD)
          else parse_add_char self c
      end
  | IN_QUOTED_FIELD =>
      match i with
      | EOL => Ret self
      | Char c =>
          if (c =? DQUOTE)%char then Ret (set_state self QUOTE_IN_QUOTED_FIELD)
          else parse_add_char self c
      end
  | QUOTE_IN_QUOTED_FIELD =>
      match i with
      | EOL => Ret (set_state (parse_save_field self) START_RECORD)
      | Char c =>
          if (c =? DQUOTE)%char then
            match parse_add_char self c with
            | Ret self' => Ret (set_state self' IN_QUOTED_FIELD)
            | Exc e => Exc e
            end
          else if (c =? COMMA)%char then
            Ret (set_state (parse_save_field self) START_FIELD)
          else if is_newline c then
            Ret (set_state (parse_save_field self) EAT_CRNL)
          else
            match parse_add_char self c with
            | Ret self' => Ret (set_state self' IN_FIELD)
            | Exc e => Exc e
            end
      end
  | EAT_CRNL =>
      match i with
      | EOL => Ret (set_state self START_RECORD)
      | Char c =>
          if is_newline c then Ret self
          else Exc "new-line character seen in unquoted field - do you need to open the file in universal-newline mode?"
      end
  end.

Definition parse_reset : ReaderObj :=
  {| state := START_RECORD; field := EmptyString; fields := [] |}.

(** The characters of one line, fed in order. *)
Fixpoint feed_line (self : ReaderObj) (line : string)
    : outcome string ReaderObj :=
  match line with
  | EmptyString => Ret self
  | String c rest =>
      match parse_process_char self (Char c) with
      | Ret self' => feed_line self' rest
      | Exc e => Exc e
      end
  end.

Definition is_START_RECORD (s : ParserState) : bool :=
  match s with START_RECORD => true | _ => false end.

Definition is_IN_QUOTED_FIELD (s : ParserState) : bool :=
  match s with IN_QUOTED_FIELD => true | _ => false end.

(** [Reader_iternext] called until the input is used up: the records read
    from the remaining lines, [self] being the state inside the loop over
    the lines of one record. At the end of the input a record is returned
    only for a pending field or an open quoted field. *)
Fixpoint read_rows (self : ReaderObj) (lines : list string)
    : outcome string (list (list string)) :=
  match lines with
  | [] =>
      if negb (Nat.eqb (String.length (field self)) 0)
         || is_IN_QUOTED_FIELD (state self)
      then Ret [fields (parse_save_field self)]
      else Ret []
  | line :: rest =>
      match feed_line self line with
      | Exc e => Exc e
      | Ret self1 =>
          match parse_process_char self1 EOL with
          | Exc e => Exc e
          | Ret self2 =>
              if is_START_RECORD (state self2) then
                match read_rows parse_reset rest with
                | Ret rows => Ret (fields self2 :: rows)
                | Exc e => Exc e
                end
              else read_rows self2 rest
          end
      end
  end.

(** Iterating over [io.StringIO(s)]: the lines of [s], each with its
    terminating line feed (only a line feed ends a line). *)
Fixpoint StringIO_lines (s : string) : list string :=
  match s with
  | EmptyString => []
  | String c rest =>
      if (c =? LF)%char then String c EmptyString :: StringIO_lines rest
      else match StringIO_lines rest with
           | [] => [String c EmptyString]
           | line :: more => String c line :: more
           end
  end.

(** [list(csv.reader(io.StringIO(s)))] *)
Definition reader (s : string) : outcome string (list (list string)) :=
  read_rows parse_reset (StringIO_lines s).

(** What [Reader_iternext] does when the lines have run out. *)
Definition end_of_input (self : ReaderObj)
    : outcome string (list (list string)) :=
  if negb (Nat.eqb (String.length (field self)) 0)
     || is_IN_QUOTED_FIELD (state self)
  then Ret [fields (parse_save_field self)]
  else Ret [].

(** The reader as a machine over the characters of the whole text: the
    end-of-line mark follows every line feed and the last character of the
    text. It is shown below to read the same records as [read_rows] reads
    from the lines of the text. *)
Fixpoint read_stream (self : ReaderObj) (s : string)
    : outcome string (list (list string)) :=
  match s with
  | EmptyString => end_of_input self
  | String c rest =>
      match parse_process_char self (Char c) with
      | Exc e => Exc e
      | Ret self1 =>
          if (c =? LF)%char || Nat.eqb (String.length rest) 0 then
            match parse_process_char self1 EOL with
            | Exc e => Exc e
            | Ret self2 =>
                if is_START_RECORD (state self2) then
                  match read_stream parse_reset rest with
                  | Ret rows => Ret (fields self2 :: rows)
                  | Exc e => Exc e
                  end
                else read_stream self2 rest
            end
          else read_stream self1 rest
      end
  end.

(** *** Fields that survive writing and reading

    A field comes back from the reader as it was written when it is not
    longer than the field limit and when a carriage return in it is
    protected by quotes (the writer quotes a field only for a comma, a
    quote character or a line feed). *)
Fixpoint has_cr (s : string) : bool :=
  match s with
  | EmptyString => false
  | String c rest => (c =? CR)%char || has_cr rest
  end.

Definition readable_back (f : string) : Prop :=
  (Z.of_nat (String.length f) <= field_limit)%Z
  /\ (has_cr f = true -> quoted f = true).

(** *** Vocabulary of the proofs about the reader *)

Abbreviation mk st f fs := {| state := st; field := f; fields := fs |}.

(** A record in front of the records still to be read. *)
Definition cons_row (row : list string)
    (o : outcome string (list (list string)))
    : outcome string (list (list string)) :=
  match o with
  | Ret rows => Ret (row :: rows)
  | Exc e => Exc e
  end.

(** Where the parser stands after the characters of a field [f] that it
    started to read in state [s0]: inside the field, behind its closing
    quote, or where it was when the field is empty. *)
Definition after_field (s0 s1 : ParserState) (f : string) : Prop :=
  s1 = IN_FIELD \/ s1 = QUOTE_IN_QUOTED_FIELD
  \/ (f = EmptyString /\ s1 = s0).

(** A line feed as a string. *)
Definition NL : string := String LF EmptyString.

(** *** DictReader *)

(** The values of a row of [DictReader]: a cell of the line, [None] for a
    field the line is too short for ([restval]), or the list of the cells
    beyond the header (under the key [None], [restkey]). *)
Inductive cell : Type :=
| CStr (s : string)
| CNone
| CRest (cells : list string).

Definition row_dict : Type := list (option string * cell).

Definition key_eqb (a b : option string) : bool :=
  match a, b with
  | Some x, Some y => String.eqb x y
  | None, None => true
  | _, _ => false
  end.

Definition lookup (d : row_dict) (k : option string) : option cell :=
  dict_get key_eqb d k.

(** The dictionary [DictReader.__next__] builds from a non-empty row. *)
Definition dictreader_row (fieldnames row : list string) : row_dict :=
  let d := dict_update key_eqb []
             (combine (map Some fieldnames) (map CStr row)) in
  let lf := length fieldnames in
  let lr := length row in
  if Nat.ltb lf lr then dict_set key_eqb d None (CRest (skipn lf row))
  else if Nat.ltb lr lf then
    fold_left (fun d key => dict_set key_eqb d (Some key) CNone)
      (skipn lr fieldnames) d
  else d.

Definition is_empty_row (row : list string) : bool :=
  match row with [] => true | _ => false end.

(** [[dict(row) for row in csv.DictReader(io.StringIO(s))]]: the first
    record read gives the field names, empty records after it are skipped. *)
Definition DictReader (s : string) : outcome string (list row_dict) :=
  match reader s with
  | Exc e => Exc e
  | Ret [] => Ret []
  | Ret (fieldnames :: rows) =>
      Ret (map (dictreader_row fieldnames)
             (filter (fun row => negb (is_empty_row row)) rows))
  end.

End Csv.

(** ** [utils/data_handler.py] *)

Module DataHandler.
Import Py Csv.

(** The field names [convert_records_to_csv_string] writes: [field_order]
    when it is given and not empty, else the keys of the first record. *)
Definition fieldnames_of (records : list record)
    (field_order : option (list string)) : list string :=
  match field_order with
  | Some (k :: ks) => k :: ks
  | _ => match records with
         | first :: _ => dict_keys first
         | [] => []
         end
  end.

(** [convert_records_to_csv_string(records, field_order)] *)
Definition convert_records_to_csv_string (records : list record)
    (field_order : option (list string)) : string :=
  match records with
  | [] => EmptyString
  | _ :: _ =>
      match fieldnames_of records field_order with
      | [] => EmptyString
      | fieldnames =>
          writeheader fieldnames ++ dictwriter_writerows fieldnames records
      end
  end.

(** [c.isspace()] for a code point below 256. *)
Definition isspace (c : ascii) : bool :=
  let n := nat_of_ascii c in
  (Nat.leb 9 n && Nat.leb n 13) || (Nat.leb 28 n && Nat.leb n 32)
  || Nat.eqb n 133 || Nat.eqb n 160.

(** [not s.strip()]: the string is empty or made of white space. *)
Fixpoint strip_is_empty (s : string) : bool :=
  match s with
  | EmptyString => true
  | String c rest => isspace c && strip_is_empty rest
  end.

(** [parse_csv_string_to_records(csv_string)]; a [csv.Error] of the reader
    propagates. *)
Definition parse_csv_string_to_records (csv_string : string)
    : outcome string (list row_dict) :=
  if strip_is_empty csv_string then Ret [] else DictReader csv_string.

(** The dictionary comprehension of the file readers:
    [{k: (v if v != "" else None) for k, v in row.items()}]. *)
Definition cleaned_row (row : row_dict) : row_dict :=
  map (fun kv => (fst kv,
                  match snd kv with
                  | CStr EmptyString => CNone
                  | v => v
                  end)) row.

(** The CSV branch of [read_file_data_for_bulk], from the decoded content
    of the file to its records. *)
Definition read_file_data_for_bulk_csv (decoded_content : string)
    : outcome string (list row_dict) :=
  match DictReader decoded_content with
  | Ret rows => Ret (map cleaned_row rows)
  | Exc e => Exc ("Invalid CSV format: " ++ e)%string
  end.

(** [rowdict.get(key, '')]: the value [DictWriter] writes for field [k] of
    record [r], and its text in the CSV. *)
Definition cell_value (r : record) (k : string) : value :=
  match get r k with
  | Some v => v
  | None => VStr EmptyString
  end.

Definition cell_text (r : record) (k : string) : string :=
  field_text (cell_value r k).

(** *** The properties as the specification words them *)

(** [v == c] in Python for a value of a record and a value of a parsed row: a
    string equals the same string, [None] equals [None], and an integer
    equals neither a string nor [None]. *)
Definition value_eq_cell (v : value) (c : cell) : bool :=
  match v, c with
  | VStr s, CStr t => String.eqb s t
  | VNone, CNone => true
  | _, _ => false
  end.

(** Equal, or a [None] that came back as the empty string. *)
Definition same_up_to_none (v : value) (c : cell) : bool :=
  value_eq_cell v c
  || match v, c with
     | VNone, CStr EmptyString => true
     | _, _ => false
     end.

(** The record restricted to the field order. *)
Definition restrict (fieldnames : list string) (r : record) : record :=
  filter (fun kv => existsb (String.eqb (fst kv)) fieldnames) r.

(** Equality of dictionaries, up to [None] and [''], between the restricted
    record and the parsed row: same keys, matching values. *)
Definition record_round_trips (fieldnames : list string) (r : record)
    (p : row_dict) : bool :=
  forallb (fun kv => match lookup p (Some (fst kv)) with
                     | Some c => same_up_to_none (snd kv) c
                     | None => false
                     end) (restrict fieldnames r)
  && forallb (fun kc => match fst kc with
                        | Some k => match get (restrict fieldnames r) k with
                                    | Some _ => true
                                    | None => false
                                    end
                        | None => false
                        end) p.

(** Serialising and parsing gives back the records, restricted to the field
    order, up to [None] and ['']. *)
Definition round_trips (records : list record)
    (field_order : option (list string)) : bool :=
  match parse_csv_string_to_records
          (convert_records_to_csv_string records field_order) with
  | Ret parsed =>
      Nat.eqb (length parsed) (length records)
      && forallb (fun rp => record_round_trips
                              (fieldnames_of records field_order)
                              (fst rp) (snd rp))
           (combine records parsed)
  | Exc _ => false
  end.

(** The header row of a CSV text, as the reader sees it. *)
Definition header_row (csv : string) : option (list string) :=
  match reader csv with
  | Ret (header :: _) => Some header
  | _ => None
  end.

(** The parsed row has a [None] among its values. *)
Definition has_none_value (p : row_dict) : bool :=
  existsb (fun kc => match snd kc with CNone => true | _ => false end) p.

(** A batch used in the examples. *)
Definition sample_batch : list record :=
  [[("Name", VStr "Acme, Inc."); ("AnnualRevenue", VInt 1000000)];
   [("AnnualRevenue", VNone); ("Name", VStr "Globex"); ("Site", VStr "HQ")]].

End DataHandler.

(** ** [salesforce/auth.py]: the token cache *)

Module Auth.
Import Py.
Local Open Scope py_scope.
Local Open Scope Z_scope.

Inductive exn : Type :=
| HTTPException (status_code : Z) (detail : string)
| TypeError (msg : string).

(** The class attributes of [SalesforceAuth]; times are in milliseconds
    since the epoch. *)
Record SalesforceAuth : Type := {
  _access_token : option string;
  _instance_url : option string;
  _token_expiry : option Z;
  _issued_at : option Z
}.

(** The class as it is defined: nothing cached. *)
Definition unauthenticated : SalesforceAuth :=
  {| _access_token := None; _instance_url := None;
     _token_expiry := None; _issued_at := None |}.

(** What the token endpoint answers to a password-grant request: no answer
    ([httpx.RequestError], with the name of its class), an error status with
    the optional ['error_description'] and ['error'] of its body, or a JSON
    body with the optional ['access_token'], ['instance_url'] and
    ['issued_at'] (the latter already read as an integer). *)
Inductive token_answer : Type :=
| RequestError (class_name : string)
| StatusError (status_code : Z) (error_description error : option string)
| TokenJson (access_token instance_url : option string) (issued_at : option Z).

(** The process: the cache, the number of requests sent to the token
    endpoint and the number of readings of the clock. *)
Record world : Type := {
  cache : SalesforceAuth;
  token_requests : nat;
  clock_reads : nat
}.

Definition initial_world : world :=
  {| cache := unauthenticated; token_requests := 0; clock_reads := 0 |}.

(** The environment: the answer to the n-th token request, the n-th reading
    of [datetime.utcnow()] in milliseconds, and
    [settings.SALESFORCE_TOKEN_REFRESH_BUFFER] in seconds. *)
Record environment : Type := {
  token_endpoint : nat -> token_answer;
  utcnow : nat -> Z;
  SALESFORCE_TOKEN_REFRESH_BUFFER : Z
}.

Definition run (A : Type) : Type := M world exn A.

Definition set_cache (f : SalesforceAuth -> SalesforceAuth) : run unit :=
  modify (fun w => {| cache := f (cache w);
                      token_requests := token_requests w;
                      clock_reads := clock_reads w |}).

Section Operations.
Variable env : environment.

(** [client.post(settings.SALESFORCE_TOKEN_URL, data=payload)] *)
Definition post_token : run token_answer :=
  fun w => (Ret (token_endpoint env (token_requests w)),
            {| cache := cache w;
               token_requests := S (token_requests w);
               clock_reads := clock_reads w |}).

(** [datetime.utcnow()] *)
Definition datetime_utcnow : run Z :=
  fun w => (Ret (utcnow env (clock_reads w)),
            {| cache := cache w;
               token_requests := token_requests w;
               clock_reads := S (clock_reads w) |}).

(** [_is_token_expired] *)
Definition _is_token_expired : run bool :=
  c <- gets cache ;;
  match _token_expiry c with
  | None => ret true
  | Some expiry =>
      if negb (truthy_opt (_access_token c)) then ret true
      else
        now_utc <- datetime_utcnow ;;
        if expiry - 1000 * SALESFORCE_TOKEN_REFRESH_BUFFER env <=? now_utc
        then ret true
        else ret false
  end.

Definition status_detail (status_code : Z)
    (error_description error : option string) : string :=
  ("Failed to authenticate with Salesforce (HTTP error "
   ++ str_of_int status_code ++ ")"
   ++ match error_description, error with
      | Some d, _ => ": " ++ d
      | None, Some e => ": " ++ e
      | None, None => ""
      end)%string.

(** [authenticate], from the answer of the token endpoint on. *)
Definition authenticate_finish (answer : token_answer) : run unit :=
  match answer with
  | RequestError class_name =>
      raise (HTTPException 503
               ("Failed to authenticate with Salesforce (network issue): "
                ++ class_name)%string)
  | StatusError status_code error_description error =>
      raise (HTTPException status_code
               (status_detail status_code error_description error))
  | TokenJson access_token instance_url issued_at =>
      set_cache (fun c => {| _access_token := access_token;
                             _instance_url := _instance_url c;
                             _token_expiry := _token_expiry c;
                             _issued_at := _issued_at c |}) ;;
      set_cache (fun c => {| _access_token := _access_token c;
                             _instance_url := instance_url;
                             _token_expiry := _token_expiry c;
                             _issued_at := _issued_at c |}) ;;
      match issued_at with
      | None =>
          (* int(None) *)
          raise (TypeError "int() argument must be a string, a bytes-like object or a real number, not 'NoneType'")
      | Some ms =>
          set_cache (fun c => {| _access_token := _access_token c;
                                 _instance_url := _instance_url c;
                                 _token_expiry := _token_expiry c;
                                 _issued_at := Some ms |}) ;;
          if negb (truthy_opt access_token) || negb (truthy_opt instance_url)
          then
            raise (HTTPException 500
                     "Salesforce authentication response missing critical data.")
          else
            (* assumed_validity_seconds = 2 * 60 * 60 *)
            set_cache (fun c => {| _access_token := _access_token c;
                                   _instance_url := _instance_url c;
                                   _token_expiry := Some (ms + 1000 * (2 * 60 * 60));
                                   _issued_at := _issued_at c |})
      end
  end.

(** [authenticate] *)
Definition authenticate : run unit :=
  answer <- post_token ;;
  authenticate_finish answer.

(** The last statements of [get_auth_details], after the lock is
    released. *)
Definition return_auth_details : run (string * string) :=
  c <- gets cache ;;
  match _access_token c, _instance_url c with
  | Some access_token, Some instance_url =>
      if truthy access_token && truthy instance_url
      then ret (access_token, instance_url)
      else raise (HTTPException 500
                    "Failed to obtain Salesforce authentication details.")
  | _, _ => raise (HTTPException 500
                     "Failed to obtain Salesforce authentication details.")
  end.

(** The test made under the lock: does [get_auth_details] have to
    authenticate? *)
Definition needs_authentication : run bool :=
  expired <- _is_token_expired ;;
  if expired then ret true
  else
    c <- gets cache ;;
    ret (negb (truthy_opt (_access_token c))
         || negb (truthy_opt (_instance_url c))).

(** [get_auth_details], run without interleaving. *)
Definition get_auth_details : run (string * string) :=
  needed <- needs_authentication ;;
  (if needed then authenticate else ret tt) ;;
  return_auth_details.

(** The first statements of [handle_401_unauthorized]. *)
Definition invalidate : run unit :=
  set_cache (fun c => {| _access_token := None;
                         _instance_url := _instance_url c;
                         _token_expiry := _token_expiry c;
                         _issued_at := _issued_at c |}) ;;
  set_cache (fun c => {| _access_token := _access_token c;
                         _instance_url := _instance_url c;
                         _token_expiry := None;
                         _issued_at := _issued_at c |}).

(** [handle_401_unauthorized], run without interleaving. *)
Definition handle_401_unauthorized : run unit :=
  invalidate ;;
  authenticate.

End Operations.

(** Both the token and the instance URL are cached, or neither is. *)
Definition is_some {A} (o : option A) : bool :=
  match o with Some _ => true | None => false end.

Definition consistent (c : SalesforceAuth) : bool :=
  Bool.eqb (is_some (_access_token c)) (is_some (_instance_url c)).

(** Both are cached and not empty. *)
Definition both_present (c : SalesforceAuth) : Prop :=
  exists access_token instance_url,
    _access_token c = Some access_token
    /\ _instance_url c = Some instance_url
    /\ truthy access_token = true /\ truthy instance_url = true.

(** Environments used in the examples: an endpoint that issues the same
    token at time [1700000000000] to every request, one that cannot be
    reached, and one whose answer lacks the instance URL. The clock stands
    one second after the time of issue. *)
Definition issuing : environment :=
  {| token_endpoint := fun _ =>
       TokenJson (Some "00Dxx!AQ4") (Some "https://na1.salesforce.com")
         (Some 1700000000000);
     utcnow := fun _ => 1700000001000;
     SALESFORCE_TOKEN_REFRESH_BUFFER := 300 |}.

Definition unreachable : environment :=
  {| token_endpoint := fun _ => RequestError "ConnectTimeout";
     utcnow := fun _ => 1700000001000;
     SALESFORCE_TOKEN_REFRESH_BUFFER := 300 |}.

Definition truncated : environment :=
  {| token_endpoint := fun _ =>
       TokenJson (Some "00Dxx!AQ4") None (Some 1700000000000);
     utcnow := fun _ => 1700000001000;
     SALESFORCE_TOKEN_REFRESH_BUFFER := 300 |}.

(** The world after a first successful call in the environment
    [issuing]. *)
Definition authenticated_world : world :=
  snd (get_auth_details issuing initial_world).

(** *** Concurrent callers of [get_auth_details]

    The coroutines run on one asyncio event loop: a coroutine runs without
    interruption from one suspension to the next. [get_auth_details]
    suspends when [token_lock] is held by another coroutine, and, holding
    the lock, inside [authenticate] while the token request is in flight;
    [_is_token_expired] and the statements after the answer has arrived do
    not suspend. *)

(** How far the first uninterrupted part of the call gets once it has the
    lock: it has sent the token request and waits for the answer, or it has
    finished. *)
Inductive progress : Type :=
| Awaiting (answer : token_answer)
| Finished (result : outcome exn (string * string)).

(** From the acquisition of the lock to the first suspension. *)
Definition get_auth_details_enter (env : environment) (w : world)
    : progress * world :=
  match needs_authentication env w with
  | (Ret true, w1) =>
      match post_token env w1 with
      | (Ret answer, w2) => (Awaiting answer, w2)
      | (Exc e, w2) => (Finished (Exc e), w2)
      end
  | (Ret false, w1) =>
      (Finished (fst (return_auth_details w1)), snd (return_auth_details w1))
  | (Exc e, w1) => (Finished (Exc e), w1)
  end.

(** From the arrival of the answer to the end of the call; the lock is
    released on the way, also by an exception. *)
Definition get_auth_details_resume (answer : token_answer) (w : world)
    : outcome exn (string * string) * world :=
  match authenticate_finish answer w with
  | (Ret _, w1) => return_auth_details w1
  | (Exc e, w1) => (Exc e, w1)
  end.

(** A caller has not got the lock yet, waits for the answer to its token
    request, or has got its result. *)
Inductive caller : Type :=
| Ready
| Suspended (answer : token_answer)
| Returned (result : outcome exn (string * string)).

Record system : Type := {
  shared : world;
  lock_held : bool;
  callers : list caller
}.

Fixpoint set_nth {A : Type} (i : nat) (x : A) (l : list A) : list A :=
  match l, i with
  | [], _ => []
  | _ :: l', O => x :: l'
  | y :: l', S i' => y :: set_nth i' x l'
  end.

(** One step of the event loop: a caller gets the free lock and runs to its
    first suspension or to its end, or the answer to the token request of
    the caller in flight arrives and that caller runs to its end. *)
Inductive step (env : environment) : system -> system -> Prop :=
| step_enter (s : system) (i : nat) :
    nth_error (callers s) i = Some Ready ->
    lock_held s = false ->
    step env s
      {| shared := snd (get_auth_details_enter env (shared s));
         lock_held :=
           match fst (get_auth_details_enter env (shared s)) with
           | Awaiting _ => true
           | Finished _ => false
           end;
         callers :=
           set_nth i
             match fst (get_auth_details_enter env (shared s)) with
             | Awaiting answer => Suspended answer
             | Finished result => Returned result
             end
             (callers s) |}
| step_resume (s : system) (i : nat) (answer : token_answer) :
    nth_error (callers s) i = Some (Suspended answer) ->
    step env s
      {| shared := snd (get_auth_details_resume answer (shared s));
         lock_held := false;
         callers :=
           set_nth i
             (Returned (fst (get_auth_details_resume answer (shared s))))
             (callers s) |}.

(** Executions of the event loop. *)
Inductive steps (env : environment) : system -> system -> Prop :=
| steps_refl (s : system) : steps env s s
| steps_step (s1 s2 s3 : system) :
    steps env s1 s2 -> step env s2 s3 -> steps env s1 s3.

(** [n] callers in front of the free lock. *)
Definition concurrent_calls (w : world) (n : nat) : system :=
  {| shared := w; lock_held := false; callers := repeat Ready n |}.

Definition is_returned (c : caller) : bool :=
  match c with Returned _ => true | _ => false end.

Definition all_returned (s : system) : bool := forallb is_returned (callers s).

(** The property as the specification words it: once every caller has
    returned, exactly one token request has been sent and all callers have
    received the same pair. *)
Definition single_flight (env : environment) (n : nat) : Prop :=
  forall s,
    steps env (concurrent_calls initial_world n) s ->
    all_returned s = true ->
    token_requests (shared s) = 1%nat
    /\ exists pair, Forall (fun c => c = Returned (Ret pair)) (callers s).

(** The work a caller still has to do, in steps of the event loop. *)
Definition pending (c : caller) : nat :=
  match c with
  | Ready => 2
  | Suspended _ => 1
  | Returned _ => 0
  end.

Definition work (s : system) : nat := list_sum (map pending (callers s)).

(** A complete answer of the token endpoint, and the cache it leaves. *)
Definition complete_answer (access_token instance_url : string)
    (issued_at : Z) : token_answer :=
  TokenJson (Some access_token) (Some instance_url) (Some issued_at).

Definition cached (access_token instance_url : string) (issued_at : Z)
    : SalesforceAuth :=
  {| _access_token := Some access_token;
     _instance_url := Some instance_url;
     _token_expiry := Some (issued_at + 1000 * (2 * 60 * 60));
     _issued_at := Some issued_at |}.

(** The three situations an execution of [n] callers started in the world
    [w0] can be in when the token endpoint gives a complete answer: nobody
    has entered, the first caller is in flight, the token is cached. *)
Definition single_flight_inv (w0 : world)
    (access_token instance_url : string) (issued_at : Z)
    (n : nat) (s : system) : Prop :=
  length (callers s) = n
  /\ ((lock_held s = false /\ shared s = w0 /\ Forall (eq Ready) (callers s))
      \/ (lock_held s = true /\ cache (shared s) = unauthenticated
          /\ token_requests (shared s) = S (token_requests w0)
          /\ exists i,
               nth_error (callers s) i
               = Some (Suspended
                         (complete_answer access_token instance_url issued_at))
               /\ forall j c, j <> i -> nth_error (callers s) j = Some c ->
                              c = Ready)
      \/ (lock_held s = false
          /\ cache (shared s) = cached access_token instance_url issued_at
          /\ token_requests (shared s) = S (token_requests w0)
          /\ Forall (fun c => c = Ready
                              \/ c = Returned (Ret (access_token, instance_url)))
               (callers s))).

End Auth.

(** ** [salesforce/operations.py] and [routers/bulk.py]: Bulk API 2.0 jobs *)

Module Bulk.
Import Py Csv DataHandler.
Local Open Scope py_scope.
Local Open Scope Z_scope.

(** The exceptions the code tells apart: FastAPI's [HTTPException], httpx's
    [HTTPStatusError], and any other exception with its [str(e)]. *)
Inductive exn : Type :=
| HTTPException (status_code : Z) (detail : string)
| HTTPStatusError (status_code : Z) (text message : string)
| OtherError (message : string).

(** [str(e)]; Starlette prints an [HTTPException] as its status code and
    its detail. *)
Definition exn_str (e : exn) : string :=
  match e with
  | HTTPException status_code detail =>
      (str_of_int status_code ++ ": " ++ detail)%string
  | HTTPStatusError _ _ message => message
  | OtherError message => message
  end.

(** [SalesforceBulkOperationPayload]; [records] is empty when the field is
    [None]. *)
Record payload : Type := {
  object_name : string;
  operation : string;
  records : list record;
  external_id_field : option string
}.

(** The body of the answer to the creation of an ingest job. *)
Record job_info : Type := {
  job_id : option string;         (* job_info.get("id") *)
  contentUrl : option string      (* job_info.get("contentUrl") *)
}.

(** The body of the answer to a status request. *)
Record job_status : Type := {
  status_id : option string;
  status_state : option string;
  status_operation : option string;
  status_object : option string;
  errorMessage : option string;
  numberRecordsProcessed : option Z;
  numberRecordsFailed : option Z
}.

(** The requests the client sends. *)
Inductive request : Type :=
| CreateIngestJob (object_name operation : string)
    (external_id_field : option string)
| UpdateJobState (job_id new_state : string)
| UploadJobData (content_url csv_data : string)
| GetJobInfo (is_query_job : bool) (job_id : string)
| GetQueryResults (job_id : string)
| GetSuccessfulResults (job_id : string)
| GetFailedResults (job_id : string)
| GetUnprocessedRecords (job_id : string).

(** The requests sent so far, and the state of each ingest job as this
    client has created it and last set it. *)
Record world : Type := {
  requests : list request;
  jobs : list (string * string)
}.

Definition empty_world : world := {| requests := []; jobs := [] |}.

(** The transport and the org behind it: the outcome of the n-th request
    when it is of the given kind. A request that raises leaves the jobs as
    they are. *)
Record salesforce : Type := {
  on_create_job : nat -> outcome exn job_info;
  on_update_state : nat -> outcome exn unit;
  on_upload : nat -> outcome exn bool;
  on_job_info : nat -> outcome exn job_status;
  on_query_results : nat -> string -> outcome exn string;
  on_successful_results : nat -> string -> outcome exn string;
  on_failed_results : nat -> string -> outcome exn string;
  on_unprocessed_records : nat -> string -> outcome exn string
}.

Definition run (A : Type) : Type := M world exn A.

Definition job_state (w : world) (j : string) : option string :=
  dict_get String.eqb (jobs w) j.

Section Client.
Variable sf : salesforce.

(** [client.create_bulk_ingest_job(...)]; an accepted creation that names
    the job leaves it open. *)
Definition create_bulk_ingest_job (object_name operation : string)
    (external_id_field : option string) : run job_info :=
  fun w =>
    let sent := requests w
                ++ [CreateIngestJob object_name operation external_id_field] in
    match on_create_job sf (length (requests w)) with
    | Ret info =>
        (Ret info,
         {| requests := sent;
            jobs := match job_id info with
                    | Some j => dict_set String.eqb (jobs w) j "Open"
                    | None => jobs w
                    end |})
    | Exc e => (Exc e, {| requests := sent; jobs := jobs w |})
    end.

(** [client.update_bulk_job_state(job_id, new_state)] *)
Definition update_bulk_job_state (j new_state : string) : run unit :=
  fun w =>
    let sent := requests w ++ [UpdateJobState j new_state] in
    match on_update_state sf (length (requests w)) with
    | Ret _ =>
        (Ret tt,
         {| requests := sent;
            jobs := dict_set String.eqb (jobs w) j new_state |})
    | Exc e => (Exc e, {| requests := sent; jobs := jobs w |})
    end.

(** A request that changes no job. *)
Definition send {A : Type} (r : request) (answer : nat -> outcome exn A)
    : run A :=
  fun w => (answer (length (requests w)),
            {| requests := requests w ++ [r]; jobs := jobs w |}).

(** [client.upload_bulk_job_data(content_url, csv_data)] *)
Definition upload_bulk_job_data (content_url csv_data : string) : run bool :=
  send (UploadJobData content_url csv_data) (on_upload sf).

Definition get_job_info (is_query_job : bool) (j : string) : run job_status :=
  send (GetJobInfo is_query_job j) (on_job_info sf).

Definition get_query_results (j : string) : run string :=
  send (GetQueryResults j) (fun n => on_query_results sf n j).

Definition get_bulk_job_successful_results (j : string) : run string :=
  send (GetSuccessfulResults j) (fun n => on_successful_results sf n j).

Definition get_bulk_job_failed_results (j : string) : run string :=
  send (GetFailedResults j) (fun n => on_failed_results sf n j).

Definition get_bulk_job_unprocessed_records (j : string) : run string :=
  send (GetUnprocessedRecords j) (fun n => on_unprocessed_records sf n j).

(** [if job_id: await client.update_bulk_job_state(job_id, "Aborted")] *)
Definition abort_if_created (j : option string) : run unit :=
  match j with
  | Some j => if truthy j then update_bulk_job_state j "Aborted" else ret tt
  | None => ret tt
  end.

(** *** [shared/src/salesforce/operations.py] *)

(** The two [except] clauses of [perform_bulk_operation], [job_id] being
    the value of the local variable when the exception is raised. *)
Definition shared_handler {A : Type} (j : option string) (e : exn) : run A :=
  match e with
  | HTTPStatusError status_code text _ =>
      abort_if_created j ;;
      raise (HTTPException status_code text)
  | _ =>
      abort_if_created j ;;
      raise (HTTPException 500 (exn_str e))
  end.

(** [perform_bulk_operation(client, payload)], returning the job id. *)
Definition shared_perform_bulk_operation (p : payload) : run string :=
  info <- try_except
            (create_bulk_ingest_job (object_name p) (operation p)
               (external_id_field p))
            (shared_handler None) ;;
  try_except
    (match job_id info, contentUrl info with
     | Some j, Some content_url =>
         if truthy j && truthy content_url then
           let csv_data := convert_records_to_csv_string (records p) None in
           if strip_is_empty csv_data then
             update_bulk_job_state j "Aborted" ;;
             raise (HTTPException 400 "No records to process.")
           else
             upload_bulk_job_data content_url csv_data ;;
             update_bulk_job_state j "UploadComplete" ;;
             ret j
         else raise (HTTPException 500 "Failed to initialize bulk job.")
     | _, _ => raise (HTTPException 500 "Failed to initialize bulk job.")
     end)
    (shared_handler (job_id info)).

(** [results_data]: the CSV text of a query job, or the dictionary of the
    CSV texts of an ingest job. *)
Inductive results_data : Type :=
| QueryCsv (text : string)
| IngestCsv (texts : list (string * string)).

(** [get_bulk_job_status_and_results(client, job_id, is_query_job)]; its
    [except] clauses turn every exception into an [HTTPException]. *)
Definition get_bulk_job_status_and_results (j : string) (is_query_job : bool)
    : run (job_status * option results_data) :=
  try_except
    (info <- get_job_info is_query_job j ;;
     match status_state info with
     | Some state =>
         if String.eqb state "JobComplete" then
           if is_query_job then
             text <- get_query_results j ;;
             ret (info, Some (QueryCsv text))
           else
             successful_csv <- get_bulk_job_successful_results j ;;
             failed_csv <- get_bulk_job_failed_results j ;;
             ret (info,
                  Some (IngestCsv [("successful_records_csv", successful_csv);
                                   ("failed_records_csv", failed_csv)]))
         else ret (info, None)
     | None => ret (info, None)
     end)
    (fun e =>
       match e with
       | HTTPStatusError status_code text _ =>
           raise (HTTPException status_code text)
       | _ => raise (HTTPException 500 (exn_str e))
       end).

(** *** [bulk-service/src/app/routers/bulk.py] *)

(** The parsed results of the response. *)
Inductive parsed_results : Type :=
| QueryRecords (rows : list row_dict)
| IngestRecords (successful_records failed_records unprocessed_records
                   : list row_dict).

Record BulkJobStatusResponse : Type := {
  response_job_id : string;
  response_state : option string;
  response_results_data : option parsed_results;
  raw_results_csv : option results_data
}.

(** [parse_csv_string_to_records] inside the handler: a [csv.Error] is an
    exception like any other. *)
Definition parse (csv_string : string) : run (list row_dict) :=
  match parse_csv_string_to_records csv_string with
  | Ret rows => ret rows
  | Exc e => raise (OtherError e)
  end.

(** [results_data.get(key, "")] *)
Definition csv_of (texts : list (string * string)) (key : string) : string :=
  match dict_get String.eqb texts key with
  | Some text => text
  | None => EmptyString
  end.

(** Truthiness of [results_data]. *)
Definition results_truthy (r : results_data) : bool :=
  match r with
  | QueryCsv text => truthy text
  | IngestCsv texts => negb (Nat.eqb (length texts) 0)
  end.

(** [handle_get_bulk_job_status_and_results_endpoint(job_id, is_query_job)] *)
Definition handle_get_bulk_job_status_and_results_endpoint (j : string)
    (is_query_job : bool) : run BulkJobStatusResponse :=
  try_except
    (status_and_results <- get_bulk_job_status_and_results j is_query_job ;;
     let (info, results) := status_and_results in
     parsed <-
       match results with
       | Some r =>
           if results_truthy r then
             match r with
             | QueryCsv text =>
                 if is_query_job then
                   rows <- parse text ;; ret (Some (QueryRecords rows))
                 else ret None
             | IngestCsv texts =>
                 if is_query_job then ret None
                 else
                   successful <- parse (csv_of texts "successful_records_csv") ;;
                   failed <- parse (csv_of texts "failed_records_csv") ;;
                   unprocessed <- parse (csv_of texts "unprocessed_records_csv") ;;
                   ret (Some (IngestRecords successful failed unprocessed))
             end
           else ret None
       | None => ret None
       end ;;
     ret {| response_job_id := match status_id info with
                               | Some i => i
                               | None => j
                               end;
            response_state := status_state info;
            response_results_data := parsed;
            raw_results_csv := results |})
    (fun e => raise (HTTPException 500 (exn_str e))).

(** *** [src/salesforce/operations.py] *)

(** The two [except] clauses of the other [perform_bulk_operation]: the
    attempt to abort the job is itself guarded. *)
Definition try_abort (j : option string) : run unit :=
  try_except (abort_if_created j) (fun _ => ret tt).

Definition monolith_handler {A : Type} (j : option string) (e : exn) : run A :=
  match e with
  | HTTPException status_code detail =>
      try_abort j ;;
      raise (HTTPException status_code detail)
  | _ =>
      try_abort j ;;
      raise (HTTPException 500
               ("Failed to perform bulk operation: " ++ exn_str e)%string)
  end.

Definition is_dml (operation : string) : bool :=
  existsb (String.eqb operation)
    ["insert"; "update"; "upsert"; "delete"; "hardDelete"]%string.

(** [s.lstrip()], [s.rstrip()] and [s.strip()] *)
Fixpoint lstrip (s : string) : string :=
  match s with
  | EmptyString => EmptyString
  | String c rest => if isspace c then lstrip rest else s
  end.

Fixpoint rstrip (s : string) : string :=
  match s with
  | EmptyString => EmptyString
  | String c rest =>
      match rstrip rest with
      | EmptyString => if isspace c then EmptyString else String c EmptyString
      | kept => String c kept
      end
  end.

Definition strip (s : string) : string := rstrip (lstrip s).

(** [len(s.split('\n'))] *)
Fixpoint split_lf_length (s : string) : nat :=
  match s with
  | EmptyString => 1
  | String c rest =>
      if (c =? LF)%char then S (split_lf_length rest) else split_lf_length rest
  end.

(** [perform_bulk_operation(auth, payload)], returning the job id. *)
Definition monolith_perform_bulk_operation (p : payload) : run string :=
  info <- try_except
            (create_bulk_ingest_job (object_name p) (operation p)
               (if String.eqb (operation p) "upsert"
                then external_id_field p else None))
            (monolith_handler None) ;;
  try_except
    (match job_id info, contentUrl info with
     | Some j, Some content_url =>
         if truthy j && truthy content_url then
           (if is_dml (operation p) then
              match records p with
              | [] =>
                  update_bulk_job_state j "Aborted" ;;
                  raise (HTTPException 400
                           "No records provided for bulk DML operation.")
              | first :: _ =>
                  let field_order := dict_keys first in
                  let csv_data :=
                    convert_records_to_csv_string (records p)
                      (Some field_order) in
                  if strip_is_empty csv_data
                     || Nat.ltb (split_lf_length (strip csv_data)) 2
                  then
                    update_bulk_job_state j "Aborted" ;;
                    raise (HTTPException 400
                             "CSV data is empty or contains only headers.")
                  else
                    upload_success <- upload_bulk_job_data content_url csv_data ;;
                    if upload_success then ret tt
                    else
                      update_bulk_job_state j "Aborted" ;;
                      raise (HTTPException 500
                               "Failed to upload data to Salesforce bulk job.")
              end
            else ret tt) ;;
           update_bulk_job_state j "UploadComplete" ;;
           ret j
         else raise (HTTPException 500
                       "Failed to initialize bulk job with Salesforce.")
     | _, _ => raise (HTTPException 500
                        "Failed to initialize bulk job with Salesforce.")
     end)
    (monolith_handler (job_id info)).

End Client.

(** *** The property as the specification words it *)

(** The call has failed with a validation error (status 400) and has left
    no job open. *)
Definition rejected_and_none_open (result : outcome exn string * world)
    : Prop :=
  (exists detail, fst result = Exc (HTTPException 400 detail))
  /\ forall j, job_state (snd result) j <> Some "Open"%string.

(** A request that neither uploads data nor closes a job. *)
Definition harmless (r : request) : bool :=
  match r with
  | CreateIngestJob _ _ _ => true
  | UpdateJobState _ new_state => String.eqb new_state "Aborted"
  | _ => false
  end.

(** *** Orgs used in the examples *)

Definition no_answer {A : Type} : outcome exn A := Exc (OtherError "unused").

(** An org that creates the job [750xx01] and accepts every request. *)
Definition obliging : salesforce :=
  {| on_create_job := fun _ =>
       Ret {| job_id := Some "750xx01";
              contentUrl := Some "services/data/v58.0/jobs/ingest/750xx01/batches" |};
     on_update_state := fun _ => Ret tt;
     on_upload := fun _ => Ret true;
     on_job_info := fun _ => no_answer;
     on_query_results := fun _ _ => no_answer;
     on_successful_results := fun _ _ => no_answer;
     on_failed_results := fun _ _ => no_answer;
     on_unprocessed_records := fun _ _ => no_answer |}.

(** An org that creates the job and then is out of reach: every change of
    state fails with status 503. *)
Definition out_of_reach : salesforce :=
  {| on_create_job := on_create_job obliging;
     on_update_state := fun _ =>
       Exc (HTTPException 503 "Salesforce API communication error: ConnectTimeout");
     on_upload := fun _ => Ret true;
     on_job_info := fun _ => no_answer;
     on_query_results := fun _ _ => no_answer;
     on_successful_results := fun _ _ => no_answer;
     on_failed_results := fun _ _ => no_answer;
     on_unprocessed_records := fun _ _ => no_answer |}.

Definition empty_insert : payload :=
  {| object_name := "Account"; operation := "insert"; records := [];
     external_id_field := None |}.

(** An org holding a completed ingest job with one successful, one failed
    and one unprocessed record. *)
Definition completed_job : salesforce :=
  {| on_create_job := fun _ => no_answer;
     on_update_state := fun _ => no_answer;
     on_upload := fun _ => no_answer;
     on_job_info := fun _ =>
       Ret {| status_id := Some "750xx01";
              status_state := Some "JobComplete";
              status_operation := Some "insert";
              status_object := Some "Account";
              errorMessage := None;
              numberRecordsProcessed := Some 2;
              numberRecordsFailed := Some 1 |};
     on_query_results := fun _ _ => no_answer;
     on_successful_results := fun _ _ =>
       Ret ("sf__Id,sf__Created,Name" ++ NL ++ "001xx01,true,Acme" ++ NL)%string;
     on_failed_results := fun _ _ =>
       Ret ("sf__Id,sf__Error,Name" ++ NL ++ ",REQUIRED_FIELD_MISSING,Globex" ++ NL)%string;
     on_unprocessed_records := fun _ _ =>
       Ret ("Name" ++ NL ++ "Initech" ++ NL)%string |}.

End Bulk.

(** ** [salesforce_standard.py]: single-record operations with retry *)

Module Standard.
Import Py.
Local Open Scope py_scope.
Local Open Scope Z_scope.

Definition BATCH_SIZE : nat := 200.
Definition RETRY_ATTEMPTS : Z := 3.
Definition RETRY_DELAY : Z := 5.

(** The JSON body [simple_salesforce] returns from [create]. *)
Record create_response : Type := {
  success : bool;             (* response.get('success') *)
  resp_id : option string     (* response['id'], when the key exists *)
}.

(** What the process has done so far: the calls made on [sf.Account],
    the [time.sleep] durations, and how often the clock and the random
    generator were read. *)
Record world : Type := {
  creates : list record;
  updates : list (string * record);
  deletes : list string;
  sleeps : list Z;
  clock_reads : nat;
  rand_draws : nat
}.

Definition empty_world : world :=
  {| creates := []; updates := []; deletes := []; sleeps := [];
     clock_reads := 0; rand_draws := 0 |}.

(** The environment the code runs against: the answer of the remote org
    to the n-th call of each kind (an exception is represented by its
    [str(e)]), the n-th reading of [datetime.now().isoformat()] and the
    n-th draw of [random.randint(1000, 9999)]. *)
Record salesforce : Type := {
  on_create : nat -> record -> outcome string create_response;
  on_update : nat -> string -> record -> outcome string Z;
  on_delete : nat -> string -> outcome string Z;
  now_isoformat : nat -> string;
  randint : nat -> Z
}.

Definition run (A : Type) : Type := M world string A.

Section Calls.
Variable sf : salesforce.

(** [sf.Account.create(record)] *)
Definition Account_create (r : record) : run create_response :=
  fun w =>
    (on_create sf (length (creates w)) r,
     {| creates := creates w ++ [r]; updates := updates w;
        deletes := deletes w; sleeps := sleeps w;
        clock_reads := clock_reads w; rand_draws := rand_draws w |}).

(** [sf.Account.update(record_id, data)] *)
Definition Account_update (record_id : string) (data : record) : run Z :=
  fun w =>
    (on_update sf (length (updates w)) record_id data,
     {| creates := creates w; updates := updates w ++ [(record_id, data)];
        deletes := deletes w; sleeps := sleeps w;
        clock_reads := clock_reads w; rand_draws := rand_draws w |}).

(** [sf.Account.delete(record_id)] *)
Definition Account_delete (record_id : string) : run Z :=
  fun w =>
    (on_delete sf (length (deletes w)) record_id,
     {| creates := creates w; updates := updates w;
        deletes := deletes w ++ [record_id]; sleeps := sleeps w;
        clock_reads := clock_reads w; rand_draws := rand_draws w |}).

(** [time.sleep(seconds)] *)
Definition sleep (seconds : Z) : run unit :=
  modify (fun w =>
    {| creates := creates w; updates := updates w; deletes := deletes w;
       sleeps := sleeps w ++ [seconds];
       clock_reads := clock_reads w; rand_draws := rand_draws w |}).

(** [datetime.now().isoformat()] *)
Definition datetime_now : run string :=
  fun w =>
    (Ret (now_isoformat sf (clock_reads w)),
     {| creates := creates w; updates := updates w; deletes := deletes w;
        sleeps := sleeps w;
        clock_reads := S (clock_reads w); rand_draws := rand_draws w |}).

(** [random.randint(1000, 9999)] *)
Definition random_randint : run Z :=
  fun w =>
    (Ret (randint sf (rand_draws w)),
     {| creates := creates w; updates := updates w; deletes := deletes w;
        sleeps := sleeps w;
        clock_reads := clock_reads w; rand_draws := S (rand_draws w) |}).

(** [response['id']]: a [KeyError] when the key is missing. *)
Definition getitem_id (response : create_response) : run string :=
  match resp_id response with
  | Some i => ret i
  | None => raise "'id'"
  end.

Record FailedRecord : Type := {
  fr_record : record;
  fr_error : string;
  fr_timestamp : string
}.

(** [FailedRecord(record, error)] *)
Definition new_FailedRecord (r : record) (error : string) : run FailedRecord :=
  ts <- datetime_now ;;
  ret {| fr_record := r; fr_error := error; fr_timestamp := ts |}.

(** [check_storage_availability(sf)] *)
Definition check_storage_availability : run bool :=
  try_except
    (n <- random_randint ;;
     response <- Account_create
                   [("Name", VStr ("Test_Storage_Check_" ++ str_of_int n)%string)] ;;
     if success response then
       i <- getitem_id response ;;
       Account_delete i ;;
       ret true
     else ret false)
    (fun _ => ret false).

(** One iteration of a [for attempt in range(max_attempts)] loop either
    returns from the function or falls through to the next attempt. *)
Inductive step (A : Type) : Type :=
| Return (a : A)
| Continue.
Arguments Return {A} a.
Arguments Continue {A}.

(** What [except Exception as e] does in the three retry loops once the
    terminal errors have been dealt with: sleep and go on, or give up
    with [str(e)]. *)
Definition retry_or_give_up {A} (fail : string -> A)
    (max_attempts attempt : Z) (e : string) : run (step A) :=
  if attempt <? max_attempts - 1 then
    sleep (RETRY_DELAY * (attempt + 1)) ;;
    ret Continue
  else ret (Return (fail e)).

(** The body of the loop of [insert_with_retry]. *)
Definition insert_attempt (r : record) (max_attempts attempt : Z)
    : run (step (option create_response * option string)) :=
  try_except
    (response <- Account_create r ;;
     if success response then
       getitem_id response ;;      (* the log line reads response['id'] *)
       ret (Return (Some response, None))
     else ret (Return (None, Some "Insert failed")))
    (fun e =>
       if str_in "STORAGE_LIMIT_EXCEEDED" e then
         ret (Return (None, Some "Storage limit exceeded"))
       else retry_or_give_up (fun e => (None, Some e)) max_attempts attempt e).

Fixpoint insert_loop (r : record) (max_attempts : Z) (todo : nat)
    (attempt : Z) : run (option create_response * option string) :=
  match todo with
  | O => ret (None, Some "Max retry attempts reached")
  | S todo' =>
      s <- insert_attempt r max_attempts attempt ;;
      match s with
      | Return res => ret res
      | Continue => insert_loop r max_attempts todo' (attempt + 1)
      end
  end.

(** [insert_with_retry(sf, record, max_attempts)] *)
Definition insert_with_retry (r : record) (max_attempts : Z)
    : run (option create_response * option string) :=
  insert_loop r max_attempts (Z.to_nat max_attempts) 0.

(** The body of the loop of [update_record_by_id]. *)
Definition update_attempt (record_id : string) (update_data : record)
    (max_attempts attempt : Z) : run (step (bool * option string)) :=
  try_except
    (response <- Account_update record_id update_data ;;
     if response =? 204 then ret (Return (true, None))
     else ret (Return (false,
            Some ("Update failed with status code: " ++ str_of_int response)%string)))
    (fun e =>
       if str_in "ENTITY_IS_DELETED" e then
         ret (Return (false, Some "Entity is deleted"))
       else retry_or_give_up (fun e => (false, Some e)) max_attempts attempt e).

Fixpoint update_loop (record_id : string) (update_data : record)
    (max_attempts : Z) (todo : nat) (attempt : Z)
    : run (bool * option string) :=
  match todo with
  | O => ret (false, Some "Max retry attempts reached")
  | S todo' =>
      s <- update_attempt record_id update_data max_attempts attempt ;;
      match s with
      | Return res => ret res
      | Continue =>
          update_loop record_id update_data max_attempts todo' (attempt + 1)
      end
  end.

(** [update_record_by_id(sf, record_id, update_data, max_attempts)] *)
Definition update_record_by_id (record_id : string) (update_data : record)
    (max_attempts : Z) : run (bool * option string) :=
  update_loop record_id update_data max_attempts (Z.to_nat max_attempts) 0.

(** The body of the loop of [delete_record_by_id]; its handler has no
    test for a deleted entity. *)
Definition delete_attempt (record_id : string) (max_attempts attempt : Z)
    : run (step (bool * option string)) :=
  try_except
    (response <- Account_delete record_id ;;
     if response =? 204 then ret (Return (true, None))
     else ret (Return (false,
            Some ("Delete failed with status code: " ++ str_of_int response)%string)))
    (fun e => retry_or_give_up (fun e => (false, Some e)) max_attempts attempt e).

Fixpoint delete_loop (record_id : string) (max_attempts : Z) (todo : nat)
    (attempt : Z) : run (bool * option string) :=
  match todo with
  | O => ret (false, Some "Max retry attempts reached")
  | S todo' =>
      s <- delete_attempt record_id max_attempts attempt ;;
      match s with
      | Return res => ret res
      | Continue => delete_loop record_id max_attempts todo' (attempt + 1)
      end
  end.

(** [delete_record_by_id(sf, record_id, max_attempts)] *)
Definition delete_record_by_id (record_id : string) (max_attempts : Z)
    : run (bool * option string) :=
  delete_loop record_id max_attempts (Z.to_nat max_attempts) 0.

(** [[FailedRecord(r, error) for r in rs]] *)
Fixpoint failed_for (rs : list record) (error : string)
    : run (list FailedRecord) :=
  match rs with
  | [] => ret []
  | r :: rs' =>
      f <- new_FailedRecord r error ;;
      fs <- failed_for rs' error ;;
      ret (f :: fs)
  end.

(** The [else] branch of [batch_insert_data]: the entry appended to
    [successful_records]. Subscripting a [None] response is a
    [TypeError]. *)
Definition success_entry (response : option create_response) (r : record)
    : run record :=
  match response with
  | None => raise "'NoneType' object is not subscriptable"
  | Some resp =>
      i <- getitem_id resp ;;
      ts <- datetime_now ;;
      ret (dict_update String.eqb
             [("id", VStr i);
              ("name", match get r "Name" with Some v => v | None => VNone end);
              ("timestamp", VStr ts)]
             r)
  end.

(** A pass over one chunk either returns from [batch_insert_data] or
    falls through to the pause between chunks. *)
Inductive flow : Type :=
| Returned (successful : list record) (failed : list FailedRecord)
| Fallthrough (successful : list record) (failed : list FailedRecord).

(** [for record in batch: ...], where the chunk starts at index [i]. *)
Fixpoint insert_batch (records : list record) (i : nat)
    (batch : list record) (successful : list record)
    (failed : list FailedRecord) : run flow :=
  match batch with
  | [] => ret (Fallthrough successful failed)
  | r :: batch' =>
      res <- insert_with_retry r RETRY_ATTEMPTS ;;
      let (response, error) := res in
      if truthy_opt error then
        let e := match error with Some e => e | None => "" end in
        f <- new_FailedRecord r e ;;
        let failed := failed ++ [f] in
        if str_in "Storage limit exceeded" e then
          (* remaining_records = records[i:] *)
          fs <- failed_for (skipn i records) "Storage limit exceeded" ;;
          ret (Returned successful (failed ++ fs))
        else insert_batch records i batch' successful failed
      else
        d <- success_entry response r ;;
        insert_batch records i batch' (successful ++ [d]) failed
  end.

(** [len(range(0, n, step))] *)
Definition range_len (n step : nat) : nat := Nat.div (n + step - 1) step.

(** [for i in range(0, len(records), BATCH_SIZE): ...] *)
Fixpoint insert_chunks (records : list record) (chunks : nat) (i : nat)
    (successful : list record) (failed : list FailedRecord)
    : run (list record * list FailedRecord) :=
  match chunks with
  | O => ret (successful, failed)
  | S chunks' =>
      fl <- insert_batch records i (firstn BATCH_SIZE (skipn i records))
              successful failed ;;
      match fl with
      | Returned s f => ret (s, f)
      | Fallthrough s f =>
          sleep 2 ;;
          insert_chunks records chunks' (i + BATCH_SIZE)%nat s f
      end
  end.

(** [batch_insert_data(sf, records)] *)
Definition batch_insert_data (records : list record)
    : run (list record * list FailedRecord) :=
  ok <- check_storage_availability ;;
  if negb ok then
    fs <- failed_for records "Storage limit exceeded" ;;
    ret ([], fs)
  else
    insert_chunks records (range_len (length records) BATCH_SIZE) 0%nat [] [].

End Calls.

Arguments Return {A} a.
Arguments Continue {A}.

(** The pauses slept after [k] failed attempts, the first of them being
    attempt number [from + 1]: [RETRY_DELAY * (from + 1)], ...,
    [RETRY_DELAY * (from + k)]. *)
Definition linear_delays (from : Z) (k : nat) : list Z :=
  map (fun j => RETRY_DELAY * (from + Z.of_nat j)) (seq 1 k).

(** The world after [calls] further [create] calls for [r] and the pauses
    [slept]. *)
Definition after_creates (w : world) (r : record) (calls : nat)
    (slept : list Z) : world :=
  {| creates := creates w ++ repeat r calls; updates := updates w;
     deletes := deletes w; sleeps := sleeps w ++ slept;
     clock_reads := clock_reads w; rand_draws := rand_draws w |}.

(** The world after [calls] further [update] calls and the pauses [slept]. *)
Definition after_updates (w : world) (record_id : string) (data : record)
    (calls : nat) (slept : list Z) : world :=
  {| creates := creates w;
     updates := updates w ++ repeat (record_id, data) calls;
     deletes := deletes w; sleeps := sleeps w ++ slept;
     clock_reads := clock_reads w; rand_draws := rand_draws w |}.

(** The world after [calls] further [delete] calls and the pauses [slept]. *)
Definition after_deletes (w : world) (record_id : string) (calls : nat)
    (slept : list Z) : world :=
  {| creates := creates w; updates := updates w;
     deletes := deletes w ++ repeat record_id calls;
     sleeps := sleeps w ++ slept;
     clock_reads := clock_reads w; rand_draws := rand_draws w |}.

(** An exception that is not a storage-limit error. *)
Definition other_error (o : outcome string create_response) : Prop :=
  exists e, o = Exc e /\ str_in "STORAGE_LIMIT_EXCEEDED" e = false.

(** A scripted stand-in for the remote org: the n-th call of each kind
    gets the n-th entry of its script (a connection error once the script
    is used up); the clock and the random generator are constant. *)
Definition scripted (create_script : list (outcome string create_response))
    (update_script delete_script : list (outcome string Z)) : salesforce :=
  {| on_create := fun n _ => nth n create_script (Exc "ConnectionError");
     on_update := fun n _ _ => nth n update_script (Exc "ConnectionError");
     on_delete := fun n _ => nth n delete_script (Exc "ConnectionError");
     now_isoformat := fun _ => "2024-01-01T00:00:00";
     randint := fun _ => 1000 |}.

Definition created (i : string) : outcome string create_response :=
  Ret {| success := true; resp_id := Some i |}.

Definition acme : record := [("Name", VStr "Acme")].
Definition globex : record := [("Name", VStr "Globex")].

(** An org in which the record addressed has already been deleted. *)
Definition entity_deleted_org : salesforce :=
  {| on_create := fun _ _ => Exc "ConnectionError";
     on_update := fun _ _ _ => Exc "ENTITY_IS_DELETED: entity is deleted";
     on_delete := fun _ _ => Exc "ENTITY_IS_DELETED: entity is deleted";
     now_isoformat := fun _ => "2024-01-01T00:00:00";
     randint := fun _ => 1000 |}.

(** An org with room for the storage probe and for one more account: the
    third create call hits the storage limit. *)
Definition nearly_full_org : salesforce :=
  scripted [created "001PROBE"; created "001ACME";
            Exc "STORAGE_LIMIT_EXCEEDED: storage limit exceeded"]
           [] [Ret 204].

End Standard.

(** ** [salesforce_standard.py]: what the retry loops and the batch insert
    guarantee *)

Module StandardApp.
Import Py Standard.
Local Open Scope py_scope.
Local Open Scope Z_scope.

(** The answers to [sf.Account.create] after which [insert_with_retry] goes
    on to another attempt while attempts remain: an exception that is not a
    storage-limit error, or a success without an id (the log line reads
    [response['id']], a [KeyError]). *)
Definition create_retried (o : outcome string create_response) : Prop :=
  match o with
  | Exc e => str_in "STORAGE_LIMIT_EXCEEDED" e = false
  | Ret resp => success resp = true /\ resp_id resp = None
  end.

(** The answers to [sf.Account.update] after which [update_record_by_id]
    goes on: an exception that is not an "entity is deleted" error. *)
Definition update_retried (o : outcome string Z) : Prop :=
  match o with
  | Exc e => str_in "ENTITY_IS_DELETED" e = false
  | Ret _ => False
  end.

(** The answers to [sf.Account.delete] after which [delete_record_by_id]
    goes on: any exception. *)
Definition delete_retried (o : outcome string Z) : Prop :=
  match o with
  | Exc _ => True
  | Ret _ => False
  end.

(** The record [check_storage_availability] creates and deletes again. *)
Definition probe_record (n : Z) : record :=
  [("Name", VStr ("Test_Storage_Check_" ++ str_of_int n)%string)].

(** The failure has to do with the storage limit, as [batch_insert_data]
    tests it. *)
Definition storage_failure (f : FailedRecord) : Prop :=
  str_in "Storage limit exceeded" (fr_error f) = true.

(** The entry [batch_insert_data] appends to [successful_records] for the
    record [r]: its id, name and timestamp, updated with the fields of the
    record. *)
Definition success_of (r d : record) : Prop :=
  exists i ts,
    d = dict_update String.eqb
          [("id", VStr i);
           ("name", match get r "Name" with Some v => v | None => VNone end);
           ("timestamp", VStr ts)]
          r.

(** [m] is made of the elements of [l] and of [r], each list in its own
    order. *)
Inductive interleaved {A : Type} : list A -> list A -> list A -> Prop :=
| interleaved_nil : interleaved [] [] []
| interleaved_left (x : A) (l r m : list A) :
    interleaved l r m -> interleaved (x :: l) r (x :: m)
| interleaved_right (x : A) (l r m : list A) :
    interleaved l r m -> interleaved l (x :: r) (x :: m).

(** *** The endpoints [update_record_api] and [delete_record_api] *)

(** The exceptions inside the endpoints: FastAPI's [HTTPException], or
    another exception, with its [str(e)]. *)
Inductive api_exn : Type :=
| HTTPException (status_code : Z) (detail : string)
| PythonError (text : string).

(** [str(e)]; Starlette prints an [HTTPException] as its status code and
    its detail. *)
Definition api_str (e : api_exn) : string :=
  match e with
  | HTTPException status_code detail =>
      (str_of_int status_code ++ ": " ++ detail)%string
  | PythonError text => text
  end.

Definition run_api (A : Type) : Type := M world api_exn A.

(** A function of the module called from an endpoint. *)
Definition call {A : Type} (m : run A) : run_api A :=
  fun w => match m w with
           | (Ret a, w') => (Ret a, w')
           | (Exc e, w') => (Exc (PythonError e), w')
           end.

(** [message or default] *)
Definition or_default (message : option string) (default : string) : string :=
  match message with
  | Some m => if truthy m then m else default
  | None => default
  end.

Section RecordEndpoints.
Variable sf : salesforce.

(** [update_record_api(record_id, update_data)] from its [try] statement
    on, [sf] being the instance [authenticate_salesforce()] has returned;
    the result is the message of the answer. *)
Definition update_record_api (record_id : string) (update_data : record)
    : run_api string :=
  try_except
    (res <- call (update_record_by_id sf record_id update_data
                    RETRY_ATTEMPTS) ;;
     let (success, message) := res in
     if (success : bool) then
       ret ("Record with ID " ++ record_id ++ " updated successfully.")%string
     else
       raise (HTTPException 400
                (or_default message "Failed to update record.")))
    (fun e => raise (HTTPException 500 (api_str e))).

(** [delete_record_api(record_id)], likewise. *)
Definition delete_record_api (record_id : string) : run_api string :=
  try_except
    (res <- call (delete_record_by_id sf record_id RETRY_ATTEMPTS) ;;
     let (success, message) := res in
     if (success : bool) then
       ret ("Record with ID " ++ record_id ++ " deleted successfully.")%string
     else
       raise (HTTPException 400
                (or_default message "Failed to delete record.")))
    (fun e => raise (HTTPException 500 (api_str e))).

End RecordEndpoints.

End StandardApp.

(** ** [salesforce_standard.py]: the recent records *)

Module Recent.
Import Py.
Local Open Scope Z_scope.

Definition MAX_RECENT_RECORDS : Z := 10.

(** Dictionaries are objects: a list of dictionaries holds their
    addresses, the heap their contents. [add_records] writes into the
    dictionaries it is given, so that a dictionary held twice changes in
    both places. *)
Definition address : Type := nat.
Definition heap : Type := address -> record.

(** [d[k] = v] for the dictionary at the address [a]. *)
Definition setitem (h : heap) (a : address) (k : string) (v : value) : heap :=
  fun b => if Nat.eqb b a then dict_set String.eqb (h a) k v else h b.

(** [RecentDataManager]: its attributes. *)
Record RecentDataManager : Type := {
  max_records : Z;
  recent_records : list address
}.

(** [RecentDataManager(max_records)] *)
Definition new (max_records : Z) : RecentDataManager :=
  {| max_records := max_records; recent_records := [] |}.

(** [l[:n]]: the first [n] elements, or all but the last [-n] when [n] is
    negative. *)
Definition slice_to {A : Type} (n : Z) (l : list A) : list A :=
  if 0 <=? n then firstn (Z.to_nat n) l
  else firstn (length l - Z.to_nat (- n)) l.

(** [for record in records: record['operation_type'] = operation_type] *)
Definition tag (records : list address) (operation_type : string) (h : heap)
    : heap :=
  fold_left (fun h a => setitem h a "operation_type" (VStr operation_type))
    records h.

(** [add_records(records, operation_type)] *)
Definition add_records (self : RecentDataManager) (records : list address)
    (operation_type : string) (h : heap) : RecentDataManager * heap :=
  ({| max_records := max_records self;
      recent_records :=
        slice_to (max_records self) (records ++ recent_records self) |},
   tag records operation_type h).

(** [get_records()] *)
Definition get_records (self : RecentDataManager) : list address :=
  recent_records self.

(** The manager and the heap after the calls
    [add_records(records, operation_type)] for the pairs of the list, in
    order. *)
Definition after_calls (self : RecentDataManager) (h : heap)
    (calls : list (list address * string)) : RecentDataManager * heap :=
  fold_left (fun st call => add_records (fst st) (fst call) (snd call) (snd st))
    calls (self, h).

(** [a in records], by identity. *)
Definition held (a : address) (records : list address) : bool :=
  existsb (Nat.eqb a) records.

(** The operation type of the last of the calls that was given the
    dictionary at [a], after [acc]. *)
Definition last_tag_from (acc : option string)
    (calls : list (list address * string)) (a : address) : option string :=
  fold_left (fun acc call => if held a (fst call) then Some (snd call) else acc)
    calls acc.

Definition last_tag (calls : list (list address * string)) (a : address)
    : option string :=
  last_tag_from None calls a.

(** Two dictionaries, the first of which is added by two calls. *)
Definition two_accounts : heap :=
  fun a => match a with
           | O => [("Name", VStr "Acme")]
           | _ => [("Name", VStr "Globex")]
           end.

End Recent.

(** ** [salesforce/auth.py]: when the cache is used and when it is
    refreshed *)

Module AuthPolicy.
Import Py Auth.
Local Open Scope Z_scope.

(** The cache holds a token and an instance URL, both not empty, and the
    clock, at its next reading, is before the refresh threshold of the
    token. *)
Definition fresh (env : environment) (w : world)
    (access_token instance_url : string) : Prop :=
  _access_token (cache w) = Some access_token
  /\ _instance_url (cache w) = Some instance_url
  /\ truthy access_token = true /\ truthy instance_url = true
  /\ exists expiry,
       _token_expiry (cache w) = Some expiry
       /\ utcnow env (clock_reads w)
          < expiry - 1000 * SALESFORCE_TOKEN_REFRESH_BUFFER env.

(** The tests of [get_auth_details] that lead to [authenticate]: no expiry
    or no token is cached, the refresh threshold is reached, or no instance
    URL is cached. *)
Definition due (env : environment) (w : world) : Prop :=
  match _token_expiry (cache w) with
  | None => True
  | Some expiry =>
      truthy_opt (_access_token (cache w)) = false
      \/ expiry - 1000 * SALESFORCE_TOKEN_REFRESH_BUFFER env
         <= utcnow env (clock_reads w)
      \/ truthy_opt (_instance_url (cache w)) = false
  end.

(** The answer is a failure of the token request itself: no answer, or an
    error status. *)
Definition request_failed (answer : token_answer) : Prop :=
  match answer with
  | RequestError _ | StatusError _ _ _ => True
  | TokenJson _ _ _ => False
  end.

(** The status code [authenticate] raises for a failed token request. *)
Definition failure_status (answer : token_answer) : Z :=
  match answer with
  | RequestError _ => 503
  | StatusError status_code _ _ => status_code
  | TokenJson _ _ _ => 500
  end.

(** An environment in which the endpoint issues a token at time
    [1700000000000] and the clock stands two hours later. *)
Definition two_hours_later : environment :=
  {| token_endpoint := fun n =>
       TokenJson (Some "00Dxx!AQ5") (Some "https://na1.salesforce.com")
         (Some 1700007200000);
     utcnow := fun _ => 1700007200000;
     SALESFORCE_TOKEN_REFRESH_BUFFER := 300 |}.

End AuthPolicy.

(** ** Concurrent callers: what holds for every token endpoint *)

Module EventLoop.
Import Py Auth.

(** Executions of the event loop, with the number of their steps. *)
Inductive steps_in (env : environment) : nat -> system -> system -> Prop :=
| steps_in_refl (s : system) : steps_in env 0 s s
| steps_in_step (k : nat) (s1 s2 s3 : system) :
    steps_in env k s1 s2 -> step env s2 s3 -> steps_in env (S k) s1 s3.

(** The caller waits for the answer to its token request. *)
Definition in_flight (c : caller) : nat :=
  match c with
  | Suspended _ => 1
  | _ => 0
  end.

(** The caller has got the lock at some time. *)
Definition entered (c : caller) : nat :=
  match c with
  | Ready => 0
  | _ => 1
  end.

End EventLoop.

(** ** [src/salesforce/client.py]: [SalesforceApiClient._request] and the
    operations built on it

    The authentication behind the client ([self.auth]) is the
    [SalesforceAuth] of [shared/src/salesforce/auth.py]. *)

Module ApiClient.
Import Py.
Local Open Scope py_scope.
Local Open Scope Z_scope.

(** The exceptions that leave [_request]: FastAPI's [HTTPException], and
    the [TypeError] and [NameError] of the interpreter. *)
Inductive exn : Type :=
| HTTPException (status_code : Z) (detail : string)
| TypeError (msg : string)
| NameError (msg : string).

Definition of_auth (e : Auth.exn) : exn :=
  match e with
  | Auth.HTTPException status_code detail => HTTPException status_code detail
  | Auth.TypeError msg => TypeError msg
  end.

(** [str(e)]; Starlette prints an [HTTPException] as its status code and
    its detail. *)
Definition exn_str (e : exn) : string :=
  match e with
  | HTTPException status_code detail =>
      (str_of_int status_code ++ ": " ++ detail)%string
  | TypeError msg => msg
  | NameError msg => msg
  end.

(** A request as [httpx] sends it: the method, the URL, the access token
    of the [Authorization] header, the query parameters and the JSON
    body. *)
Record http_request : Type := {
  method : string;
  url : string;
  bearer : string;
  params : option (list (string * string));
  json : option record
}.

(** A response: its status code, its text and, when the text is JSON of
    the form of a Salesforce error (a list that is not empty, or an object
    with a ["message"] or an ["error_description"]), this JSON written by
    [json.dumps]. *)
Record response : Type := {
  status_code : Z;
  text : string;
  error_json : option string
}.

(** What the transport gives for a request: a response, or an
    [httpx.RequestError] of the given class. *)
Inductive answer : Type :=
| Response (r : response)
| RequestError (class_name : string).

(** The environment: the token endpoint and the clock of the
    authentication, the answer of the transport to the n-th request, and
    [settings.SALESFORCE_API_VERSION]. *)
Record environment : Type := {
  auth_env : Auth.environment;
  transport : nat -> http_request -> answer;
  SALESFORCE_API_VERSION : string
}.

(** The process: the state of the authentication and the requests sent. *)
Record world : Type := {
  auth : Auth.world;
  sent : list http_request
}.

Definition run (A : Type) : Type := M world exn A.

(** A method of [self.auth], run on the authentication state. *)
Definition lift {A : Type} (m : Auth.run A) : run A :=
  fun w =>
    match m (auth w) with
    | (Ret a, aw) => (Ret a, {| auth := aw; sent := sent w |})
    | (Exc e, aw) => (Exc (of_auth e), {| auth := aw; sent := sent w |})
    end.

(** [s.rstrip('/')] *)
Fixpoint rstrip_slash (s : string) : string :=
  match s with
  | EmptyString => EmptyString
  | String c rest =>
      match rstrip_slash rest with
      | EmptyString => if (c =? "/")%char then EmptyString
                       else String c EmptyString
      | kept => String c kept
      end
  end.

(** [response.raise_for_status()] raises unless the status is a success
    (2xx). *)
Definition is_success (status : Z) : bool :=
  (200 <=? status) && (status <=? 299).

(** The detail the handler of [httpx.HTTPStatusError] reports. *)
Definition error_detail (r : response) : string :=
  match error_json r with
  | Some dumped => dumped
  | None => text r
  end.

Definition MAX_RETRIES : Z := 1.

(** An iteration of [for attempt in range(MAX_RETRIES + 1)] returns from
    the function or goes on with the next attempt. *)
Inductive step : Type :=
| Return (r : response)
| Continue.

Section Request.
Variable env : environment.

Definition get_auth_details : run (string * string) :=
  lift (Auth.get_auth_details (auth_env env)).

Definition handle_401_unauthorized : run unit :=
  lift (Auth.handle_401_unauthorized (auth_env env)).

(** The URL of [endpoint] on the instance [instance_url]. *)
Definition url_on (instance_url endpoint : string) : string :=
  (rstrip_slash instance_url ++ "/services/data/"
   ++ SALESFORCE_API_VERSION env ++ endpoint)%string.

(** [_get_base_url] followed by [f"{base_url}{endpoint}"] *)
Definition _get_base_url : run string :=
  p <- get_auth_details ;;
  ret (url_on (snd p) "").

(** [_get_headers]: the access token of the [Authorization] header; the
    other headers are constants. *)
Definition _get_headers : run string :=
  p <- get_auth_details ;;
  ret (fst p).

(** [client.request(method, url, headers=headers, params=params,
    json=json_data)] *)
Definition client_request (q : http_request) : run answer :=
  fun w => (Ret (transport env (length (sent w)) q),
            {| auth := auth w; sent := sent w ++ [q] |}).

(** The body of the loop of [_request]. The pause before a second attempt
    after a network error is [asyncio.sleep], and [asyncio] is not among
    the imports of [client.py]: the call raises [NameError]. *)
Definition request_attempt (method url : string)
    (params : option (list (string * string))) (json : option record)
    (attempt : Z) : run step :=
  token <- _get_headers ;;
  a <- client_request {| method := method; url := url; bearer := token;
                         params := params; json := json |} ;;
  match a with
  | Response r =>
      if (status_code r =? 401) && (attempt <? MAX_RETRIES) then
        handle_401_unauthorized ;;
        ret Continue
      else if is_success (status_code r) then ret (Return r)
      else raise (HTTPException (status_code r)
                    ("Salesforce API Error: " ++ error_detail r)%string)
  | RequestError class_name =>
      if attempt <? MAX_RETRIES then
        raise (NameError "name 'asyncio' is not defined")
      else raise (HTTPException 503
                    ("Salesforce API communication error: "
                     ++ class_name)%string)
  end.

Fixpoint request_loop (method url : string)
    (params : option (list (string * string))) (json : option record)
    (todo : nat) (attempt : Z) : run response :=
  match todo with
  | O => raise (HTTPException 500
                  "Failed to execute Salesforce request after retries.")
  | S todo' =>
      s <- request_attempt method url params json attempt ;;
      match s with
      | Return r => ret r
      | Continue => request_loop method url params json todo' (attempt + 1)
      end
  end.

(** [endpoint.startswith("/jobs/ingest") or
    endpoint.startswith("/jobs/query")] *)
Definition is_jobs_endpoint (endpoint : string) : bool :=
  String.prefix "/jobs/ingest" endpoint || String.prefix "/jobs/query" endpoint.

(** [_request(method, endpoint, params, json_data, is_bulk_api)] *)
Definition _request (method endpoint : string)
    (params : option (list (string * string))) (json : option record)
    (is_bulk_api : bool) : run response :=
  base_url <- _get_base_url ;;
  url <- (if is_bulk_api then
            p <- get_auth_details ;;
            if is_jobs_endpoint endpoint then ret (url_on (snd p) endpoint)
            else ret (base_url ++ endpoint)%string
          else ret (base_url ++ endpoint)%string) ;;
  request_loop method url params json (Z.to_nat (MAX_RETRIES + 1)) 0.

(** [update_sobject_record(object_name, record_id, data)] *)
Definition update_sobject_record (object_name record_id : string)
    (data : record) : run bool :=
  response <- _request "PATCH"
                ("/sobjects/" ++ object_name ++ "/" ++ record_id)%string
                None (Some data) false ;;
  ret (status_code response =? 204).

(** [delete_sobject_record(object_name, record_id)] *)
Definition delete_sobject_record (object_name record_id : string)
    : run bool :=
  response <- _request "DELETE"
                ("/sobjects/" ++ object_name ++ "/" ++ record_id)%string
                None None false ;;
  ret (status_code response =? 204).

(** *** [src/salesforce/operations.py]: [update_record] and
    [delete_record] *)

(** The two [except] clauses of the operations: an [HTTPException] is
    raised again, any other exception is reported with status 500 and the
    text [failed] followed by [str(e)]. *)
Definition operation_handler {A : Type} (failed : string) (e : exn) : run A :=
  match e with
  | HTTPException status_code detail =>
      raise (HTTPException status_code detail)
  | _ => raise (HTTPException 500 (failed ++ exn_str e)%string)
  end.

(** [update_record(auth, object_name, record_id, data)] *)
Definition update_record (object_name record_id : string) (data : record)
    : run unit :=
  try_except
    (success <- update_sobject_record object_name record_id data ;;
     if (success : bool) then ret tt
     else raise (HTTPException 500
                   "Update operation failed to confirm success."))
    (operation_handler
       ("Failed to update record " ++ object_name ++ "/" ++ record_id
        ++ ": ")%string).

(** [delete_record(auth, object_name, record_id)] *)
Definition delete_record (object_name record_id : string) : run unit :=
  try_except
    (success <- delete_sobject_record object_name record_id ;;
     if (success : bool) then ret tt
     else raise (HTTPException 500
                   "Delete operation failed to confirm success."))
    (operation_handler
       ("Failed to delete record " ++ object_name ++ "/" ++ record_id
        ++ ": ")%string).

End Request.

(** The clock stays before the refresh threshold of a token that expires
    at [expiry]. *)
Definition stays_before (env : environment) (expiry : Z) : Prop :=
  forall n,
    Auth.utcnow (auth_env env) n
    < expiry - 1000 * Auth.SALESFORCE_TOKEN_REFRESH_BUFFER (auth_env env).

(** An environment for the examples: the token endpoint issues the token
    [00Dxx!AQ5]; the transport answers 401 to a request with another token
    and 200 to a request with this one. *)
Definition expired_session : environment :=
  {| auth_env :=
       {| Auth.token_endpoint := fun _ =>
            Auth.TokenJson (Some "00Dxx!AQ5"%string)
              (Some "https://na1.salesforce.com/"%string)
              (Some 1700000000500);
          Auth.utcnow := fun _ => 1700000001000;
          Auth.SALESFORCE_TOKEN_REFRESH_BUFFER := 300 |};
     transport := fun _ q =>
       if String.eqb (bearer q) "00Dxx!AQ5"
       then Response {| status_code := 200; text := "{}"; error_json := None |}
       else Response {| status_code := 401;
                        text := "Session expired or invalid";
                        error_json := None |};
     SALESFORCE_API_VERSION := "v58.0" |}.

(** A process that has authenticated in the environment [Auth.issuing]
    and has sent nothing yet. *)
Definition authenticated : world :=
  {| auth := Auth.authenticated_world; sent := [] |}.

End ApiClient.

(** ** Texts the CSV parser accepts *)

Module CsvInput.
Import Py Csv DataHandler.

(** Every carriage return of the text is followed by a line feed or ends
    the text. *)
Fixpoint cr_before_lf_only (s : string) : bool :=
  match s with
  | EmptyString => true
  | String c rest =>
      (if (c =? CR)%char
       then match rest with
            | EmptyString => true
            | String d _ => (d =? LF)%char
            end
       else true)
      && cr_before_lf_only rest
  end.

(** A text of three lines with Windows line ends and a quoted field. *)
Definition windows_text : string :=
  "Id,Name" ++ String CR (String LF
  ("1," ++ String DQUOTE ("Acme, Inc." ++ String DQUOTE (String CR (String LF
  "2,Globex"))))).

End CsvInput.

(** ** Bulk jobs: what a returned job id and a raised error mean *)

Module BulkOutcome.
Import Py Csv DataHandler Bulk.
Local Open Scope Z_scope.

(** The requests of a submission that went through: creation, upload of
    the CSV text when there is one, and closing of the job. *)
Definition submission (create : request) (upload : option request)
    (j : string) : list request :=
  create
  :: match upload with Some r => [r] | None => [] end
     ++ [UpdateJobState j "UploadComplete"].

(** A request to abort a job. *)
Definition is_abort (r : request) : bool :=
  match r with
  | UpdateJobState _ new_state => String.eqb new_state "Aborted"
  | _ => false
  end.

(** A request that reads and changes nothing. *)
Definition is_read (r : request) : bool :=
  match r with
  | GetJobInfo _ _ | GetQueryResults _ | GetSuccessfulResults _
  | GetFailedResults _ | GetUnprocessedRecords _ => true
  | _ => false
  end.

(** An org holding the query job [750xx02]: in progress, or completed with
    two rows. *)
Definition query_job (state : string) : salesforce :=
  {| on_create_job := fun _ => no_answer;
     on_update_state := fun _ => no_answer;
     on_upload := fun _ => no_answer;
     on_job_info := fun _ =>
       Ret {| status_id := Some "750xx02";
              status_state := Some state;
              status_operation := Some "query";
              status_object := Some "Account";
              errorMessage := None;
              numberRecordsProcessed := Some 2;
              numberRecordsFailed := Some 0 |};
     on_query_results := fun _ _ =>
       Ret ("Id,Name" ++ NL ++ "001xx01,Acme" ++ NL ++ "001xx02,Globex" ++ NL)%string;
     on_successful_results := fun _ _ => no_answer;
     on_failed_results := fun _ _ => no_answer;
     on_unprocessed_records := fun _ _ => no_answer |}.

(** A payload used in the examples. *)
Definition insert_sample : payload :=
  {| object_name := "Account"; operation := "insert";
     records := sample_batch; external_id_field := None |}.

(** An org that creates the job [750xx01] and then refuses the upload with
    status 400. *)
Definition refusing_upload : salesforce :=
  {| on_create_job := on_create_job obliging;
     on_update_state := fun _ => Ret tt;
     on_upload := fun _ =>
       Exc (HTTPException 400 "Salesforce Bulk API Upload Error: InvalidBatch");
     on_job_info := fun _ => no_answer;
     on_query_results := fun _ _ => no_answer;
     on_successful_results := fun _ _ => no_answer;
     on_failed_results := fun _ _ => no_answer;
     on_unprocessed_records := fun _ _ => no_answer |}.

End BulkOutcome.

(** ** [perform_bulk_query] of both [operations.py] *)

Module BulkQuery.
Import Py Bulk.
Local Open Scope py_scope.
Local Open Scope Z_scope.

(** The two requests the function can send: the creation of a query job,
    and the change of its state to [Aborted]. *)
Inductive request : Type :=
| PostQueryJob (operation soql_query : string)
| AbortQueryJob (job_id : string).

(** The transport and the org behind it: for the n-th request, the
    [job_info.get("id")] of the answer to a creation (or the exception
    raised before it is read), and the outcome of a change of state. *)
Record salesforce : Type := {
  on_post : nat -> outcome exn (option string);
  on_patch : nat -> outcome exn unit
}.

(** The requests sent so far. *)
Definition run (A : Type) : Type := M (list request) exn A.

Section QueryClient.
Variable sf : salesforce.

(** [client._request("POST", "/jobs/query", json_data=job_config,
    is_bulk_api=True)], [response.json()] and [job_info.get("id")] *)
Definition post_query_job (operation soql_query : string)
    : run (option string) :=
  fun w => (on_post sf (length w), w ++ [PostQueryJob operation soql_query]).

(** [client._request("PATCH", f"/jobs/query/{job_id}",
    json_data={"state": "Aborted"}, is_bulk_api=True)] *)
Definition abort_query_job (j : string) : run unit :=
  fun w => (on_patch sf (length w), w ++ [AbortQueryJob j]).

(** [if job_id: await client._request("PATCH", ...)] *)
Definition abort_if_created (j : option string) : run unit :=
  match j with
  | Some j => if truthy j then abort_query_job j else ret tt
  | None => ret tt
  end.

(** [if not job_id: raise HTTPException(...)], then [return job_id, []] *)
Definition check_job_id (j : option string) (detail : string) : run string :=
  match j with
  | Some j => if truthy j then ret j else raise (HTTPException 500 detail)
  | None => raise (HTTPException 500 detail)
  end.

(** *** [shared/src/salesforce/operations.py] *)

(** The two [except] clauses, [job_id] being the value of the local
    variable when the exception is raised. *)
Definition shared_handler {A : Type} (j : option string) (e : exn) : run A :=
  match e with
  | HTTPStatusError status_code text _ =>
      abort_if_created j ;;
      raise (HTTPException status_code text)
  | _ =>
      abort_if_created j ;;
      raise (HTTPException 500 (exn_str e))
  end.

(** [perform_bulk_query(client, soql_query, operation)], returning the job
    id. *)
Definition shared_perform_bulk_query (soql_query operation : string)
    : run string :=
  j <- try_except (post_query_job operation soql_query)
         (shared_handler None) ;;
  try_except (check_job_id j "Failed to initialize bulk query job.")
    (shared_handler j).

(** *** [src/salesforce/operations.py] *)

(** The two [except] clauses; the attempt to abort is itself guarded. *)
Definition monolith_handler {A : Type} (j : option string) (e : exn)
    : run A :=
  match e with
  | HTTPException status_code detail =>
      try_except (abort_if_created j) (fun _ => ret tt) ;;
      raise (HTTPException status_code detail)
  | _ =>
      try_except (abort_if_created j) (fun _ => ret tt) ;;
      raise (HTTPException 500
               ("Failed to perform bulk query: " ++ exn_str e)%string)
  end.

(** [perform_bulk_query(auth, object_name, soql_query, operation)],
    returning the job id. *)
Definition monolith_perform_bulk_query (soql_query operation : string)
    : run string :=
  j <- try_except (post_query_job operation soql_query)
         (monolith_handler None) ;;
  try_except
    (check_job_id j "Failed to initialize bulk query job with Salesforce.")
    (monolith_handler j).

End QueryClient.

(** An org that creates the query job [750xx02], and one that answers the
    creation with status 400. *)
Definition accepting : salesforce :=
  {| on_post := fun _ => Ret (Some "750xx02"%string);
     on_patch := fun _ => Ret tt |}.

Definition malformed_query : salesforce :=
  {| on_post := fun _ =>
       Exc (HTTPStatusError 400 "MALFORMED_QUERY" "Client error '400 Bad Request'");
     on_patch := fun _ => Ret tt |}.

End BulkQuery.

(** ** [create_record] of [shared/src/salesforce/operations.py] and the
    record-by-record branch of [routers/bulk.py] *)

Module RestBatch.
Import Py Bulk.
Local Open Scope py_scope.
Local Open Scope Z_scope.

(** [response.get("errors", "Unknown error")], as far as [create_record]
    looks at it: a list whose first element is an object, with the
    ["message"] of this object when it has one; or anything else (no list,
    or an empty one). *)
Inductive errors_value : Type :=
| ErrorsFirst (message : option string)
| ErrorsOther.

(** The body of the answer to the creation of a record. *)
Record create_answer : Type := {
  answer_success : bool;          (* truthiness of response.get("success") *)
  answer_id : option string;      (* response.get("id") *)
  answer_errors : errors_value
}.

(** The calls of [client.create_sobject_record(object_name, data)] made so
    far. *)
Definition world : Type := list (string * record).

(** The client and the org behind it: the outcome of the n-th call. *)
Record salesforce : Type := {
  on_create_record : nat -> outcome exn create_answer
}.

Definition run (A : Type) : Type := M world exn A.

(** An entry of [results_summary], as [BulkOperationResultDetail] keeps
    it; [errors] holds the messages. *)
Record result_detail : Type := {
  detail_success : bool;
  detail_id : option string;
  detail_errors : option (list string)
}.

Record BulkOperationResponse : Type := {
  response_success : bool;
  response_message : string;
  response_job_id : option string;
  response_results : option (list result_detail)
}.

Section RestClient.
Variable sf : salesforce.

(** [client.create_sobject_record(object_name, data)] *)
Definition create_sobject_record (object_name : string) (data : record)
    : run create_answer :=
  fun w => (on_create_record sf (length w), w ++ [(object_name, data)]).

(** [create_record(client, object_name, data)], returning
    [response.get("id")]. *)
Definition create_record (object_name : string) (data : record)
    : run (option string) :=
  try_except
    (response <- create_sobject_record object_name data ;;
     if answer_success response then ret (answer_id response)
     else
       raise (HTTPException 400
                match answer_errors response with
                | ErrorsFirst (Some message) => message
                | _ => "Failed to create record."%string
                end))
    (fun e =>
       match e with
       | HTTPException status_code detail =>
           raise (HTTPException status_code detail)
       | HTTPStatusError status_code text _ =>
           raise (HTTPException status_code text)
       | OtherError _ =>
           raise (HTTPException 500
                    ("Failed to create record in " ++ object_name ++ ": "
                     ++ exn_str e)%string)
       end).

(** The body of [for i, record_data in enumerate(payload.records)]: the
    entry for the record, and whether the [try] block came to its end. *)
Definition process_record (object_name operation_type : string)
    (record_data : record) : run (result_detail * bool) :=
  try_except
    (d <- (if String.eqb operation_type "create" then
             created_id <- create_record object_name record_data ;;
             ret {| detail_success := true; detail_id := created_id;
                    detail_errors := None |}
           else
             ret {| detail_success := false; detail_id := None;
                    detail_errors := None |}) ;;
     (* success_count += 1 *)
     ret (d, true))
    (fun e_single =>
       (* failed_count += 1 *)
       ret ({| detail_success := false; detail_id := None;
               detail_errors := Some [exn_str e_single] |}, false)).

Fixpoint process_records (object_name operation_type : string)
    (records : list record) (success_count failed_count : Z)
    (results_summary : list result_detail)
    : run (Z * Z * list result_detail) :=
  match records with
  | [] => ret (success_count, failed_count, results_summary)
  | record_data :: rest =>
      res <- process_record object_name operation_type record_data ;;
      let (d, ok) := res in
      process_records object_name operation_type rest
        (if ok then success_count + 1 else success_count)
        (if ok then failed_count else failed_count + 1)
        (results_summary ++ [d])
  end.

(** The message of the response. *)
Definition processed_message (n : nat) (success_count failed_count : Z)
    : string :=
  ("Processed " ++ str_of_int (Z.of_nat n) ++ " records via REST API. "
   ++ str_of_int success_count ++ " successful, "
   ++ str_of_int failed_count ++ " failed.")%string.

(** The [else] branch of [handle_batch_record_processing]
    ([use_bulk_api] is false). *)
Definition rest_batch (object_name operation_type : string)
    (records : list record) : run BulkOperationResponse :=
  res <- process_records object_name operation_type records 0 0 [] ;;
  let '(success_count, failed_count, results_summary) := res in
  ret {| response_success := (failed_count =? 0);
         response_message :=
           processed_message (length records) success_count failed_count;
         response_job_id := None;
         response_results := Some results_summary |}.

End RestClient.

(** The number of entries that report a success. *)
Definition successes (results : list result_detail) : nat :=
  length (filter detail_success results).

(** The answer reports a success. *)
Definition created_ok (o : outcome exn create_answer) : bool :=
  match o with
  | Ret a => answer_success a
  | Exc _ => false
  end.

(** An org that creates every second record. *)
Definition alternating : salesforce :=
  {| on_create_record := fun n =>
       if Nat.even n
       then Ret {| answer_success := true; answer_id := Some "001xx01"%string;
                   answer_errors := ErrorsOther |}
       else Ret {| answer_success := false; answer_id := None;
                   answer_errors :=
                     ErrorsFirst (Some "Required field missing"%string) |} |}.

End RestBatch.

(** ** [bulk-service/src/app/routers/bulk.py]: the endpoints that submit
    DML jobs *)

Module BulkRouter.
Import Py Csv DataHandler Bulk.
Local Open Scope py_scope.
Local Open Scope Z_scope.

(** [c.lower()] for a code point below 256: the letters A to Z and the
    capital letters of Latin-1 (192 to 222, the multiplication sign 215
    apart) are moved by 32. *)
Definition lower_char (c : ascii) : ascii :=
  let n := nat_of_ascii c in
  if (Nat.leb 65 n && Nat.leb n 90)
     || (Nat.leb 192 n && Nat.leb n 222 && negb (Nat.eqb n 215))
  then ascii_of_nat (n + 32)
  else c.

(** [s.lower()] *)
Fixpoint lower (s : string) : string :=
  match s with
  | EmptyString => EmptyString
  | String c rest => String (lower_char c) (lower rest)
  end.

(** The [valid_ops] of the endpoint. *)
Definition valid_ops : list string :=
  ["insert"; "update"; "upsert"; "delete"; "harddelete"]%string.

(** The [valid_ops] of the validator of [SalesforceBulkOperationPayload]. *)
Definition payload_valid_ops : list string :=
  ["insert"; "update"; "upsert"; "delete"; "hardDelete"; "query";
   "queryAll"]%string.

Definition mem (s : string) (l : list string) : bool :=
  existsb (String.eqb s) l.

(** [BulkOperationResponse(success=True, message=..., job_id=...)] *)
Record BulkOperationResponse : Type := {
  response_success : bool;
  response_message : string;
  response_job_id : option string
}.

Section DmlEndpoints.
Variable sf : salesforce.
(** [str(e)] of the [ValidationError] of pydantic; its text is not
    modelled. *)
Variable validation_error : string.

(** [SalesforceBulkOperationPayload(object_name=..., operation=...,
    records=..., external_id_field=...)] with its validators: the
    operation is one of [payload_valid_ops]; a DML operation has records;
    an upsert has an external id field. *)
Definition new_payload (object_name operation : string)
    (records : list record) (external_id_field : option string)
    : run payload :=
  if mem operation payload_valid_ops
     && negb (is_dml operation && Nat.eqb (length records) 0)
     && negb (String.eqb operation "upsert"
              && negb (truthy_opt external_id_field))
  then ret {| object_name := object_name; operation := operation;
              records := records; external_id_field := external_id_field |}
  else raise (OtherError validation_error).

(** The [except] clauses of [handle_bulk_dml_from_file_upload]. *)
Definition file_upload_handler {A : Type} (e : exn) : run A :=
  match e with
  | HTTPException status_code detail =>
      raise (HTTPException status_code detail)
  | _ => raise (HTTPException 500 (exn_str e))
  end.

(** [handle_bulk_dml_from_file_upload(object_name, operation_type, file,
    external_id_field)]; [file] is what [read_file_data_for_bulk(file)]
    gives for the uploaded file. *)
Definition handle_bulk_dml_from_file_upload (object_name operation_type : string)
    (file : outcome exn (list record)) (external_id_field : option string)
    : run BulkOperationResponse :=
  let op_type_lower := lower operation_type in
  if negb (mem op_type_lower valid_ops) then
    raise (HTTPException 400
             "Invalid operation_type. Must be one of ['insert', 'update', 'upsert', 'delete', 'harddelete'].")
  else if String.eqb op_type_lower "upsert"
          && negb (truthy_opt external_id_field) then
    raise (HTTPException 400 "external_id_field is required for upsert.")
  else
    try_except
      (records <- (fun w => (file, w)) ;;
       match records with
       | [] =>
           ret {| response_success := true;
                  response_message := "File is empty. No job submitted.";
                  response_job_id := None |}
       | _ :: _ =>
           bulk_payload <- new_payload object_name op_type_lower records
                             external_id_field ;;
           j <- shared_perform_bulk_operation sf bulk_payload ;;
           ret {| response_success := true;
                  response_message :=
                    ("Bulk " ++ op_type_lower ++ " job submitted for "
                     ++ object_name ++ ". Job ID: " ++ j ++ ".")%string;
                  response_job_id := Some j |}
       end)
      file_upload_handler.

(** [handle_bulk_dml_direct_payload(payload)]; the payload is a
    [BulkDMLJobSubmitPayload], whose validator has put the operation in
    lower case. *)
Definition handle_bulk_dml_direct_payload (object_name operation : string)
    (records : list record) (external_id_field : option string)
    : run BulkOperationResponse :=
  if String.eqb (lower operation) "upsert"
     && negb (truthy_opt external_id_field) then
    raise (HTTPException 400 "external_id_field is required for upsert.")
  else if Nat.eqb (length records) 0 then
    raise (HTTPException 400 "Records list cannot be empty.")
  else
    try_except
      (internal_payload <- new_payload object_name operation records
                             external_id_field ;;
       j <- shared_perform_bulk_operation sf internal_payload ;;
       ret {| response_success := true;
              response_message :=
                ("Bulk " ++ operation ++ " job submitted. Job ID: " ++ j
                 ++ ".")%string;
              response_job_id := Some j |})
      (fun e => raise (HTTPException 500 (exn_str e))).

End DmlEndpoints.

End BulkRouter.

(** ** [record-service/src/app/routers/records.py] and the operations of
    [shared/src/salesforce/operations.py] behind it: update and delete *)

Module RecordService.
Import Py Bulk.
Local Open Scope py_scope.
Local Open Scope Z_scope.

(** The calls of the client made so far. *)
Inductive call : Type :=
| UpdateRecord (object_name record_id : string) (data : record)
| DeleteRecord (object_name record_id : string).

Definition world : Type := list call.

(** The client and the org behind it: the outcome of the n-th call, which
    is whether the answer had status 204, or the exception raised. *)
Record salesforce : Type := {
  on_call : nat -> outcome exn bool
}.

Definition run (A : Type) : Type := M world exn A.

(** [OperationResponse(success=..., message=...)] *)
Record OperationResponse : Type := {
  response_success : bool;
  response_message : string
}.

(** Truthiness of an optional dictionary. *)
Definition truthy_data (data : option record) : bool :=
  match data with
  | Some (_ :: _) => true
  | _ => false
  end.

Section RecordClient.
Variable sf : salesforce.

(** [client.update_sobject_record(object_name, record_id, data)] *)
Definition update_sobject_record (object_name record_id : string)
    (data : record) : run bool :=
  fun w => (on_call sf (length w),
            w ++ [UpdateRecord object_name record_id data]).

(** [client.delete_sobject_record(object_name, record_id)] *)
Definition delete_sobject_record (object_name record_id : string)
    : run bool :=
  fun w => (on_call sf (length w), w ++ [DeleteRecord object_name record_id]).

(** The two [except] clauses of the operations: the status of an
    [httpx.HTTPStatusError] is kept; any other exception, an
    [HTTPException] included, is reported with status 500 and the text
    [failed] followed by [str(e)]. *)
Definition operation_handler {A : Type} (failed : string) (e : exn) : run A :=
  match e with
  | HTTPStatusError status_code text _ => raise (HTTPException status_code text)
  | _ => raise (HTTPException 500 (failed ++ exn_str e)%string)
  end.

(** [update_record(client, object_name, record_id, data)] *)
Definition update_record (object_name record_id : string) (data : record)
    : run unit :=
  try_except
    (success <- update_sobject_record object_name record_id data ;;
     if (success : bool) then ret tt
     else raise (HTTPException 500 "Update operation failed."))
    (operation_handler
       ("Failed to update record " ++ object_name ++ "/" ++ record_id
        ++ ": ")%string).

(** [delete_record(client, object_name, record_id)] *)
Definition delete_record (object_name record_id : string) : run unit :=
  try_except
    (success <- delete_sobject_record object_name record_id ;;
     if (success : bool) then ret tt
     else raise (HTTPException 500 "Delete operation failed."))
    (operation_handler
       ("Failed to delete record " ++ object_name ++ "/" ++ record_id
        ++ ": ")%string).

(** The two [except] clauses of the endpoints. *)
Definition endpoint_handler {A : Type} (e : exn) : run A :=
  match e with
  | HTTPException status_code detail =>
      raise (HTTPException status_code detail)
  | _ => raise (HTTPException 500
                  ("An unexpected error occurred: " ++ exn_str e)%string)
  end.

(** [handle_update_record_endpoint(payload)] *)
Definition handle_update_record_endpoint (object_name : string)
    (record_id : option string) (data : option record)
    : run OperationResponse :=
  match record_id, data with
  | Some i, Some d =>
      if negb (truthy i) then
        raise (HTTPException 400
                 "Field 'record_id' is required for update operations.")
      else if negb (truthy_data data) then
        raise (HTTPException 400
                 "Field 'data' is required for update operations.")
      else
        try_except
          (update_record object_name i d ;;
           ret {| response_success := true;
                  response_message :=
                    ("Record " ++ i ++ " in " ++ object_name
                     ++ " updated successfully.")%string |})
          endpoint_handler
  | None, _ =>
      raise (HTTPException 400
               "Field 'record_id' is required for update operations.")
  | Some i, None =>
      if negb (truthy i) then
        raise (HTTPException 400
                 "Field 'record_id' is required for update operations.")
      else
        raise (HTTPException 400
                 "Field 'data' is required for update operations.")
  end.

(** [handle_delete_record_endpoint(object_name, record_id)] *)
Definition handle_delete_record_endpoint (object_name record_id : string)
    : run OperationResponse :=
  try_except
    (delete_record object_name record_id ;;
     ret {| response_success := true;
            response_message :=
              ("Record " ++ record_id ++ " in " ++ object_name
               ++ " deleted successfully.")%string |})
    endpoint_handler.

End RecordClient.

(** An org in which the record is not found: the client raises an
    [HTTPException] with status 404. *)
Definition not_found : salesforce :=
  {| on_call := fun _ =>
       Exc (HTTPException 404 "Salesforce API Error: NOT_FOUND") |}.

End RecordService.

(** * Verification *)

(** ** The CSV writer and reader *)

Section CsvFacts.
Import Py Csv DataHandler.
Local Open Scope string_scope.

Lemma StringIO_lines_nil s : StringIO_lines s = [] -> s = EmptyString.
Proof.
  destruct s as [|c s]; [reflexivity|]. cbn.
  destruct (c =? LF)%char; [discriminate|].
  destruct (StringIO_lines s); discriminate.
Qed.

Lemma read_rows_end self : read_rows self [] = end_of_input self.
Proof. reflexivity. Qed.

Lemma read_rows_stream s : forall self,
  read_rows self (StringIO_lines s) = read_stream self s.
Proof.
  induction s as [|c s IH]; intros self; [reflexivity|].
  cbn [StringIO_lines read_stream].
  destruct (c =? LF)%char eqn:Hc.
  - cbn [read_rows feed_line orb].
    destruct (parse_process_char self (Char c)) as [self1|e]; [|reflexivity].
    destruct (parse_process_char self1 EOL) as [self2|e]; [|reflexivity].
    rewrite !IH. reflexivity.
  - cbn [orb]. destruct (StringIO_lines s) as [|line more] eqn:Hl.
    + apply StringIO_lines_nil in Hl. subst s. cbn.
      destruct (parse_process_char self (Char c)) as [self1|e]; [|reflexivity].
      destruct (parse_process_char self1 EOL) as [self2|e]; [|reflexivity].
      destruct (is_START_RECORD (state self2)); reflexivity.
    + assert (Hs : Nat.eqb (String.length s) 0 = false).
      { destruct s; [discriminate|reflexivity]. }
      rewrite Hs. cbn [read_rows feed_line].
      destruct (parse_process_char self (Char c)) as [self1|e]; [|reflexivity].
      rewrite <- IH. reflexivity.
Qed.


Lemma sapp_assoc (a b c : string) : (a ++ b) ++ c = a ++ (b ++ c).
Proof. induction a as [|x a IH]; cbn; [reflexivity|now rewrite IH]. Qed.

Lemma sapp_nil_r (a : string) : a ++ "" = a.
Proof. induction a as [|x a IH]; cbn; [reflexivity|now rewrite IH]. Qed.

Lemma slength_app (a b : string) :
  String.length (a ++ b) = (String.length a + String.length b)%nat.
Proof. induction a as [|x a IH]; cbn; [reflexivity|now rewrite IH]. Qed.

Lemma sapp_not_empty_r (a b : string) : b <> "" -> a ++ b <> "".
Proof. destruct a; cbn; [auto|discriminate]. Qed.

Lemma length0_false (s : string) : s <> "" -> Nat.eqb (String.length s) 0 = false.
Proof. destruct s; [congruence|reflexivity]. Qed.



Lemma add_char_ok st p fs c :
  (Z.of_nat (String.length p) < field_limit)%Z ->
  parse_add_char (mk st p fs) c = Ret (mk st (p ++ String c "") fs).
Proof.
  intros H. unfold parse_add_char. cbn [field state fields].
  destruct (Z.leb_spec field_limit (Z.of_nat (String.length p))); [lia|reflexivity].
Qed.

(** Transitions of the parser on the characters of a written field. *)
Lemma step_in_quoted_quote p fs :
  parse_process_char (mk IN_QUOTED_FIELD p fs) (Char DQUOTE)
  = Ret (mk QUOTE_IN_QUOTED_FIELD p fs).
Proof. reflexivity. Qed.

Lemma step_quote_quote p fs :
  (Z.of_nat (String.length p) < field_limit)%Z ->
  parse_process_char (mk QUOTE_IN_QUOTED_FIELD p fs) (Char DQUOTE)
  = Ret (mk IN_QUOTED_FIELD (p ++ String DQUOTE "") fs).
Proof.
  intros H. unfold parse_process_char. cbn [state Ascii.eqb].
  change (DQUOTE =? DQUOTE)%char with true. cbv iota.
  now rewrite add_char_ok.
Qed.

Lemma step_in_quoted_char p fs c :
  (c =? DQUOTE)%char = false ->
  (Z.of_nat (String.length p) < field_limit)%Z ->
  parse_process_char (mk IN_QUOTED_FIELD p fs) (Char c)
  = Ret (mk IN_QUOTED_FIELD (p ++ String c "") fs).
Proof.
  intros Hq H. unfold parse_process_char. cbn [state]. rewrite Hq.
  now apply add_char_ok.
Qed.

(** A character that does not end a line, with more text after it. *)
Lemma read_stream_char self c rest self1 :
  parse_process_char self (Char c) = Ret self1 ->
  (c =? LF)%char = false -> rest <> "" ->
  read_stream self (String c rest) = read_stream self1 rest.
Proof.
  intros H Hc Hr. cbn [read_stream]. rewrite H, Hc, (length0_false _ Hr).
  reflexivity.
Qed.

Lemma quoted_body f : forall p fs rest,
  (Z.of_nat (String.length (p ++ f)) <= field_limit)%Z ->
  rest <> "" ->
  read_stream (mk IN_QUOTED_FIELD p fs) (doubled f ++ rest)
  = read_stream (mk IN_QUOTED_FIELD (p ++ f) fs) rest.
Proof.
  induction f as [|c f IH]; intros p fs rest Hlen Hrest.
  - now rewrite sapp_nil_r.
  - assert (Hp : (Z.of_nat (String.length p) < field_limit)%Z).
    { rewrite slength_app in Hlen. cbn [String.length] in Hlen. lia. }
    assert (Hlen' : (Z.of_nat (String.length ((p ++ String c "") ++ f)) <= field_limit)%Z).
    { now rewrite sapp_assoc. }
    cbn [doubled]. destruct (c =? DQUOTE)%char eqn:Hq.
    + apply Ascii.eqb_eq in Hq. subst c. cbn [append].
      rewrite (read_stream_char _ _ _ _ (step_in_quoted_quote p fs));
        [| reflexivity | discriminate].
      rewrite (read_stream_char _ _ _ _ (step_quote_quote p fs Hp));
        [| reflexivity | now apply sapp_not_empty_r].
      rewrite IH by assumption. now rewrite sapp_assoc.
    + cbn [append]. destruct (c =? LF)%char eqn:Hl.
      * cbn [read_stream].
        rewrite (step_in_quoted_char p fs c Hq Hp), Hl. cbn [orb].
        cbn [parse_process_char state is_START_RECORD].
        rewrite IH by assumption. now rewrite sapp_assoc.
      * rewrite (read_stream_char _ _ _ _ (step_in_quoted_char p fs c Hq Hp));
          [| exact Hl | now apply sapp_not_empty_r].
        rewrite IH by assumption. now rewrite sapp_assoc.
Qed.

Lemma forces_quotes_false c :
  forces_quotes c = false ->
  (c =? COMMA)%char = false /\ (c =? DQUOTE)%char = false /\ (c =? LF)%char = false.
Proof.
  unfold forces_quotes. intros H.
  apply orb_false_iff in H as [H H3]. apply orb_false_iff in H as [H1 H2]. auto.
Qed.

Lemma doubled_unquoted f : quoted f = false -> doubled f = f.
Proof.
  induction f as [|c f IH]; cbn; [reflexivity|].
  intros H. apply orb_false_iff in H as [Hc Hf].
  apply forces_quotes_false in Hc as (_ & -> & _). now rewrite IH.
Qed.

Lemma step_in_field_char p fs c :
  forces_quotes c = false -> (c =? CR)%char = false ->
  (Z.of_nat (String.length p) < field_limit)%Z ->
  parse_process_char (mk IN_FIELD p fs) (Char c)
  = Ret (mk IN_FIELD (p ++ String c "") fs).
Proof.
  intros Hc Hcr H. apply forces_quotes_false in Hc as (Hcomma & _ & Hlf).
  unfold parse_process_char, is_newline. cbn [state].
  rewrite Hlf, Hcr, Hcomma. now apply add_char_ok.
Qed.

Lemma step_start_char s0 fs c :
  s0 = START_RECORD \/ s0 = START_FIELD ->
  forces_quotes c = false -> (c =? CR)%char = false ->
  parse_process_char (mk s0 "" fs) (Char c)
  = Ret (mk IN_FIELD (String c "") fs).
Proof.
  intros Hs Hc Hcr. apply forces_quotes_false in Hc as (Hcomma & Hq & Hlf).
  unfold parse_process_char, parse_start_field, is_newline.
  destruct Hs as [-> | ->]; cbn [state set_state field fields];
    rewrite Hlf, Hcr, Hq, Hcomma; unfold set_state; cbn [orb state field fields];
    rewrite add_char_ok by (cbn; unfold field_limit; lia); reflexivity.
Qed.

Lemma step_start_quote s0 fs :
  s0 = START_RECORD \/ s0 = START_FIELD ->
  parse_process_char (mk s0 "" fs) (Char DQUOTE)
  = Ret (mk IN_QUOTED_FIELD "" fs).
Proof. intros [-> | ->]; reflexivity. Qed.

Lemma unquoted_body f : forall p fs rest,
  quoted f = false -> has_cr f = false ->
  (Z.of_nat (String.length (p ++ f)) <= field_limit)%Z ->
  rest <> "" ->
  read_stream (mk IN_FIELD p fs) (f ++ rest)
  = read_stream (mk IN_FIELD (p ++ f) fs) rest.
Proof.
  induction f as [|c f IH]; intros p fs rest Hq Hcr Hlen Hrest.
  - now rewrite sapp_nil_r.
  - cbn [quoted has_cr] in Hq, Hcr.
    apply orb_false_iff in Hq as [Hc Hq]. apply orb_false_iff in Hcr as [Hc' Hcr].
    assert (Hp : (Z.of_nat (String.length p) < field_limit)%Z).
    { rewrite slength_app in Hlen. cbn [String.length] in Hlen. lia. }
    cbn [append].
    rewrite (read_stream_char _ _ _ _ (step_in_field_char p fs c Hc Hc' Hp));
      [| now apply forces_quotes_false in Hc | now apply sapp_not_empty_r].
    rewrite IH; auto; now rewrite sapp_assoc.
Qed.


Lemma read_field f s0 fs rest :
  s0 = START_RECORD \/ s0 = START_FIELD ->
  readable_back f -> rest <> "" ->
  exists s1,
    read_stream (mk s0 "" fs) (join_append f ++ rest)
    = read_stream (mk s1 f fs) rest
    /\ after_field s0 s1 f.
Proof.
  intros Hs [Hlen Hcr] Hrest. unfold join_append, after_field.
  destruct (quoted f) eqn:Hq.
  - exists QUOTE_IN_QUOTED_FIELD. split; [|auto].
    cbn [append].
    rewrite (read_stream_char _ _ _ _ (step_start_quote s0 fs Hs));
      [| reflexivity | rewrite sapp_assoc; apply sapp_not_empty_r; discriminate].
    rewrite sapp_assoc, quoted_body; [| exact Hlen | discriminate].
    cbn [append].
    now rewrite (read_stream_char _ _ _ _ (step_in_quoted_quote f fs)).
  - rewrite doubled_unquoted by exact Hq.
    assert (Hcr' : has_cr f = false).
    { destruct (has_cr f); [specialize (Hcr eq_refl); congruence | reflexivity]. }
    destruct f as [|c f].
    + exists s0. split; [reflexivity | auto].
    + exists IN_FIELD. split; [|auto].
      cbn [quoted has_cr] in Hq, Hcr'.
      apply orb_false_iff in Hq as [Hc Hq]. apply orb_false_iff in Hcr' as [Hc' Hcr'].
      cbn [append].
      rewrite (read_stream_char _ _ _ _ (step_start_char s0 fs c Hs Hc Hc'));
        [| now apply forces_quotes_false in Hc | now apply sapp_not_empty_r].
      now rewrite unquoted_body.
Qed.

Lemma after_field_comma s0 s1 f fs rest :
  s0 = START_RECORD \/ s0 = START_FIELD ->
  after_field s0 s1 f -> rest <> "" ->
  read_stream (mk s1 f fs) (String COMMA rest)
  = read_stream (mk START_FIELD "" (fs ++ [f])) rest.
Proof.
  intros Hs Ha Hrest.
  apply read_stream_char; [| reflexivity | exact Hrest].
  destruct Ha as [-> | [-> | [-> ->]]]; [reflexivity | reflexivity |].
  destruct Hs as [-> | ->]; reflexivity.
Qed.

Lemma after_field_lf s1 f fs rest :
  after_field START_FIELD s1 f ->
  read_stream (mk s1 f fs) (String LF rest)
  = cons_row (fs ++ [f]) (read_stream parse_reset rest).
Proof.
  intros Ha. cbn [read_stream].
  destruct Ha as [-> | [-> | [-> ->]]]; reflexivity.
Qed.

Lemma read_fields gs : forall f s0 fs rest,
  s0 = START_FIELD \/ (s0 = START_RECORD /\ (f <> "" \/ gs <> [])) ->
  Forall readable_back (f :: gs) ->
  read_stream (mk s0 "" fs)
    (String.concat (String COMMA "") (map join_append (f :: gs))
     ++ String LF rest)
  = cons_row (fs ++ f :: gs) (read_stream parse_reset rest).
Proof.
  induction gs as [|g gs IH]; intros f s0 fs rest Hs Hall.
  - cbn [map String.concat].
    inversion Hall as [|? ? Hf _]; subst.
    assert (Hs0 : s0 = START_RECORD \/ s0 = START_FIELD) by tauto.
    destruct (read_field f s0 fs (String LF rest) Hs0 Hf ltac:(discriminate))
      as (s1 & -> & Ha).
    apply after_field_lf.
    destruct Ha as [-> | [-> | [-> ->]]]; unfold after_field; auto.
    destruct Hs as [-> | [_ [H | H]]]; [auto | congruence | congruence].
  - change (String.concat (String COMMA "") (map join_append (f :: g :: gs)))
      with (join_append f ++ String COMMA ""
            ++ String.concat (String COMMA "") (map join_append (g :: gs))).
    inversion Hall as [|? ? Hf Hrest]; subst.
    assert (Hs0 : s0 = START_RECORD \/ s0 = START_FIELD) by tauto.
    rewrite !sapp_assoc.
    destruct (read_field f s0 fs
                (String COMMA "" ++
                 String.concat (String COMMA "") (map join_append (g :: gs)) ++
                 String LF rest) Hs0 Hf ltac:(discriminate))
      as (s1 & -> & Ha).
    cbn [append].
    rewrite (after_field_comma s0 s1 f fs _ Hs0 Ha)
      by (apply sapp_not_empty_r; discriminate).
    rewrite IH by auto.
    now rewrite <- app_assoc.
Qed.

Lemma join_append_empty f : join_append f = "" -> f = "".
Proof.
  unfold join_append. destruct (quoted f) eqn:Hq; [discriminate|].
  now rewrite doubled_unquoted.
Qed.

Lemma read_writerow (row : list value) rest :
  row <> [] ->
  Forall readable_back (map field_text row) ->
  read_stream parse_reset (writerow row ++ rest)
  = cons_row (map field_text row) (read_stream parse_reset rest).
Proof.
  intros Hrow Hall. unfold writerow.
  rewrite <- (map_map field_text join_append).
  destruct row as [|v vs]; [congruence|]. cbn [map length Nat.eqb negb andb] in *.
  set (f := field_text v) in *. set (gs := map field_text vs) in *.
  change (join_append f :: map join_append gs) with (map join_append (f :: gs)).
  destruct (Nat.eqb (String.length
             (String.concat (String COMMA "") (map join_append (f :: gs)))) 0) eqn:Hlen.
  - (* a single empty field, written as two quote characters *)
    assert (Hgs : gs = []).
    { destruct gs as [|g gs']; [reflexivity|].
      cbn [map String.concat] in Hlen. rewrite slength_app in Hlen.
      cbn [append String.length] in Hlen.
      rewrite Nat.add_succ_r in Hlen. discriminate. }
    rewrite Hgs in *. cbn [map String.concat] in Hlen.
    assert (Hf : f = "").
    { apply join_append_empty. destruct (join_append f); [reflexivity|discriminate]. }
    rewrite Hf. reflexivity.
  - rewrite sapp_assoc. cbn [append].
    apply (read_fields gs f START_RECORD []); [|exact Hall].
    right. split; [reflexivity|].
    destruct gs as [|g gs']; [left|right; discriminate].
    intros Hf. rewrite Hf in Hlen. discriminate.
Qed.

Lemma concat_empty_sep x xs :
  String.concat "" (x :: xs) = x ++ String.concat "" xs.
Proof. destruct xs; cbn; [now rewrite sapp_nil_r | reflexivity]. Qed.

Lemma read_writerows (rows : list (list value)) :
  Forall (fun row => row <> []) rows ->
  Forall (fun row => Forall readable_back (map field_text row)) rows ->
  read_stream parse_reset (writerows rows) = Ret (map (map field_text) rows).
Proof.
  unfold writerows. induction rows as [|row rows IH]; intros Hne Hall.
  - reflexivity.
  - inversion Hne; inversion Hall; subst.
    cbn [map]. rewrite concat_empty_sep, read_writerow by assumption.
    now rewrite IH.
Qed.

(** The reader gives back the rows the writer wrote. *)
Lemma reader_writerows (rows : list (list value)) :
  Forall (fun row => row <> []) rows ->
  Forall (fun row => Forall readable_back (map field_text row)) rows ->
  reader (writerows rows) = Ret (map (map field_text) rows).
Proof.
  intros. unfold reader. rewrite read_rows_stream. now apply read_writerows.
Qed.


Section DictFacts.
Context {K V : Type} (eqb : K -> K -> bool).
Hypothesis eqb_eq : forall a b, eqb a b = true <-> a = b.

Lemma dict_get_set (d : list (K * V)) k v k' :
  dict_get eqb (dict_set eqb d k v) k'
  = if eqb k' k then Some v else dict_get eqb d k'.
Proof.
  induction d as [|[k0 v0] d IH]; cbn; [reflexivity|].
  destruct (eqb k k0) eqn:Hk; cbn.
  - apply eqb_eq in Hk. subst k0. destruct (eqb k' k); reflexivity.
  - rewrite IH. destruct (eqb k' k0) eqn:H0, (eqb k' k) eqn:H1; try reflexivity.
    apply eqb_eq in H0, H1. subst k0 k.
    assert (eqb k' k' = true) by now apply eqb_eq. congruence.
Qed.

(** Updating with pairs whose value is a function [g] of the key. *)
Lemma dict_get_update_fun (g : K -> V) (l : list (K * V)) : forall d k',
  (forall k v, In (k, v) l -> v = g k) ->
  dict_get eqb (dict_update eqb d l) k'
  = if existsb (eqb k') (map fst l) then Some (g k') else dict_get eqb d k'.
Proof.
  unfold dict_update.
  induction l as [|[k v] l IH]; intros d k' Hg; cbn; [reflexivity|].
  rewrite IH by (intros; apply Hg; now right).
  rewrite dict_get_set.
  destruct (existsb (eqb k') (map fst l)); [now rewrite orb_true_r|].
  rewrite orb_false_r. destruct (eqb k' k) eqn:Hk; [|reflexivity].
  apply eqb_eq in Hk. subst k'. f_equal. apply Hg. now left.
Qed.

End DictFacts.

Lemma key_eqb_eq a b : key_eqb a b = true <-> a = b.
Proof.
  destruct a as [x|], b as [y|]; cbn; try (split; congruence).
  rewrite String.eqb_eq. split; congruence.
Qed.

Lemma combine_map_fun {A B} (f : A -> B) (l : list A) :
  combine l (map f l) = map (fun x => (x, f x)) l.
Proof. induction l; cbn; congruence. Qed.

Lemma existsb_eqb_in (k : string) (l : list string) :
  existsb (String.eqb k) l = true <-> In k l.
Proof.
  rewrite existsb_exists. split.
  - intros (x & Hx & He). apply String.eqb_eq in He. now subst.
  - intros H. exists k. split; [exact H|apply String.eqb_refl].
Qed.

(** [writeheader] writes the field names themselves. *)
Lemma header_values (fieldnames : list string) :
  dict_to_list fieldnames
    (dict_update String.eqb [] (combine fieldnames (map VStr fieldnames)))
  = map VStr fieldnames.
Proof.
  unfold dict_to_list, get. apply map_ext_in. intros k Hk.
  rewrite (dict_get_update_fun String.eqb String.eqb_eq VStr).
  - rewrite combine_map_fun, map_map. cbn [fst]. rewrite map_id.
    now rewrite (proj2 (existsb_eqb_in k fieldnames) Hk).
  - intros k0 v. rewrite combine_map_fun, in_map_iff.
    intros (x & [= <- <-] & _). reflexivity.
Qed.

(** The text [convert_records_to_csv_string] returns is what the writer
    writes for the table made of the field names and of one row per
    record. *)
Lemma convert_as_table (records : list record) field_order :
  records <> [] -> fieldnames_of records field_order <> [] ->
  convert_records_to_csv_string records field_order
  = writerows (map VStr (fieldnames_of records field_order)
               :: map (fun r => map (cell_value r)
                                  (fieldnames_of records field_order)) records).
Proof.
  intros Hr Hf. unfold convert_records_to_csv_string.
  destruct records as [|r0 rs]; [congruence|].
  destruct (fieldnames_of (r0 :: rs) field_order) as [|k ks] eqn:Hfn; [congruence|].
  unfold writeheader, dictwriter_writerows. rewrite header_values.
  unfold writerows at 2. cbn [map]. rewrite concat_empty_sep. reflexivity.
Qed.

Lemma map_field_text_VStr l : map field_text (map VStr l) = l.
Proof. rewrite map_map. cbn. apply map_id. Qed.

(** What the reader makes of the text: the field names, then for each
    record the texts of its cells in the order of the field names. *)
Lemma reader_convert (records : list record) field_order :
  records <> [] -> fieldnames_of records field_order <> [] ->
  Forall readable_back (fieldnames_of records field_order) ->
  (forall r k, In r records -> In k (fieldnames_of records field_order) ->
     readable_back (cell_text r k)) ->
  reader (convert_records_to_csv_string records field_order)
  = Ret (fieldnames_of records field_order
         :: map (fun r => map (cell_text r) (fieldnames_of records field_order))
              records).
Proof.
  intros Hr Hf Hnames Hcells.
  rewrite convert_as_table by assumption.
  set (fns := fieldnames_of records field_order) in *.
  rewrite reader_writerows.
  - cbn [map]. rewrite map_field_text_VStr, map_map. f_equal. f_equal.
    apply map_ext. intros r. now rewrite map_map.
  - constructor.
    + destruct fns; [congruence|discriminate].
    + apply Forall_forall. intros row Hrow. apply in_map_iff in Hrow as (r & <- & _).
      destruct fns; [congruence|discriminate].
  - constructor.
    + now rewrite map_field_text_VStr.
    + apply Forall_forall. intros row Hrow. apply in_map_iff in Hrow as (r & <- & Hin).
      rewrite map_map. apply Forall_forall. intros t Ht.
      apply in_map_iff in Ht as (k & <- & Hk). now apply Hcells.
Qed.

Lemma filter_nonempty_rows {A} (fns : list string) (f : A -> list string) (l : list A) :
  (forall a, f a <> []) ->
  filter (fun row => negb (is_empty_row row)) (map f l) = map f l.
Proof.
  intros Hne. induction l as [|a l IH]; cbn; [reflexivity|].
  specialize (Hne a). destruct (f a) eqn:Hf; [congruence|]. cbn. now rewrite IH.
Qed.

Lemma existsb_key_none (l : list string) :
  existsb (key_eqb None) (map Some l) = false.
Proof. induction l; cbn; auto. Qed.

Lemma existsb_key_some k (l : list string) :
  existsb (key_eqb (Some k)) (map Some l) = existsb (String.eqb k) l.
Proof. induction l; cbn; congruence. Qed.

(** A row with as many cells as there are field names. *)
Lemma lookup_full_row (fns : list string) (g : string -> string) :
  lookup (dictreader_row fns (map g fns)) None = None
  /\ forall k, lookup (dictreader_row fns (map g fns)) (Some k)
               = if in_dec string_dec k fns then Some (CStr (g k)) else None.
Proof.
  unfold dictreader_row, lookup. rewrite length_map, Nat.ltb_irrefl.
  rewrite map_map.
  assert (Hc : combine (map Some fns) (map (fun k => CStr (g k)) fns)
               = map (fun k => (Some k, CStr (g k))) fns).
  { clear. induction fns; cbn; congruence. }
  rewrite Hc.
  set (G := fun k : option string =>
              match k with Some k => CStr (g k) | None => CNone end).
  assert (HG : forall k v, In (k, v) (map (fun k => (Some k, CStr (g k))) fns) ->
                           v = G k).
  { intros k v Hin. apply in_map_iff in Hin as (x & [= <- <-] & _). reflexivity. }
  assert (Hfst : map fst (map (fun k => (Some k, CStr (g k))) fns) = map Some fns).
  { rewrite map_map. reflexivity. }
  split.
  - rewrite (dict_get_update_fun key_eqb key_eqb_eq G) by exact HG.
    now rewrite Hfst, existsb_key_none.
  - intros k.
    rewrite (dict_get_update_fun key_eqb key_eqb_eq G) by exact HG.
    rewrite Hfst, existsb_key_some.
    destruct (in_dec string_dec k fns) as [Hin|Hin].
    + now rewrite (proj2 (existsb_eqb_in k fns) Hin).
    + destruct (existsb (String.eqb k) fns) eqn:He; [|reflexivity].
      apply existsb_eqb_in in He. contradiction.
Qed.


Lemma fieldnames_of_explicit (records : list record) fo :
  fo <> [] -> fieldnames_of records (Some fo) = fo.
Proof. destruct fo; [congruence|reflexivity]. Qed.


Section DictEntries.
Context {K V : Type} (eqb : K -> K -> bool).
Hypothesis eqb_eq : forall a b, eqb a b = true <-> a = b.

Lemma in_dict_set (d : list (K * V)) k0 v0 k v :
  In (k, v) (dict_set eqb d k0 v0) -> (k = k0 /\ v = v0) \/ In (k, v) d.
Proof.
  induction d as [|[k1 v1] d IH]; cbn.
  - intros [[= <- <-] | []]. now left.
  - destruct (eqb k0 k1) eqn:Hk; cbn.
    + apply eqb_eq in Hk. subst k1.
      intros [[= <- <-] | H]; [now left | right; now right].
    + intros [H | H]; [right; now left|].
      destruct (IH H) as [? | ?]; [now left | right; now right].
Qed.

Lemma in_dict_update (l : list (K * V)) : forall d k v,
  In (k, v) (dict_update eqb d l) -> In (k, v) l \/ In (k, v) d.
Proof.
  unfold dict_update.
  induction l as [|[k0 v0] l IH]; intros d k v; cbn; [now right|].
  intros H. destruct (IH _ _ _ H) as [H' | H']; [left; now right|].
  apply in_dict_set in H' as [[-> ->] | H']; [left; now left | now right].
Qed.

Lemma dict_get_update_notin (l : list (K * V)) : forall d k,
  ~ In k (map fst l) ->
  dict_get eqb (dict_update eqb d l) k = dict_get eqb d k.
Proof.
  unfold dict_update.
  induction l as [|[k0 v0] l IH]; intros d k Hn; cbn; [reflexivity|].
  rewrite IH by (intros H; apply Hn; now right).
  rewrite (dict_get_set eqb eqb_eq).
  destruct (eqb k k0) eqn:Hk; [|reflexivity].
  apply eqb_eq in Hk. subst k0. exfalso. apply Hn. now left.
Qed.

End DictEntries.

Lemma nth_error_skipn_NoDup {A} (l : list A) : forall i n k,
  NoDup l -> nth_error l i = Some k -> (i < n)%nat -> ~ In k (skipn n l).
Proof.
  induction l as [|a l IH]; intros i n k Hnd Hi Hlt.
  - destruct i; discriminate.
  - inversion Hnd as [|? ? Ha Hnd']; subst.
    destruct n as [|n]; [lia|]. cbn [skipn].
    destruct i as [|i]; cbn in Hi.
    + injection Hi as <-. intros H. apply Ha.
      rewrite <- (firstn_skipn n l). apply in_or_app. now right.
    + apply (IH i n k Hnd' Hi). lia.
Qed.

(** With distinct field names, the cell under a field name is found under
    that name. *)
Lemma lookup_zip (header : list string) : forall (row : list string) d i k c,
  NoDup header ->
  nth_error header i = Some k -> nth_error row i = Some c ->
  dict_get key_eqb
    (dict_update key_eqb d (combine (map Some header) (map CStr row)))
    (Some k)
  = Some (CStr c).
Proof.
  induction header as [|h header IH]; intros row d i k c Hnd Hh Hr.
  - destruct i; discriminate.
  - destruct row as [|r row]; [destruct i; discriminate|].
    inversion Hnd as [|? ? Hnotin Hnd']; subst.
    cbn [map combine]. unfold dict_update. cbn [fold_left fst snd].
    fold (dict_update key_eqb (dict_set key_eqb d (Some h) (CStr r))
            (combine (map Some header) (map CStr row))).
    destruct i as [|i]; cbn in Hh, Hr.
    + injection Hh as <-. injection Hr as <-.
      rewrite (dict_get_update_notin key_eqb key_eqb_eq).
      * rewrite (dict_get_set key_eqb key_eqb_eq).
        now rewrite (proj2 (key_eqb_eq (Some h) (Some h)) eq_refl).
      * intros Hin. apply Hnotin.
        apply in_map_iff in Hin as ([k0 v0] & Hk0 & Hin). cbn in Hk0. subst k0.
        apply in_combine_l in Hin. apply in_map_iff in Hin as (x & [= ->] & Hx).
        exact Hx.
    + now apply (IH row _ i).
Qed.

Lemma fold_restval_get (keys : list string) : forall (d : row_dict) k,
  ~ In k (map Some keys) ->
  dict_get key_eqb
    (fold_left (fun d key => dict_set key_eqb d (Some key) CNone) keys d) k
  = dict_get key_eqb d k.
Proof.
  induction keys as [|key keys IH]; intros d k Hn; cbn [fold_left]; [reflexivity|].
  rewrite IH by (intros H; apply Hn; now right).
  rewrite (dict_get_set key_eqb key_eqb_eq).
  destruct (key_eqb k (Some key)) eqn:Hk; [|reflexivity].
  apply key_eqb_eq in Hk. subst k. exfalso. apply Hn. now left.
Qed.

Lemma fold_restval_in (keys : list string) : forall (d : row_dict) k v,
  In (k, v)
    (fold_left (fun d key => dict_set key_eqb d (Some key) CNone) keys d) ->
  (v = CNone /\ In k (map Some keys)) \/ In (k, v) d.
Proof.
  induction keys as [|key keys IH]; intros d k v H; cbn [fold_left] in H; [now right|].
  apply IH in H as [[-> H] | H]; [left; split; [reflexivity|now right]|].
  apply (in_dict_set key_eqb key_eqb_eq) in H as [[-> ->] | H];
    [left; split; [reflexivity|now left] | now right].
Qed.

(** Every cell of the line is found, as a string, under its field name. *)
Lemma dictreader_row_cell (header row : list string) i k c :
  NoDup header ->
  nth_error header i = Some k -> nth_error row i = Some c ->
  lookup (dictreader_row header row) (Some k) = Some (CStr c).
Proof.
  intros Hnd Hh Hr. unfold dictreader_row, lookup.
  destruct (Nat.ltb (length header) (length row)) eqn:H1.
  - rewrite (dict_get_set key_eqb key_eqb_eq). cbn [key_eqb].
    now apply (lookup_zip header row [] i).
  - destruct (Nat.ltb (length row) (length header)) eqn:H2.
    + rewrite fold_restval_get; [now apply (lookup_zip header row [] i)|].
      intros Hin. apply in_map_iff in Hin as (x & [= ->] & Hx).
      apply (nth_error_skipn_NoDup header i (length row) k Hnd Hh); [|exact Hx].
      apply nth_error_Some. congruence.
    + now apply (lookup_zip header row [] i).
Qed.

(** A value is [None] only under a field name the line is too short for. *)
Lemma dictreader_row_none (header row : list string) k :
  In (k, CNone) (dictreader_row header row) ->
  (length row < length header)%nat
  /\ In k (map Some (skipn (length row) header)).
Proof.
  unfold dictreader_row.
  assert (Hzip : forall k,
            ~ In (k, CNone)
                (dict_update key_eqb []
                   (combine (map Some header) (map CStr row)))).
  { intros k0 H. apply (in_dict_update key_eqb key_eqb_eq) in H as [H | []].
    apply in_combine_r in H. apply in_map_iff in H as (x & Hx & _). discriminate. }
  destruct (Nat.ltb (length header) (length row)) eqn:H1.
  - intros H. apply (in_dict_set key_eqb key_eqb_eq) in H as [[_ H] | H];
      [discriminate | now apply Hzip in H].
  - destruct (Nat.ltb (length row) (length header)) eqn:H2.
    + intros H. apply fold_restval_in in H as [[_ H] | H];
        [|now apply Hzip in H].
      split; [now apply Nat.ltb_lt | exact H].
    + intros H. now apply Hzip in H.
Qed.

Lemma cleaned_row_no_empty (p : row_dict) k v :
  In (k, v) (cleaned_row p) -> v <> CStr "".
Proof.
  unfold cleaned_row. intros H. apply in_map_iff in H as ([k0 v0] & [= <- <-] & _).
  cbn. destruct v0 as [[|? ?]| |]; discriminate.
Qed.

Lemma cleaned_row_empty_to_none (p : row_dict) k :
  In (k, CStr "") p -> In (k, CNone) (cleaned_row p).
Proof.
  unfold cleaned_row. intros H. apply in_map_iff. now exists (k, CStr "").
Qed.

(** C10, as amended. [parse_csv_string_to_records] returns no record, or
    the rows [DictReader] builds from the header and the non-empty records
    of the text; with distinct field names every cell of a line, an empty
    one included, is found as a string under its field name; a [None] value
    occurs only under a field name for which the line is too short to have
    a cell; and the rows the CSV branch of [read_file_data_for_bulk] returns
    hold no empty string, each one having been replaced by [None]. *)
Theorem parse_keeps_cells_as_strings :
  (forall s parsed,
      parse_csv_string_to_records s = Ret parsed ->
      parsed = []
      \/ exists header rows,
           reader s = Ret (header :: rows)
           /\ parsed = map (dictreader_row header)
                         (filter (fun row => negb (is_empty_row row)) rows))
  /\ (forall header row i k c,
        NoDup header ->
        nth_error header i = Some k -> nth_error row i = Some c ->
        lookup (dictreader_row header row) (Some k) = Some (CStr c))
  /\ (forall header row k,
        In (k, CNone) (dictreader_row header row) ->
        (length row < length header)%nat
        /\ In k (map Some (skipn (length row) header)))
  /\ (forall s rows p k v,
        read_file_data_for_bulk_csv s = Ret rows -> In p rows -> In (k, v) p ->
        v <> CStr "")
  /\ (forall p k, In (k, CStr "") p -> In (k, CNone) (cleaned_row p)).
Proof.
  repeat split.
  - intros s parsed. unfold parse_csv_string_to_records, DictReader.
    destruct (strip_is_empty s); [intros [= <-]; now left|].
    destruct (reader s) as [[|header rows]|e]; [intros [= <-]; now left | | discriminate].
    intros [= <-]. right. now exists header, rows.
  - intros. eapply dictreader_row_cell; eauto.
  - now apply dictreader_row_none in H.
  - now apply dictreader_row_none in H.
  - intros s rows p k v. unfold read_file_data_for_bulk_csv.
    destruct (DictReader s) as [rs|e]; [|discriminate].
    intros [= <-] Hp Hin. apply in_map_iff in Hp as (p0 & <- & _).
    now apply cleaned_row_no_empty in Hin.
  - intros. now apply cleaned_row_empty_to_none.
Qed.

End CsvFacts.

(** *** Examples, counterexamples and witnesses *)

Section CsvExamples.
Import Py Csv DataHandler.
Local Open Scope string_scope.

Ltac readable :=
  split; [unfold field_limit; cbn; lia | cbn; intros H; try discriminate H; reflexivity].





(** C10 as the specification words it fails: a line shorter than the header
    gives a [None] value. *)
Lemma parse_none_counterexample :
  exists p,
    parse_csv_string_to_records ("a,b" ++ NL ++ "1" ++ NL) = Ret [p]
    /\ has_none_value p = true.
Proof. eexists. split; reflexivity. Qed.

Example parse_empty_cells :
  parse_csv_string_to_records ("Id,Name" ++ NL ++ "1," ++ NL ++ ",NoName")
  = Ret [[(Some "Id", CStr "1"); (Some "Name", CStr "")];
         [(Some "Id", CStr ""); (Some "Name", CStr "NoName")]].
Proof. reflexivity. Qed.

Example read_file_empty_cells :
  read_file_data_for_bulk_csv ("Name,Value" ++ NL ++ "A,1" ++ NL ++ "B,")
  = Ret [[(Some "Name", CStr "A"); (Some "Value", CStr "1")];
         [(Some "Name", CStr "B"); (Some "Value", CNone)]].
Proof. reflexivity. Qed.

Lemma parse_keeps_cells_as_strings_witness :
  lookup (dictreader_row ["Id"; "Name"] ["1"; ""]) (Some "Name")
  = Some (CStr "").
Proof.
  apply (proj1 (proj2 parse_keeps_cells_as_strings)
           ["Id"; "Name"] ["1"; ""] 1%nat "Name" "").
  - repeat constructor; cbn; intuition discriminate.
  - reflexivity.
  - reflexivity.
Defined.

End CsvExamples.

(** ** The token cache ([salesforce/auth.py]) *)

Section AuthFacts.
Import Py Auth.
Local Open Scope string_scope.
Local Open Scope Z_scope.
Variable env : environment.

Lemma authenticate_finish_success answer w w' :
  authenticate_finish answer w = (Ret tt, w') ->
  exists access_token instance_url ms,
    answer = TokenJson (Some access_token) (Some instance_url) (Some ms)
    /\ truthy access_token = true /\ truthy instance_url = true
    /\ cache w' = {| _access_token := Some access_token;
                     _instance_url := Some instance_url;
                     _token_expiry := Some (ms + 1000 * (2 * 60 * 60));
                     _issued_at := Some ms |}
    /\ token_requests w' = token_requests w
    /\ clock_reads w' = clock_reads w.
Proof.
  destruct answer as [n | st d e | tok url issued]; cbn; try discriminate.
  destruct issued as [ms|]; cbn; [|discriminate].
  destruct tok as [tok|], url as [url|]; cbn; try discriminate.
  - destruct (truthy tok) eqn:Ht, (truthy url) eqn:Hu; cbn; try discriminate.
    intros [= <-]. exists tok, url, ms. cbn. repeat split; auto.
  - destruct (truthy tok); discriminate.
Qed.

Lemma authenticate_success w w' :
  authenticate env w = (Ret tt, w') -> both_present (cache w').
Proof.
  unfold authenticate, bind, post_token. intros H.
  apply authenticate_finish_success in H
    as (tok & url & ms & _ & Ht & Hu & Hc & _).
  exists tok, url. rewrite Hc. cbn. auto.
Qed.

Lemma return_auth_details_success w p w' :
  return_auth_details w = (Ret p, w') ->
  w' = w
  /\ _access_token (cache w) = Some (fst p)
  /\ _instance_url (cache w) = Some (snd p)
  /\ truthy (fst p) = true /\ truthy (snd p) = true.
Proof.
  unfold return_auth_details, bind, gets.
  destruct (_access_token (cache w)) as [tok|]; [|discriminate].
  destruct (_instance_url (cache w)) as [url|]; [|discriminate].
  destruct (truthy tok) eqn:Ht, (truthy url) eqn:Hu; cbn; try discriminate.
  intros [= <- <-]. cbn. auto.
Qed.

(** C5, as amended. Whenever [authenticate], [get_auth_details] or
    [handle_401_unauthorized] returns normally, whatever the cache held
    before, the cache holds both a non-empty access token and a non-empty
    instance URL, and [get_auth_details] returns that very pair; the cache
    the class starts with holds neither. (Nothing is said of the cache after
    an operation that raises.) *)
Theorem token_pair_complete_after_success (w : world) :
  (forall w', authenticate env w = (Ret tt, w') -> both_present (cache w'))
  /\ (forall p w',
        get_auth_details env w = (Ret p, w') ->
        _access_token (cache w') = Some (fst p)
        /\ _instance_url (cache w') = Some (snd p)
        /\ truthy (fst p) = true /\ truthy (snd p) = true)
  /\ (forall w',
        handle_401_unauthorized env w = (Ret tt, w') ->
        both_present (cache w'))
  /\ consistent unauthenticated = true.
Proof.
  split; [|split; [|split]].
  - apply authenticate_success.
  - intros p w'. unfold get_auth_details. unfold bind at 1.
    destruct (needs_authentication env w) as [[needed|e] w1]; [|discriminate].
    unfold bind at 1.
    destruct needed.
    + destruct (authenticate env w1) as [[[]|e] w2]; [|discriminate].
      intros H. apply return_auth_details_success in H as (-> & H). exact H.
    + cbn [ret]. intros H.
      apply return_auth_details_success in H as (-> & H). exact H.
  - intros w'. unfold handle_401_unauthorized. unfold bind at 1.
    destruct (invalidate w) as [[[]|e] w1]; [|discriminate].
    apply authenticate_success.
  - reflexivity.
Qed.

End AuthFacts.

Section AuthExamples.
Import Py Auth.
Local Open Scope string_scope.

(** C5 as the specification words it fails after an operation that raises:
    [handle_401_unauthorized] clears the token, not the instance URL, before
    it authenticates, so an unreachable endpoint leaves the URL alone in the
    cache; and [authenticate] stores what a response holds before it checks
    it, so a response without instance URL leaves the token alone. *)
Lemma token_pair_counterexample :
  consistent (cache authenticated_world) = true
  /\ consistent
       (cache (snd (handle_401_unauthorized unreachable authenticated_world)))
     = false
  /\ consistent (cache (snd (authenticate truncated initial_world))) = false.
Proof. repeat split; reflexivity. Qed.

Lemma token_pair_complete_after_success_witness :
  snd (get_auth_details issuing initial_world) = authenticated_world
  /\ _access_token (cache authenticated_world) = Some "00Dxx!AQ4"
  /\ _instance_url (cache authenticated_world)
     = Some "https://na1.salesforce.com".
Proof.
  split; [reflexivity|].
  destruct (proj1 (proj2 (token_pair_complete_after_success issuing initial_world))
              ("00Dxx!AQ4", "https://na1.salesforce.com") authenticated_world
              eq_refl) as (Ht & Hu & _).
  split; [exact Ht | exact Hu].
Defined.

End AuthExamples.

(** *** Concurrent callers *)

Section EventLoopFacts.
Import Py Auth.
Local Open Scope string_scope.

Lemma nth_error_set_nth_eq {A} (l : list A) : forall i x c,
  nth_error l i = Some c -> nth_error (set_nth i x l) i = Some x.
Proof.
  induction l as [|y l IH]; intros [|i] x c H; cbn in *; try discriminate; eauto.
Qed.

Lemma nth_error_set_nth_neq {A} (l : list A) : forall i j x,
  i <> j -> nth_error (set_nth i x l) j = nth_error l j.
Proof.
  induction l as [|y l IH]; intros [|i] [|j] x H; cbn; try reflexivity;
    try congruence.
  apply IH. congruence.
Qed.

Lemma length_set_nth {A} (l : list A) : forall i x,
  length (set_nth i x l) = length l.
Proof. induction l as [|y l IH]; intros [|i] x; cbn; auto. Qed.

Lemma Forall_set_nth {A} (P : A -> Prop) (l : list A) : forall i x,
  Forall P l -> P x -> Forall P (set_nth i x l).
Proof.
  induction l as [|y l IH]; intros [|i] x Hl Hx; cbn; auto;
    inversion Hl; subst; constructor; auto.
Qed.

Lemma Forall_nth_error {A} (P : A -> Prop) (l : list A) i c :
  Forall P l -> nth_error l i = Some c -> P c.
Proof.
  intros H Hn. apply nth_error_In in Hn. rewrite Forall_forall in H. auto.
Qed.

Lemma not_all_returned (l : list caller) :
  forallb is_returned l = false ->
  exists i c, nth_error l i = Some c /\ is_returned c = false.
Proof.
  induction l as [|c l IH]; cbn; [discriminate|].
  destruct (is_returned c) eqn:Hc; cbn.
  - intros H. destruct (IH H) as (i & c' & Hi & Hc'). now exists (S i), c'.
  - intros _. now exists 0%nat, c.
Qed.

Section SingleFlight.
Import Py Auth.
Local Open Scope string_scope.
Local Open Scope Z_scope.
Variable env : environment.
Variables (access_token instance_url : string) (issued_at : Z).
Variable w0 : world.

Hypothesis nothing_cached : cache w0 = unauthenticated.
Hypothesis answer_complete :
  token_endpoint env (token_requests w0)
  = TokenJson (Some access_token) (Some instance_url) (Some issued_at).
Hypothesis token_not_empty : truthy access_token = true.
Hypothesis url_not_empty : truthy instance_url = true.
Hypothesis token_stays_fresh :
  forall k,
    utcnow env k
    < issued_at + 1000 * (2 * 60 * 60)
      - 1000 * SALESFORCE_TOKEN_REFRESH_BUFFER env.

Local Abbreviation answer0 :=
  (complete_answer access_token instance_url issued_at).
Local Abbreviation good := (cached access_token instance_url issued_at).
Local Abbreviation inv :=
  (single_flight_inv w0 access_token instance_url issued_at).

Lemma enter_nothing_cached w :
  cache w = unauthenticated ->
  get_auth_details_enter env w
  = (Awaiting (token_endpoint env (token_requests w)),
     {| cache := cache w; token_requests := S (token_requests w);
        clock_reads := clock_reads w |}).
Proof.
  destruct w as [c r k]. cbn [cache token_requests clock_reads]. intros ->.
  reflexivity.
Qed.

Lemma resume_answer0 w :
  get_auth_details_resume answer0 w
  = (Ret (access_token, instance_url),
     {| cache := good; token_requests := token_requests w;
        clock_reads := clock_reads w |}).
Proof.
  destruct w as [c r k].
  unfold get_auth_details_resume, complete_answer, cached, authenticate_finish, bind, set_cache,
    modify. cbn. rewrite token_not_empty, url_not_empty. cbn.
  unfold return_auth_details, bind, gets. cbn.
  now rewrite token_not_empty, url_not_empty.
Qed.

Lemma enter_good w :
  cache w = good ->
  get_auth_details_enter env w
  = (Finished (Ret (access_token, instance_url)),
     {| cache := cache w; token_requests := token_requests w;
        clock_reads := S (clock_reads w) |}).
Proof.
  destruct w as [c r k]. cbn [cache token_requests clock_reads]. intros ->.
  pose proof (token_stays_fresh k) as Hfresh.
  unfold cached, get_auth_details_enter, needs_authentication,
    _is_token_expired, bind, gets, datetime_utcnow, return_auth_details, ret.
  cbn -[Z.mul Z.add Z.sub Z.leb]. rewrite token_not_empty.
  cbn -[Z.mul Z.add Z.sub Z.leb].
  match goal with
  | |- context [(?a <=? ?b)%Z] => destruct (Z.leb_spec a b) as [Hle|Hlt]
  end; [lia|].
  cbn -[Z.mul Z.add Z.sub Z.leb].
  rewrite ?token_not_empty, ?url_not_empty.
  cbn -[Z.mul Z.add Z.sub Z.leb].
  rewrite ?token_not_empty, ?url_not_empty. reflexivity.
Qed.

Lemma inv_init n : inv n (concurrent_calls w0 n).
Proof.
  split; [apply repeat_length|]. left. repeat split.
  apply Forall_forall. intros c Hc. apply repeat_spec in Hc. now subst.
Qed.

Lemma inv_step n s s' : inv n s -> step env s s' -> inv n s'.
Proof.
  intros [Hlen Hinv] Hstep.
  destruct Hstep as [s i Hi Hlock | s i answer Hi];
    (split; [cbn; now rewrite length_set_nth|]).
  - destruct Hinv as [(_ & Hw & Hall) | [(Hl & _) | (_ & Hc & Hreq & Hall)]].
    + right; left. rewrite enter_nothing_cached by (rewrite Hw; exact nothing_cached).
      cbn. rewrite Hw, answer_complete. repeat split; auto.
      exists i. split.
      * eapply nth_error_set_nth_eq; eauto.
      * intros j c Hj Hc. rewrite nth_error_set_nth_neq in Hc by congruence.
        symmetry. eapply (Forall_nth_error (eq Ready)); eauto.
    + congruence.
    + right; right. rewrite enter_good by exact Hc. cbn. repeat split; auto.
      apply Forall_set_nth; auto.
  - destruct Hinv as [(_ & _ & Hall) | [(_ & Hc & Hreq & j & Hj & Hothers)
                                       | (_ & _ & _ & Hall)]].
    + apply (Forall_nth_error _ _ _ _ Hall) in Hi. discriminate.
    + assert (i = j).
      { destruct (Nat.eq_dec i j) as [|Hne]; [assumption|].
        specialize (Hothers i _ Hne Hi). discriminate. }
      subst j. rewrite Hj in Hi. injection Hi as <-.
      right; right. rewrite resume_answer0. cbn. repeat split; auto.
      apply Forall_forall. intros c Hc'.
      apply In_nth_error in Hc' as (k & Hk).
      destruct (Nat.eq_dec i k) as [<-|Hne].
      * erewrite nth_error_set_nth_eq in Hk by eauto. injection Hk as <-. now right.
      * rewrite nth_error_set_nth_neq in Hk by exact Hne.
        left. eapply Hothers; eauto.
    + apply (Forall_nth_error _ _ _ _ Hall) in Hi. destruct Hi; discriminate.
Qed.

Lemma inv_steps n s : steps env (concurrent_calls w0 n) s -> inv n s.
Proof.
  intros H. remember (concurrent_calls w0 n) as s0 eqn:Hs0.
  induction H as [s|s1 s2 s3 _ IH Hstep].
  - subst. apply inv_init.
  - eapply inv_step; eauto.
Qed.


End SingleFlight.

(** Run without interleaving, the two parts make up [get_auth_details]. *)
Lemma get_auth_details_phases env w :
  get_auth_details env w
  = match get_auth_details_enter env w with
    | (Awaiting answer, w1) => get_auth_details_resume answer w1
    | (Finished result, w1) => (result, w1)
    end.
Proof.
  unfold get_auth_details, get_auth_details_enter, bind at 1.
  destruct (needs_authentication env w) as [[[|]|e] w1]; cbn [ret].
  - unfold bind, authenticate, bind, post_token, get_auth_details_resume.
    destruct (authenticate_finish _ _) as [[[]|e] w2]; reflexivity.
  - unfold bind. change (ret tt w1) with (@Ret exn unit tt, w1). cbv iota beta.
    apply surjective_pairing.
  - reflexivity.
Qed.

Lemma work_set_nth (l : list caller) : forall i c c',
  nth_error l i = Some c ->
  (list_sum (map pending (set_nth i c' l)) + pending c
   = list_sum (map pending l) + pending c')%nat.
Proof.
  induction l as [|y l IH]; intros [|i] c c' H;
    unfold list_sum in *; cbn [set_nth map fold_right nth_error] in *;
    try discriminate.
  - injection H as ->. lia.
  - specialize (IH i c c' H). lia.
Qed.

(** Every step uses up some of the work left, so an execution of [n]
    callers has at most [2 * n] steps. *)
Lemma step_decreases_work env s s' :
  step env s s' -> (work s' < work s)%nat.
Proof.
  intros [s0 i Hi Hlock | s0 i answer Hi]; unfold work; cbn [callers].
  - pose proof (work_set_nth (callers s0) i Ready
                  match fst (get_auth_details_enter env (shared s0)) with
                  | Awaiting answer => Suspended answer
                  | Finished result => Returned result
                  end Hi) as H.
    destruct (fst (get_auth_details_enter env (shared s0))); cbn in H; lia.
  - pose proof (work_set_nth (callers s0) i (Suspended answer)
                  (Returned (fst (get_auth_details_resume answer (shared s0))))
                  Hi) as H.
    cbn in H. lia.
Qed.



End EventLoopFacts.

(** ** Bulk jobs ([salesforce/operations.py], [routers/bulk.py]) *)

Section BulkFacts.
Import Py Csv DataHandler Bulk.
Local Open Scope string_scope.
Variable sf : salesforce.

Lemma job_state_set w j s :
  dict_get String.eqb (dict_set String.eqb (jobs w) j s) j = Some s.
Proof.
  rewrite (dict_get_set String.eqb String.eqb_eq). now rewrite String.eqb_refl.
Qed.

Lemma length_sent (l : list request) r :
  length (l ++ [r])%list = S (length l).
Proof. rewrite length_app. cbn. lia. Qed.

(** C2, as amended. Let [perform_bulk_operation] be called with an empty
    list of records, the creation of the job returning a job id and a
    content URL. Then the call raises: it returns no job id. After the
    creation it sends a request to abort the job, and whatever it sends
    after that uploads no data and closes no job. When the first abort
    request is accepted the job ends in state [Aborted]. All this holds for
    [shared/src/salesforce/operations.py] and, for the operations that
    upload data, for [src/salesforce/operations.py], where the error raised
    is then the status 400 of the missing records. *)
Theorem empty_batch_is_aborted (p : payload) (w : world) (j u : string) :
  records p = [] ->
  on_create_job sf (length (requests w))
  = Ret {| job_id := Some j; contentUrl := Some u |} ->
  truthy j = true -> truthy u = true ->
  (exists e w' more,
      shared_perform_bulk_operation sf p w = (Exc e, w')
      /\ requests w'
         = (requests w
            ++ CreateIngestJob (object_name p) (operation p)
                 (external_id_field p)
               :: UpdateJobState j "Aborted" :: more)%list
      /\ forallb harmless more = true
      /\ (on_update_state sf (S (length (requests w))) = Ret tt ->
          job_state w' j = Some "Aborted"))
  /\ (is_dml (operation p) = true ->
      exists e w' more,
        monolith_perform_bulk_operation sf p w = (Exc e, w')
        /\ requests w'
           = (requests w
              ++ CreateIngestJob (object_name p) (operation p)
                   (if String.eqb (operation p) "upsert"
                    then external_id_field p else None)
                 :: UpdateJobState j "Aborted" :: more)%list
        /\ forallb harmless more = true
        /\ (on_update_state sf (S (length (requests w))) = Ret tt ->
            job_state w' j = Some "Aborted"
            /\ e = HTTPException 400
                     "No records provided for bulk DML operation.")).
Proof.
  intros Hrec Hcreate Hj Hu. split.
  - unfold shared_perform_bulk_operation, bind at 1, try_except at 1,
      create_bulk_ingest_job.
    rewrite Hcreate. cbn [job_id contentUrl]. rewrite Hj, Hu, Hrec.
    cbn [andb convert_records_to_csv_string strip_is_empty].
    unfold try_except, bind at 1, update_bulk_job_state at 1.
    cbn [requests jobs]. rewrite length_sent.
    destruct (on_update_state sf (S (length (requests w)))) as [[]|e1] eqn:H1.
    + (* the abort is accepted; the handler aborts once more *)
      unfold raise, shared_handler, abort_if_created. rewrite Hj.
      unfold bind, update_bulk_job_state. cbn [requests jobs].
      rewrite !length_sent.
      destruct (on_update_state sf (S (S (length (requests w))))) as [[]|e2];
        do 3 eexists; (split; [reflexivity|]); cbn [requests jobs];
        rewrite <- !app_assoc; cbn [app];
        (split; [reflexivity|]); (split; [reflexivity|]); intros _;
        unfold job_state; cbn [jobs]; rewrite ?job_state_set;
        apply (job_state_set {| requests := []; jobs := _ |}).
    + (* the abort fails; the handler tries again *)
      unfold shared_handler, abort_if_created. rewrite Hj.
      destruct e1 as [c d | c t m | m];
        unfold bind, update_bulk_job_state; cbn [requests jobs];
        rewrite !length_sent;
        destruct (on_update_state sf (S (S (length (requests w))))) as [[]|e2];
        do 3 eexists; (split; [reflexivity|]); cbn [requests jobs];
        rewrite <- !app_assoc; cbn [app];
        (split; [reflexivity|]); (split; [reflexivity|]); discriminate.
  - intros Hdml.
    unfold monolith_perform_bulk_operation, bind at 1, try_except at 1,
      create_bulk_ingest_job.
    rewrite Hcreate. cbn [job_id contentUrl]. rewrite Hj, Hu, Hdml, Hrec.
    cbn [andb].
    unfold try_except, bind at 1, bind at 1, update_bulk_job_state at 1.
    cbn [requests jobs]. rewrite length_sent.
    destruct (on_update_state sf (S (length (requests w)))) as [[]|e1] eqn:H1.
    + unfold raise, monolith_handler, try_abort, try_except, abort_if_created.
      rewrite Hj. unfold bind, update_bulk_job_state. cbn [requests jobs].
      rewrite !length_sent.
      destruct (on_update_state sf (S (S (length (requests w))))) as [[]|e2];
        do 3 eexists; (split; [reflexivity|]); cbn [requests jobs];
        rewrite <- !app_assoc; cbn [app];
        (split; [reflexivity|]); (split; [reflexivity|]); intros _;
        (split; [|reflexivity]);
        unfold job_state; cbn [jobs]; rewrite ?job_state_set;
        apply (job_state_set {| requests := []; jobs := _ |}).
    + unfold monolith_handler, try_abort, try_except, abort_if_created.
      rewrite Hj.
      destruct e1 as [c d | c t m | m];
        unfold bind, update_bulk_job_state; cbn [requests jobs];
        rewrite !length_sent;
        destruct (on_update_state sf (S (S (length (requests w))))) as [[]|e2];
        do 3 eexists; (split; [reflexivity|]); cbn [requests jobs];
        rewrite <- !app_assoc; cbn [app];
        (split; [reflexivity|]); (split; [reflexivity|]); discriminate.
Qed.


(** When the creation of the job fails, no job exists and the failure is
    surfaced: the only request sent is the creation. *)
Lemma creation_failure_leaves_no_job (p : payload) (w : world) e :
  on_create_job sf (length (requests w)) = Exc e ->
  exists e',
    shared_perform_bulk_operation sf p w
    = (Exc e',
       {| requests := (requests w
                       ++ [CreateIngestJob (object_name p) (operation p)
                             (external_id_field p)])%list;
          jobs := jobs w |}).
Proof.
  intros H.
  unfold shared_perform_bulk_operation, bind at 1, try_except at 1,
    create_bulk_ingest_job.
  rewrite H. destruct e; eexists; reflexivity.
Qed.


End BulkFacts.

Section BulkExamples.
Import Py Csv DataHandler Bulk.
Local Open Scope string_scope.

(** C2 as the specification words it fails when the org cannot be reached
    after the creation of the job: both attempts to abort it fail, the error
    raised is theirs (status 503), and the job stays open. *)
Lemma empty_batch_counterexample :
  ~ rejected_and_none_open
      (monolith_perform_bulk_operation out_of_reach empty_insert empty_world).
Proof. intros [_ H]. apply (H "750xx01"). reflexivity. Qed.

Lemma empty_batch_is_aborted_witness :
  exists e w' more,
    monolith_perform_bulk_operation obliging empty_insert empty_world
    = (Exc e, w')
    /\ requests w'
       = (requests empty_world
          ++ CreateIngestJob "Account" "insert" None
             :: UpdateJobState "750xx01" "Aborted" :: more)%list
    /\ forallb harmless more = true
    /\ (on_update_state obliging 1 = Ret tt ->
        job_state w' "750xx01" = Some "Aborted"
        /\ e = HTTPException 400 "No records provided for bulk DML operation.").
Proof.
  apply (proj2 (empty_batch_is_aborted obliging empty_insert empty_world
                  "750xx01" "services/data/v58.0/jobs/ingest/750xx01/batches"
                  eq_refl eq_refl eq_refl eq_refl)).
  reflexivity.
Defined.

(** In [shared/src/salesforce/operations.py] the status 400 raised for the
    missing records is caught by the [except Exception] clause of the same
    function and raised again as a status 500. *)
Example shared_empty_batch_surfaces_500 :
  shared_perform_bulk_operation obliging empty_insert empty_world
  = (Exc (HTTPException 500 "400: No records to process."),
     {| requests := [CreateIngestJob "Account" "insert" None;
                     UpdateJobState "750xx01" "Aborted";
                     UpdateJobState "750xx01" "Aborted"];
        jobs := [("750xx01", "Aborted")] |}).
Proof. reflexivity. Qed.


End BulkExamples.

(** ** Single-record operations ([salesforce_standard.py]) *)

Section StandardFacts.
Import Py Standard.
Local Open Scope Z_scope.

Variable sf : salesforce.

Lemma after_creates_0 w r : after_creates w r 0 [] = w.
Proof.
  destruct w; unfold after_creates; cbn. now rewrite !app_nil_r.
Qed.

Lemma after_creates_step w r k slept d :
  after_creates
    {| creates := creates w ++ [r]; updates := updates w;
       deletes := deletes w; sleeps := sleeps w ++ [d];
       clock_reads := clock_reads w; rand_draws := rand_draws w |}
    r k slept
  = after_creates w r (S k) (d :: slept).
Proof.
  unfold after_creates; cbn. now rewrite <- !app_assoc.
Qed.

Lemma linear_delays_S from k :
  linear_delays from (S k) = RETRY_DELAY * (from + 1) :: linear_delays (from + 1) k.
Proof.
  unfold linear_delays. cbn [seq map]. f_equal.
  rewrite <- seq_shift, map_map. apply map_ext. intros j. f_equal. lia.
Qed.

(** [k] failures that are not storage errors, each followed by a pause,
    take the loop [k] iterations further. *)
Lemma insert_loop_retries r max_attempts k :
  forall todo attempt w,
    (forall j, (j < k)%nat ->
       other_error (on_create sf (length (creates w) + j) r)) ->
    attempt + Z.of_nat k < max_attempts ->
    insert_loop sf r max_attempts (k + todo) attempt w
    = insert_loop sf r max_attempts todo (attempt + Z.of_nat k)
        (after_creates w r k (linear_delays attempt k)).
Proof.
  induction k as [|k IH]; intros todo attempt w Hfail Hlt.
  - cbn [Nat.add]. rewrite Z.add_0_r. unfold linear_delays; cbn.
    now rewrite after_creates_0.
  - destruct (Hfail 0%nat ltac:(lia)) as (e & He & Hns).
    rewrite Nat.add_0_r in He.
    cbn [Nat.add insert_loop].
    unfold bind at 1, insert_attempt, try_except, bind at 1, Account_create.
    rewrite He, Hns. unfold retry_or_give_up.
    replace (attempt <? max_attempts - 1) with true
      by (symmetry; apply Z.ltb_lt; lia).
    unfold bind, sleep, modify, ret. cbn [creates updates deletes sleeps clock_reads rand_draws].
    rewrite IH.
    + rewrite after_creates_step, linear_delays_S. f_equal. lia.
    + intros j Hj. cbn [creates]. rewrite length_app. cbn [length].
      replace (length (creates w) + 1 + j)%nat with (length (creates w) + S j)%nat by lia.
      apply Hfail. lia.
    + lia.
Qed.

Lemma after_creates_last w r k slept :
  {| creates := creates (after_creates w r k slept) ++ [r];
     updates := updates (after_creates w r k slept);
     deletes := deletes (after_creates w r k slept);
     sleeps := sleeps (after_creates w r k slept);
     clock_reads := clock_reads (after_creates w r k slept);
     rand_draws := rand_draws (after_creates w r k slept) |}
  = after_creates w r (S k) slept.
Proof.
  unfold after_creates; cbn. f_equal.
  rewrite <- app_assoc. f_equal. symmetry. apply repeat_cons.
Qed.

Lemma length_creates_after w r k slept :
  length (creates (after_creates w r k slept)) = (length (creates w) + k)%nat.
Proof. cbn. now rewrite length_app, repeat_length. Qed.

(** C7. For every record and every [max_attempts >= 1],
    [insert_with_retry] returns at once, with the storage-limit message
    and no response, on the first storage-limit error (after [k] other
    failures it has made exactly [k + 1] create calls); when every attempt
    raises another exception it makes exactly [max_attempts] create calls,
    sleeps [RETRY_DELAY * 1], [RETRY_DELAY * 2], ... between them, and
    returns the text of the last exception with no response. *)
Theorem insert_with_retry_policy (r : record) (max_attempts : Z) (w : world) :
  1 <= max_attempts ->
  (forall (k : nat) (e : string),
      Z.of_nat k < max_attempts ->
      (forall j, (j < k)%nat ->
         other_error (on_create sf (length (creates w) + j) r)) ->
      on_create sf (length (creates w) + k) r = Exc e ->
      str_in "STORAGE_LIMIT_EXCEEDED" e = true ->
      insert_with_retry sf r max_attempts w
      = (Ret (None, Some "Storage limit exceeded"),
         after_creates w r (S k) (linear_delays 0 k)))
  /\
  (forall e : string,
      (forall j, (j < Z.to_nat max_attempts)%nat ->
         other_error (on_create sf (length (creates w) + j) r)) ->
      on_create sf (length (creates w) + (Z.to_nat max_attempts - 1)) r = Exc e ->
      insert_with_retry sf r max_attempts w
      = (Ret (None, Some e),
         after_creates w r (Z.to_nat max_attempts)
           (linear_delays 0 (Z.to_nat max_attempts - 1)))).
Proof.
  intros Hmax. split.
  - intros k e Hk Hfail He Hst.
    unfold insert_with_retry.
    replace (Z.to_nat max_attempts) with (k + S (Z.to_nat max_attempts - S k))%nat by lia.
    rewrite insert_loop_retries by (auto; lia).
    cbn [insert_loop].
    unfold bind at 1, insert_attempt, try_except, bind at 1, Account_create.
    rewrite length_creates_after, He, Hst.
    unfold ret. now rewrite after_creates_last.
  - intros e Hfail He.
    unfold insert_with_retry.
    set (n := Z.to_nat max_attempts) in *.
    assert (Hn : (1 <= n)%nat) by (subst n; lia).
    replace n with ((n - 1) + 1)%nat at 1 by lia.
    rewrite insert_loop_retries.
    + cbn [insert_loop].
      unfold bind at 1, insert_attempt, try_except, bind at 1, Account_create.
      rewrite length_creates_after, He.
      destruct (Hfail (n - 1)%nat ltac:(lia)) as (e' & He' & Hns).
      rewrite He in He'. injection He' as <-. rewrite Hns.
      unfold retry_or_give_up.
      replace (0 + Z.of_nat (n - 1) <? max_attempts - 1) with false
        by (symmetry; apply Z.ltb_ge; subst n; lia).
      unfold ret. rewrite after_creates_last.
      replace (S (n - 1)) with n by lia. reflexivity.
    + intros j Hj. apply Hfail. lia.
    + subst n. lia.
Qed.

Lemma after_deletes_0 w i : after_deletes w i 0 [] = w.
Proof.
  destruct w; unfold after_deletes; cbn. now rewrite !app_nil_r.
Qed.

Lemma after_deletes_step w i k slept d :
  after_deletes
    {| creates := creates w; updates := updates w;
       deletes := deletes w ++ [i]; sleeps := sleeps w ++ [d];
       clock_reads := clock_reads w; rand_draws := rand_draws w |}
    i k slept
  = after_deletes w i (S k) (d :: slept).
Proof.
  unfold after_deletes; cbn. now rewrite <- !app_assoc.
Qed.

Lemma after_deletes_last w i k slept :
  {| creates := creates (after_deletes w i k slept);
     updates := updates (after_deletes w i k slept);
     deletes := deletes (after_deletes w i k slept) ++ [i];
     sleeps := sleeps (after_deletes w i k slept);
     clock_reads := clock_reads (after_deletes w i k slept);
     rand_draws := rand_draws (after_deletes w i k slept) |}
  = after_deletes w i (S k) slept.
Proof.
  unfold after_deletes; cbn. f_equal.
  rewrite <- app_assoc. f_equal. symmetry. apply repeat_cons.
Qed.

(** In [delete_record_by_id] every exception, whatever its text, is
    followed by a pause and another attempt while attempts remain. *)
Lemma delete_loop_retries record_id max_attempts k :
  forall todo attempt w,
    (forall j, (j < k)%nat ->
       exists e, on_delete sf (length (deletes w) + j) record_id = Exc e) ->
    attempt + Z.of_nat k < max_attempts ->
    delete_loop sf record_id max_attempts (k + todo) attempt w
    = delete_loop sf record_id max_attempts todo (attempt + Z.of_nat k)
        (after_deletes w record_id k (linear_delays attempt k)).
Proof.
  induction k as [|k IH]; intros todo attempt w Hfail Hlt.
  - cbn [Nat.add]. rewrite Z.add_0_r. unfold linear_delays; cbn.
    now rewrite after_deletes_0.
  - destruct (Hfail 0%nat ltac:(lia)) as (e & He).
    rewrite Nat.add_0_r in He.
    cbn [Nat.add delete_loop].
    unfold bind at 1, delete_attempt, try_except, bind at 1, Account_delete.
    rewrite He. unfold retry_or_give_up.
    replace (attempt <? max_attempts - 1) with true
      by (symmetry; apply Z.ltb_lt; lia).
    unfold bind, sleep, modify, ret.
    cbn [creates updates deletes sleeps clock_reads rand_draws].
    rewrite IH.
    + rewrite after_deletes_step, linear_delays_S. f_equal. lia.
    + intros j Hj. cbn [deletes]. rewrite length_app. cbn [length].
      replace (length (deletes w) + 1 + j)%nat
        with (length (deletes w) + S j)%nat by lia.
      apply Hfail. lia.
    + lia.
Qed.

(** [update_record_by_id] stops at the first "entity is deleted" error: at
    any iteration of its loop, such an error ends the call with one more
    update call and no pause. *)
Lemma update_loop_entity_deleted record_id data max_attempts todo attempt w e :
  on_update sf (length (updates w)) record_id data = Exc e ->
  str_in "ENTITY_IS_DELETED" e = true ->
  update_loop sf record_id data max_attempts (S todo) attempt w
  = (Ret (false, Some "Entity is deleted"),
     after_updates w record_id data 1 []).
Proof.
  intros He Hdel. cbn [update_loop].
  unfold bind at 1, update_attempt, try_except, bind at 1, Account_update.
  rewrite He, Hdel. unfold ret, after_updates. cbn. now rewrite app_nil_r.
Qed.

(** C9 (the deletion path). When every call of [sf.Account.delete] raises
    the same exception [e], an "entity is deleted" error included,
    [delete_record_by_id] does not stop at the first one: it calls delete
    [max_attempts] times, sleeping [RETRY_DELAY * 1], [RETRY_DELAY * 2], ...
    in between, and only then returns [(False, str(e))]. *)
Theorem delete_record_by_id_retries_deleted_entity
    (record_id e : string) (max_attempts : Z) (w : world) :
  1 <= max_attempts ->
  str_in "ENTITY_IS_DELETED" e = true ->
  (forall n, on_delete sf n record_id = Exc e) ->
  delete_record_by_id sf record_id max_attempts w
  = (Ret (false, Some e),
     after_deletes w record_id (Z.to_nat max_attempts)
       (linear_delays 0 (Z.to_nat max_attempts - 1))).
Proof.
  intros Hmax _ Hdel. unfold delete_record_by_id.
  set (n := Z.to_nat max_attempts) in *.
  assert (Hn : (1 <= n)%nat) by (subst n; lia).
  replace n with ((n - 1) + 1)%nat at 1 by lia.
  rewrite delete_loop_retries.
  - cbn [delete_loop].
    unfold bind at 1, delete_attempt, try_except, bind at 1, Account_delete.
    rewrite Hdel. unfold retry_or_give_up.
    replace (0 + Z.of_nat (n - 1) <? max_attempts - 1) with false
      by (symmetry; apply Z.ltb_ge; subst n; lia).
    unfold ret. rewrite after_deletes_last.
    replace (S (n - 1)) with n by lia. reflexivity.
  - intros j _. eauto.
  - subst n. lia.
Qed.

End StandardFacts.

Lemma delete_record_by_id_retries_deleted_entity_witness :
  Standard.delete_record_by_id Standard.entity_deleted_org "001xx0000001" 3
    Standard.empty_world
  = (Py.Ret (false, Some "ENTITY_IS_DELETED: entity is deleted"),
     Standard.after_deletes Standard.empty_world "001xx0000001" 3
       (Standard.linear_delays 0 2)).
Proof.
  apply (delete_record_by_id_retries_deleted_entity
           Standard.entity_deleted_org "001xx0000001"
           "ENTITY_IS_DELETED: entity is deleted" 3 Standard.empty_world).
  - lia.
  - reflexivity.
  - intros n. reflexivity.
Defined.

(** The same org answers [update_record_by_id] at once: one update call, no
    pause. *)
Example update_record_by_id_deleted_entity :
  Standard.update_record_by_id Standard.entity_deleted_org "001xx0000001"
    Standard.acme 3 Standard.empty_world
  = (Py.Ret (false, Some "Entity is deleted"),
     Standard.after_updates Standard.empty_world "001xx0000001" Standard.acme
       1 []).
Proof. reflexivity. Qed.

(** C8 (the defect). With two records in one chunk, the first inserted
    successfully and the second hitting the storage limit,
    [batch_insert_data] returns the first record among the successes and
    marks as failed the second record, then the first record (already
    inserted), then the second record again: [records[i:]] starts at the
    beginning of the chunk, not after the record that failed. No create call
    is repeated. *)
Theorem batch_insert_data_marks_chunk_start :
  exists successful failed w,
    Standard.batch_insert_data Standard.nearly_full_org
      [Standard.acme; Standard.globex] Standard.empty_world
    = (Py.Ret (successful, failed), w)
    /\ map (fun d => Py.get d "id") successful
       = [Some (Py.VStr "001ACME")]
    /\ map Standard.fr_record failed
       = [Standard.globex; Standard.acme; Standard.globex]
    /\ map Standard.fr_error failed
       = ["Storage limit exceeded"; "Storage limit exceeded";
          "Storage limit exceeded"]
    /\ Standard.creates w
       = [[("Name", Py.VStr "Test_Storage_Check_1000")];
          Standard.acme; Standard.globex].
Proof.
  do 3 eexists. split; [vm_compute; reflexivity|].
  repeat split; reflexivity.
Qed.

Lemma insert_with_retry_policy_witness :
  (1 <= 3)%Z
  /\ Standard.insert_with_retry
       (Standard.scripted [Py.Exc "ReadTimeout"; Py.Exc "STORAGE_LIMIT_EXCEEDED"] [] [])
       Standard.acme 3 Standard.empty_world
     = (Py.Ret (None, Some "Storage limit exceeded"),
        Standard.after_creates Standard.empty_world Standard.acme 2
          (Standard.linear_delays 0 1))
  /\ Standard.insert_with_retry
       (Standard.scripted [Py.Exc "ReadTimeout"; Py.Exc "Reset"; Py.Exc "Busy"] [] [])
       Standard.acme 3 Standard.empty_world
     = (Py.Ret (None, Some "Busy"),
        Standard.after_creates Standard.empty_world Standard.acme 3
          (Standard.linear_delays 0 2)).
Proof.
  split; [lia|]. split.
  - apply (proj1 (insert_with_retry_policy
                    (Standard.scripted
                       [Py.Exc "ReadTimeout"; Py.Exc "STORAGE_LIMIT_EXCEEDED"] [] [])
                    Standard.acme 3 Standard.empty_world ltac:(lia)) 1%nat
                 "STORAGE_LIMIT_EXCEEDED").
    + lia.
    + intros j Hj. assert (j = 0%nat) as -> by lia.
      exists "ReadTimeout". split; reflexivity.
    + reflexivity.
    + reflexivity.
  - apply (proj2 (insert_with_retry_policy
                    (Standard.scripted
                       [Py.Exc "ReadTimeout"; Py.Exc "Reset"; Py.Exc "Busy"] [] [])
                    Standard.acme 3 Standard.empty_world ltac:(lia)) "Busy").
    + intros j Hj.
      destruct j as [|[|[|j]]]; cbn in Hj; try lia;
        eexists; split; reflexivity.
    + reflexivity.
Defined.

(** ** The retry loops and the batch insert ([salesforce_standard.py]) *)

Section StandardBounds.
Import Py Standard StandardApp.
Local Open Scope Z_scope.
Variable sf : salesforce.

Lemma after_updates_0 w i d : after_updates w i d 0 [] = w.
Proof.
  destruct w; unfold after_updates; cbn. now rewrite !app_nil_r.
Qed.

Lemma after_updates_step w i data k slept d :
  after_updates
    {| creates := creates w; updates := updates w ++ [(i, data)];
       deletes := deletes w; sleeps := sleeps w ++ [d];
       clock_reads := clock_reads w; rand_draws := rand_draws w |}
    i data k slept
  = after_updates w i data (S k) (d :: slept).
Proof.
  unfold after_updates; cbn. now rewrite <- !app_assoc.
Qed.

Ltac finish :=
  repeat split; intros; try lia; try discriminate; cbn; eauto;
  try (eexists; split; [reflexivity|discriminate]).

(** The loop of [insert_with_retry] with [todo] iterations left, the next
    one being attempt number [attempt]. *)
Lemma insert_loop_bounded r m : forall todo attempt w,
  attempt + Z.of_nat todo = m ->
  exists c res,
    insert_loop sf r m todo attempt w
    = (Ret res, after_creates w r c (linear_delays attempt (c - 1)))
    /\ (c <= todo)%nat
    /\ (c = 0%nat <-> todo = 0%nat)
    /\ (forall j, (S j < c)%nat ->
          create_retried (on_create sf (length (creates w) + j) r))
    /\ (forall resp, fst res = Some resp ->
          (1 <= c)%nat
          /\ on_create sf (length (creates w) + (c - 1)) r = Ret resp
          /\ success resp = true /\ resp_id resp <> None /\ snd res = None)
    /\ (fst res = None ->
          exists e, snd res = Some e
                    /\ (e = "" ->
                        exists j, on_create sf (length (creates w) + j) r
                                  = Exc "")).
Proof.
  induction todo as [|todo IH]; intros attempt w Hm.
  - exists 0%nat, (None, Some "Max retry attempts reached"). cbn [insert_loop].
    unfold ret. rewrite after_creates_0. finish.
  - cbn [insert_loop].
    unfold bind at 1, insert_attempt, try_except, bind at 1, Account_create.
    set (w1 := {| creates := creates w ++ [r]; updates := updates w;
                  deletes := deletes w; sleeps := sleeps w;
                  clock_reads := clock_reads w; rand_draws := rand_draws w |}).
    assert (Hw1 : w1 = after_creates w r 1 []).
    { unfold w1, after_creates. cbn. now rewrite app_nil_r. }
    assert (Hretry : forall e,
      create_retried (on_create sf (length (creates w)) r) ->
      (e = "" -> on_create sf (length (creates w)) r = Exc "") ->
      exists c res,
        (s <- retry_or_give_up (fun e0 : string => (None, Some e0)) m attempt e ;;
         match s with
         | Return res => ret res
         | Continue => insert_loop sf r m todo (attempt + 1)
         end)%py w1
        = (Ret res, after_creates w r c (linear_delays attempt (c - 1)))
        /\ (c <= S todo)%nat /\ (c = 0%nat <-> S todo = 0%nat)
        /\ (forall j, (S j < c)%nat ->
              create_retried (on_create sf (length (creates w) + j) r))
        /\ (forall resp, fst res = Some resp ->
              (1 <= c)%nat
              /\ on_create sf (length (creates w) + (c - 1)) r = Ret resp
              /\ success resp = true /\ resp_id resp <> None /\ snd res = None)
        /\ (fst res = None ->
              exists e, snd res = Some e
                        /\ (e = "" ->
                            exists j, on_create sf (length (creates w) + j) r
                                      = Exc ""))).
    { intros e Hre Hempty. unfold retry_or_give_up.
      destruct (Z.ltb_spec attempt (m - 1)) as [Hlt|Hge].
      - unfold bind at 1. unfold bind at 1. unfold sleep, modify, ret at 1.
        cbn [creates updates deletes sleeps clock_reads rand_draws w1].
        destruct (IH (attempt + 1)
                    {| creates := creates w ++ [r]; updates := updates w;
                       deletes := deletes w;
                       sleeps := sleeps w ++ [RETRY_DELAY * (attempt + 1)];
                       clock_reads := clock_reads w;
                       rand_draws := rand_draws w |} ltac:(lia))
          as (c & res & Heq & Hc & Hc0 & Hprev & Hresp & Hnone).
        assert (Hc1 : (1 <= c)%nat).
        { destruct c; [|lia].
          assert (todo = 0%nat) by (apply Hc0; reflexivity). lia. }
        exists (S c), res. rewrite Heq. cbn [creates] in *.
        rewrite length_app in *. cbn [length] in *.
        split; [|split; [lia|split; [split; intros; lia|split; [|split]]]].
        + rewrite after_creates_step. f_equal. f_equal.
          replace (S c - 1)%nat with (S (c - 1)) by lia.
          now rewrite linear_delays_S.
        + intros j Hj. destruct j as [|j].
          * now rewrite Nat.add_0_r.
          * specialize (Hprev j ltac:(lia)).
            now replace (length (creates w) + S j)%nat
              with (length (creates w) + 1 + j)%nat by lia.
        + intros resp Hr. destruct (Hresp resp Hr) as (_ & Ho & Hs & Hi & Hn).
          repeat split; auto; try lia.
          now replace (length (creates w) + (S c - 1))%nat
            with (length (creates w) + 1 + (c - 1))%nat by lia.
        + intros Hn. destruct (Hnone Hn) as (e' & He' & Hemp).
          exists e'. split; [exact He'|]. intros E.
          destruct (Hemp E) as (j & Hj).
          exists (1 + j)%nat.
          now replace (length (creates w) + (1 + j))%nat
            with (length (creates w) + 1 + j)%nat by lia.
      - exists 1%nat, (None, Some e). unfold bind, ret. rewrite Hw1.
        cbn [Nat.sub linear_delays]. finish.
        exists e. split; [reflexivity|]. intros E. exists 0%nat.
        rewrite Nat.add_0_r. auto. }
    destruct (on_create sf (length (creates w)) r) as [resp|e] eqn:Ho.
    + destruct (success resp) eqn:Hs.
      * unfold getitem_id. destruct (resp_id resp) as [i|] eqn:Hi.
        -- exists 1%nat, (Some resp, None). unfold ret, bind. fold w1.
           rewrite Hw1. cbn [Nat.sub linear_delays fst snd].
           repeat split; intros; try lia; try discriminate.
           ++ rewrite Nat.add_0_r. now injection H as <-.
           ++ now injection H as <-.
           ++ injection H as <-. congruence.
        -- unfold raise. cbn [str_in String.prefix]. fold w1.
           apply Hretry; [cbn; auto|discriminate].
      * exists 1%nat, (None, Some "Insert failed"). unfold ret. fold w1.
        rewrite Hw1. cbn [Nat.sub linear_delays fst snd]. finish.
    + fold w1. destruct (str_in "STORAGE_LIMIT_EXCEEDED" e) eqn:Hst.
      * exists 1%nat, (None, Some "Storage limit exceeded"). unfold ret.
        rewrite Hw1. cbn [Nat.sub linear_delays fst snd]. finish.
      * apply Hretry; [exact Hst|]. now intros ->.
Qed.

(** X1. Whatever the org answers, [insert_with_retry] returns (it never
    raises) after at most [max_attempts] create calls, none at all when
    [max_attempts <= 0]; it has slept [RETRY_DELAY * 1], [RETRY_DELAY * 2],
    ... between consecutive calls and not after the last one; every call
    but the last was answered by a retryable failure; a response is
    returned only when the last call succeeded and carried an id, and then
    without an error text; otherwise an error text is returned. *)
Theorem insert_with_retry_bounded (r : record) (max_attempts : Z) (w : world) :
  exists c res,
    insert_with_retry sf r max_attempts w
    = (Ret res, after_creates w r c (linear_delays 0 (c - 1)))
    /\ (c <= Z.to_nat max_attempts)%nat
    /\ (c = 0%nat <-> max_attempts <= 0)
    /\ (forall j, (S j < c)%nat ->
          create_retried (on_create sf (length (creates w) + j) r))
    /\ (forall resp, fst res = Some resp ->
          on_create sf (length (creates w) + (c - 1)) r = Ret resp
          /\ success resp = true /\ resp_id resp <> None /\ snd res = None)
    /\ (fst res = None -> exists e, snd res = Some e).
Proof.
  unfold insert_with_retry.
  destruct (Z.leb_spec max_attempts 0) as [Hle|Hgt].
  - replace (Z.to_nat max_attempts) with 0%nat by lia.
    exists 0%nat, (None, Some "Max retry attempts reached"). cbn [insert_loop].
    unfold ret. rewrite after_creates_0. finish.
  - destruct (insert_loop_bounded r max_attempts (Z.to_nat max_attempts) 0 w
                ltac:(lia))
      as (c & res & Heq & Hc & Hc0 & Hprev & Hresp & Hnone).
    exists c, res. rewrite Heq.
    split; [reflexivity|]. split; [exact Hc|].
    split; [split; intros; [apply Hc0 in H|]; lia|].
    split; [exact Hprev|]. split.
    + intros resp Hr. destruct (Hresp resp Hr) as (_ & ?). tauto.
    + intros Hn. destruct (Hnone Hn) as (e & He & _). eauto.
Qed.

(** The loop of [update_record_by_id]. *)
Lemma update_loop_bounded i data m : forall todo attempt w,
  attempt + Z.of_nat todo = m ->
  exists c res,
    update_loop sf i data m todo attempt w
    = (Ret res, after_updates w i data c (linear_delays attempt (c - 1)))
    /\ (c <= todo)%nat
    /\ (c = 0%nat <-> todo = 0%nat)
    /\ (forall j, (S j < c)%nat ->
          update_retried (on_update sf (length (updates w) + j) i data))
    /\ (fst res = true ->
          (1 <= c)%nat
          /\ on_update sf (length (updates w) + (c - 1)) i data = Ret 204
          /\ snd res = None)
    /\ (fst res = false -> exists e, snd res = Some e)
    /\ ((1 <= c)%nat ->
        on_update sf (length (updates w) + (c - 1)) i data = Ret 204 ->
        fst res = true).
Proof.
  induction todo as [|todo IH]; intros attempt w Hm.
  - exists 0%nat, (false, Some "Max retry attempts reached"). cbn [update_loop].
    unfold ret. rewrite after_updates_0. finish.
  - cbn [update_loop].
    unfold bind at 1, update_attempt, try_except, bind at 1, Account_update.
    set (w1 := {| creates := creates w; updates := updates w ++ [(i, data)];
                  deletes := deletes w; sleeps := sleeps w;
                  clock_reads := clock_reads w; rand_draws := rand_draws w |}).
    assert (Hw1 : w1 = after_updates w i data 1 []).
    { unfold w1, after_updates. cbn. now rewrite app_nil_r. }
    destruct (on_update sf (length (updates w)) i data) as [response|e] eqn:Ho.
    + destruct (Z.eqb_spec response 204) as [->|Hne].
      * exists 1%nat, (true, None). unfold ret. fold w1. rewrite Hw1.
        cbn [Nat.sub linear_delays fst snd]. finish.
        now rewrite Nat.add_0_r.
      * eexists 1%nat, (false, Some _). unfold ret. fold w1. rewrite Hw1.
        cbn [Nat.sub linear_delays fst snd]. finish.
        rewrite Nat.add_0_r, Ho in H0. congruence.
    + fold w1. destruct (str_in "ENTITY_IS_DELETED" e) eqn:Hdel.
      * exists 1%nat, (false, Some "Entity is deleted"). unfold ret.
        rewrite Hw1. cbn [Nat.sub linear_delays fst snd]. finish.
        rewrite Nat.add_0_r, Ho in H0. discriminate.
      * unfold retry_or_give_up.
        destruct (Z.ltb_spec attempt (m - 1)) as [Hlt|Hge].
        -- unfold bind, sleep, modify, ret.
           cbn [creates updates deletes sleeps clock_reads rand_draws w1].
           destruct (IH (attempt + 1)
                       {| creates := creates w;
                          updates := updates w ++ [(i, data)];
                          deletes := deletes w;
                          sleeps := sleeps w ++ [RETRY_DELAY * (attempt + 1)];
                          clock_reads := clock_reads w;
                          rand_draws := rand_draws w |} ltac:(lia))
             as (c & res & Heq & Hc & Hc0 & Hprev & Hok & Hnone & Hconv).
           assert (Hc1 : (1 <= c)%nat).
           { destruct c; [|lia].
             assert (todo = 0%nat) by (apply Hc0; reflexivity). lia. }
           exists (S c), res. rewrite Heq. cbn [updates] in *.
           rewrite length_app in *. cbn [length] in *.
           replace (length (updates w) + (S c - 1))%nat
             with (length (updates w) + 1 + (c - 1))%nat by lia.
           split; [|split; [lia|split; [split; intros; lia|
                    split; [|split; [|split]]]]].
           ++ rewrite after_updates_step. f_equal. f_equal.
              replace (S c - 1)%nat with (S (c - 1)) by lia.
              now rewrite linear_delays_S.
           ++ intros j Hj. destruct j as [|j].
              ** rewrite Nat.add_0_r, Ho. exact Hdel.
              ** specialize (Hprev j ltac:(lia)).
                 now replace (length (updates w) + S j)%nat
                   with (length (updates w) + 1 + j)%nat by lia.
           ++ intros Hr. destruct (Hok Hr) as (_ & Hlast & Hn).
              repeat split; auto; lia.
           ++ exact Hnone.
           ++ intros _. now apply Hconv.
        -- exists 1%nat, (false, Some e). unfold bind, ret. rewrite Hw1.
           cbn [Nat.sub linear_delays]. finish.
           rewrite Nat.add_0_r, Ho in H0. discriminate.
Qed.

(** X2. Whatever the org answers, [update_record_by_id] returns after at
    most [max_attempts] update calls with the pauses [RETRY_DELAY * 1],
    [RETRY_DELAY * 2], ... between them; every call but the last raised an
    exception other than "entity is deleted"; it reports success exactly
    when the last call returned 204, and an error text otherwise. *)
Theorem update_record_by_id_bounded (record_id : string) (update_data : record)
    (max_attempts : Z) (w : world) :
  exists c res,
    update_record_by_id sf record_id update_data max_attempts w
    = (Ret res,
       after_updates w record_id update_data c (linear_delays 0 (c - 1)))
    /\ (c <= Z.to_nat max_attempts)%nat
    /\ (c = 0%nat <-> max_attempts <= 0)
    /\ (forall j, (S j < c)%nat ->
          update_retried
            (on_update sf (length (updates w) + j) record_id update_data))
    /\ (fst res = true <->
        (1 <= c)%nat
        /\ on_update sf (length (updates w) + (c - 1)) record_id update_data
           = Ret 204)
    /\ (fst res = true -> snd res = None)
    /\ (fst res = false -> exists e, snd res = Some e).
Proof.
  unfold update_record_by_id.
  destruct (Z.leb_spec max_attempts 0) as [Hle|Hgt].
  - replace (Z.to_nat max_attempts) with 0%nat by lia.
    exists 0%nat, (false, Some "Max retry attempts reached").
    cbn [update_loop]. unfold ret. rewrite after_updates_0. finish.
  - destruct (update_loop_bounded record_id update_data max_attempts
                (Z.to_nat max_attempts) 0 w ltac:(lia))
      as (c & res & Heq & Hc & Hc0 & Hprev & Hok & Hnone & Hconv).
    exists c, res. rewrite Heq.
    split; [reflexivity|]. split; [exact Hc|].
    split; [split; intros; [apply Hc0 in H|]; lia|].
    split; [exact Hprev|]. split; [|split; [|exact Hnone]].
    + split.
      * intros Hr. destruct (Hok Hr) as (? & ? & _). auto.
      * intros (? & ?). auto.
    + intros Hr. now destruct (Hok Hr) as (_ & _ & ?).
Qed.

(** The loop of [delete_record_by_id]. *)
Lemma delete_loop_bounded i m : forall todo attempt w,
  attempt + Z.of_nat todo = m ->
  exists c res,
    delete_loop sf i m todo attempt w
    = (Ret res, after_deletes w i c (linear_delays attempt (c - 1)))
    /\ (c <= todo)%nat
    /\ (c = 0%nat <-> todo = 0%nat)
    /\ (forall j, (S j < c)%nat ->
          delete_retried (on_delete sf (length (deletes w) + j) i))
    /\ (fst res = true ->
          (1 <= c)%nat
          /\ on_delete sf (length (deletes w) + (c - 1)) i = Ret 204
          /\ snd res = None)
    /\ (fst res = false -> exists e, snd res = Some e)
    /\ (delete_retried (on_delete sf (length (deletes w) + (c - 1)) i) ->
        c = todo)
    /\ ((1 <= c)%nat ->
        on_delete sf (length (deletes w) + (c - 1)) i = Ret 204 ->
        fst res = true).
Proof.
  induction todo as [|todo IH]; intros attempt w Hm.
  - exists 0%nat, (false, Some "Max retry attempts reached"). cbn [delete_loop].
    unfold ret. rewrite after_deletes_0. finish.
  - cbn [delete_loop].
    unfold bind at 1, delete_attempt, try_except, bind at 1, Account_delete.
    set (w1 := {| creates := creates w; updates := updates w;
                  deletes := deletes w ++ [i]; sleeps := sleeps w;
                  clock_reads := clock_reads w; rand_draws := rand_draws w |}).
    assert (Hw1 : w1 = after_deletes w i 1 []).
    { unfold w1, after_deletes. cbn. now rewrite app_nil_r. }
    destruct (on_delete sf (length (deletes w)) i) as [response|e] eqn:Ho.
    + destruct (Z.eqb_spec response 204) as [->|Hne].
      * exists 1%nat, (true, None). unfold ret. fold w1. rewrite Hw1.
        cbn [Nat.sub linear_delays fst snd]. finish.
        -- now rewrite Nat.add_0_r.
        -- rewrite Nat.add_0_r, Ho in H. destruct H.
      * eexists 1%nat, (false, Some _). unfold ret. fold w1. rewrite Hw1.
        cbn [Nat.sub linear_delays fst snd]. finish.
        -- rewrite Nat.add_0_r, Ho in H. destruct H.
        -- rewrite Nat.add_0_r, Ho in H0. congruence.
    + fold w1. unfold retry_or_give_up.
      destruct (Z.ltb_spec attempt (m - 1)) as [Hlt|Hge].
      * unfold bind, sleep, modify, ret.
        cbn [creates updates deletes sleeps clock_reads rand_draws w1].
        destruct (IH (attempt + 1)
                    {| creates := creates w; updates := updates w;
                       deletes := deletes w ++ [i];
                       sleeps := sleeps w ++ [RETRY_DELAY * (attempt + 1)];
                       clock_reads := clock_reads w;
                       rand_draws := rand_draws w |} ltac:(lia))
          as (c & res & Heq & Hc & Hc0 & Hprev & Hok & Hnone & Hlast & Hconv).
        assert (Hc1 : (1 <= c)%nat).
        { destruct c; [|lia].
          assert (todo = 0%nat) by (apply Hc0; reflexivity). lia. }
        exists (S c), res. rewrite Heq. cbn [deletes] in *.
        rewrite length_app in *. cbn [length] in *.
        replace (length (deletes w) + (S c - 1))%nat
          with (length (deletes w) + 1 + (c - 1))%nat by lia.
        split; [|split; [lia|split; [split; intros; lia|
                 split; [|split; [|split; [|split]]]]]].
        -- rewrite after_deletes_step. f_equal. f_equal.
           replace (S c - 1)%nat with (S (c - 1)) by lia.
           now rewrite linear_delays_S.
        -- intros j Hj. destruct j as [|j].
           ++ rewrite Nat.add_0_r, Ho. exact I.
           ++ specialize (Hprev j ltac:(lia)).
              now replace (length (deletes w) + S j)%nat
                with (length (deletes w) + 1 + j)%nat by lia.
        -- intros Hr. destruct (Hok Hr) as (_ & Hl & Hn). auto with arith.
        -- exact Hnone.
        -- intros Hr. f_equal. auto.
        -- intros _. now apply Hconv.
      * exists 1%nat, (false, Some e). unfold bind, ret. rewrite Hw1.
        cbn [Nat.sub linear_delays]. finish.
        rewrite Nat.add_0_r, Ho in H0. discriminate.
Qed.

(** X3. Whatever the org answers, [delete_record_by_id] returns after at
    most [max_attempts] delete calls with the pauses [RETRY_DELAY * 1],
    [RETRY_DELAY * 2], ... between them; every call but the last raised an
    exception; it reports success exactly when the last call returned 204,
    and an error text otherwise; when also the last call raised, all
    [max_attempts] attempts have been used. *)
Theorem delete_record_by_id_bounded (record_id : string) (max_attempts : Z)
    (w : world) :
  exists c res,
    delete_record_by_id sf record_id max_attempts w
    = (Ret res, after_deletes w record_id c (linear_delays 0 (c - 1)))
    /\ (c <= Z.to_nat max_attempts)%nat
    /\ (c = 0%nat <-> max_attempts <= 0)
    /\ (forall j, (S j < c)%nat ->
          delete_retried (on_delete sf (length (deletes w) + j) record_id))
    /\ (fst res = true <->
        (1 <= c)%nat
        /\ on_delete sf (length (deletes w) + (c - 1)) record_id = Ret 204)
    /\ (fst res = true -> snd res = None)
    /\ (fst res = false -> exists e, snd res = Some e)
    /\ ((1 <= c)%nat ->
        delete_retried
          (on_delete sf (length (deletes w) + (c - 1)) record_id) ->
        c = Z.to_nat max_attempts).
Proof.
  unfold delete_record_by_id.
  destruct (Z.leb_spec max_attempts 0) as [Hle|Hgt].
  - replace (Z.to_nat max_attempts) with 0%nat by lia.
    exists 0%nat, (false, Some "Max retry attempts reached").
    cbn [delete_loop]. unfold ret. rewrite after_deletes_0. finish.
  - destruct (delete_loop_bounded record_id max_attempts
                (Z.to_nat max_attempts) 0 w ltac:(lia))
      as (c & res & Heq & Hc & Hc0 & Hprev & Hok & Hnone & Hlast & Hconv).
    exists c, res. rewrite Heq.
    split; [reflexivity|]. split; [exact Hc|].
    split; [split; intros; [apply Hc0 in H|]; lia|].
    split; [exact Hprev|]. split; [|split; [|split; [exact Hnone|auto]]].
    + split.
      * intros Hr. destruct (Hok Hr) as (? & ? & _). auto.
      * intros (? & ?). auto.
    + intros Hr. now destruct (Hok Hr) as (_ & _ & ?).
Qed.

End StandardBounds.

Section BatchInsert.
Import Py Standard StandardApp.
Local Open Scope Z_scope.
Variable sf : salesforce.

Lemma interleaved_snoc_left {A} (x : A) l r m :
  interleaved l r m -> interleaved (l ++ [x]) r (m ++ [x]).
Proof.
  induction 1; cbn.
  - apply interleaved_left, interleaved_nil.
  - now apply interleaved_left.
  - now apply interleaved_right.
Qed.

Lemma interleaved_snoc_right {A} (x : A) l r m :
  interleaved l r m -> interleaved l (r ++ [x]) (m ++ [x]).
Proof.
  induction 1; cbn.
  - apply interleaved_right, interleaved_nil.
  - now apply interleaved_left.
  - now apply interleaved_right.
Qed.

Lemma interleaved_length {A} (l r m : list A) :
  interleaved l r m -> (length l + length r = length m)%nat.
Proof. induction 1; cbn; lia. Qed.

Lemma firstn_app_skipn {A} (l : list A) : forall i k,
  firstn i l ++ firstn k (skipn i l) = firstn (i + k) l.
Proof.
  induction l as [|x l IH]; intros i k.
  - now rewrite skipn_nil, !firstn_nil.
  - destruct i as [|i]; cbn [firstn skipn Nat.add app]; [reflexivity|].
    now rewrite IH.
Qed.

(** [FailedRecord(record, error)] reads the clock and nothing else. *)
Lemma failed_for_marks rs error : forall w,
  exists fs,
    failed_for sf rs error w
    = (Ret fs,
       {| creates := creates w; updates := updates w; deletes := deletes w;
          sleeps := sleeps w;
          clock_reads := (clock_reads w + length rs)%nat;
          rand_draws := rand_draws w |})
    /\ map fr_record fs = rs
    /\ Forall (fun f => fr_error f = error) fs.
Proof.
  induction rs as [|r rs IH]; intros w.
  - exists []. cbn. unfold ret. rewrite Nat.add_0_r. destruct w; auto.
  - cbn [failed_for].
    unfold bind at 1, new_FailedRecord, bind at 1, datetime_now, ret at 1.
    unfold bind at 1.
    destruct (IH {| creates := creates w; updates := updates w;
                    deletes := deletes w; sleeps := sleeps w;
                    clock_reads := S (clock_reads w);
                    rand_draws := rand_draws w |}) as (fs & Heq & Hrec & Herr).
    rewrite Heq. unfold ret. eexists. split; [|split].
    + cbn. f_equal. f_equal. lia.
    + cbn. now rewrite Hrec.
    + constructor; [reflexivity|exact Herr].
Qed.

Hypothesis texts_not_empty : forall n r, on_create sf n r <> Exc "".

(** [insert_with_retry] returns a response with an id and no error, or no
    response and an error text that is not empty. *)
Lemma insert_with_retry_result r m w :
  exists res w',
    insert_with_retry sf r m w = (Ret res, w')
    /\ ((exists resp, res = (Some resp, None) /\ resp_id resp <> None)
        \/ (exists e, res = (None, Some e) /\ e <> "")).
Proof.
  unfold insert_with_retry.
  destruct (Z.leb_spec m 0) as [Hle|Hgt].
  - replace (Z.to_nat m) with 0%nat by lia. cbn [insert_loop]. unfold ret.
    do 2 eexists. split; [reflexivity|]. right. eexists. split; [reflexivity|].
    discriminate.
  - destruct (insert_loop_bounded sf r m (Z.to_nat m) 0 w ltac:(lia))
      as (c & [response error] & Heq & _ & _ & _ & Hresp & Hnone).
    rewrite Heq. do 2 eexists. split; [reflexivity|].
    cbn [fst snd] in *. destruct response as [resp|].
    + left. exists resp. destruct (Hresp resp eq_refl) as (_ & _ & _ & Hi & ->).
      auto.
    + right. destruct (Hnone eq_refl) as (e & -> & Hemp). exists e.
      split; [reflexivity|]. intros E. destruct (Hemp E) as (j & Hj).
      now apply texts_not_empty in Hj.
Qed.

Lemma truthy_not_empty e : e <> "" -> truthy e = true.
Proof. destruct e; [congruence|reflexivity]. Qed.

Lemma insert_batch_accounts records i : forall batch s f w inserted done,
  Forall2 success_of inserted s ->
  interleaved inserted (map fr_record f) done ->
  exists fl w',
    insert_batch sf records i batch s f w = (Ret fl, w')
    /\ match fl with
       | Returned _ f' => Exists storage_failure f'
       | Fallthrough s' f' =>
           exists inserted',
             Forall2 success_of inserted' s'
             /\ interleaved inserted' (map fr_record f') (done ++ batch)
       end.
Proof.
  induction batch as [|r batch IH]; intros s f w inserted done Hs Hil.
  - cbn [insert_batch]. unfold ret. do 2 eexists. split; [reflexivity|].
    exists inserted. now rewrite app_nil_r.
  - cbn [insert_batch]. unfold bind at 1.
    destruct (insert_with_retry_result r RETRY_ATTEMPTS w)
      as (res & w1 & Heq & [(resp & -> & Hid)|(e & -> & He)]); rewrite Heq.
    + cbn [truthy_opt]. unfold bind at 1, success_entry, bind at 1, getitem_id.
      destruct (resp_id resp) as [rid|] eqn:Hrid; [|congruence].
      unfold ret at 1, bind at 1, datetime_now, ret at 1.
      match goal with
      | |- context [insert_batch sf records i batch (s ++ [?d]) f ?w2] =>
          destruct (IH (s ++ [d]) f w2 (inserted ++ [r]) (done ++ [r]))
            as (fl & w' & Hfl & Hpost)
      end.
      * apply Forall2_app; [exact Hs|]. constructor; [|constructor].
        do 2 eexists. reflexivity.
      * now apply interleaved_snoc_left.
      * exists fl, w'. split; [exact Hfl|].
        destruct fl; [exact Hpost|]. now rewrite <- app_assoc in Hpost.
    + cbn [truthy_opt]. rewrite (truthy_not_empty e He).
      unfold bind at 1, new_FailedRecord, bind at 1, datetime_now, ret at 1.
      unfold ret at 1.
      destruct (str_in "Storage limit exceeded" e) eqn:Hst.
      * unfold bind at 1.
        match goal with
        | |- context [failed_for sf ?rs ?err ?w2] =>
            destruct (failed_for_marks rs err w2) as (fs & Hfs & _ & _)
        end.
        rewrite Hfs. unfold ret. do 2 eexists. split; [reflexivity|].
        apply Exists_app. left. apply Exists_app. right.
        constructor. exact Hst.
      * match goal with
        | |- context [insert_batch sf records i batch s (f ++ [?x]) ?w2] =>
            destruct (IH s (f ++ [x]) w2 inserted (done ++ [r]))
              as (fl & w' & Hfl & Hpost)
        end.
        -- exact Hs.
        -- rewrite map_app. cbn [map fr_record].
           now apply interleaved_snoc_right.
        -- exists fl, w'. split; [exact Hfl|].
           destruct fl; [exact Hpost|]. now rewrite <- app_assoc in Hpost.
Qed.

Lemma insert_chunks_accounts records : forall chunks i s f w inserted,
  Forall2 success_of inserted s ->
  interleaved inserted (map fr_record f) (firstn i records) ->
  exists s' f' w',
    insert_chunks sf records chunks i s f w = (Ret (s', f'), w')
    /\ (Exists storage_failure f'
        \/ exists inserted',
             Forall2 success_of inserted' s'
             /\ interleaved inserted' (map fr_record f')
                  (firstn (i + chunks * BATCH_SIZE) records)).
Proof.
  induction chunks as [|chunks IH]; intros i s f w inserted Hs Hil.
  - cbn [insert_chunks]. unfold ret. do 3 eexists. split; [reflexivity|].
    right. exists inserted. now rewrite Nat.add_0_r.
  - cbn [insert_chunks]. unfold bind at 1.
    destruct (insert_batch_accounts records i
                (firstn BATCH_SIZE (skipn i records)) s f w inserted
                (firstn i records) Hs Hil) as (fl & w1 & Heq & Hpost).
    rewrite Heq. destruct fl as [s1 f1|s1 f1].
    + unfold ret. do 3 eexists. split; [reflexivity|]. now left.
    + destruct Hpost as (inserted1 & Hs1 & Hil1).
      rewrite firstn_app_skipn in Hil1.
      unfold bind at 1, sleep, modify.
      match goal with
      | |- context [insert_chunks sf records chunks ?i1 s1 f1 ?w2] =>
          destruct (IH i1 s1 f1 w2 inserted1 Hs1 Hil1)
            as (s' & f' & w' & Hch & Hfin)
      end.
      rewrite Hch. do 3 eexists. split; [reflexivity|].
      destruct Hfin as [Hst|(ins & Hf2 & Hi2)]; [now left|right].
      exists ins. split; [exact Hf2|].
      now replace (i + S chunks * BATCH_SIZE)%nat
        with (i + BATCH_SIZE + chunks * BATCH_SIZE)%nat by lia.
Qed.

Lemma range_len_covers n : (n <= range_len n BATCH_SIZE * BATCH_SIZE)%nat.
Proof.
  unfold range_len, BATCH_SIZE.
  pose proof (Nat.div_mod_eq (n + 200 - 1) 200).
  pose proof (Nat.mod_upper_bound (n + 200 - 1) 200 ltac:(lia)).
  lia.
Qed.

Lemma check_storage_availability_returns w :
  exists ok w', check_storage_availability sf w = (Ret ok, w').
Proof.
  unfold check_storage_availability, try_except.
  match goal with |- context [match ?m w with _ => _ end] =>
    destruct (m w) as [[ok|e] w1] end; unfold ret; eauto.
Qed.


End BatchInsert.

Section StorageCheck.
Import Py Standard StandardApp.
Local Open Scope Z_scope.
Variable sf : salesforce.


(** X6. When the storage check fails, for whatever reason,
    [batch_insert_data] attempts no insert: it returns no successful
    record and marks every record of the input, in order, as failed with
    "Storage limit exceeded", reading the clock once per record. *)
Theorem batch_insert_data_storage_check_failed (records : list record)
    (w w1 : world) :
  check_storage_availability sf w = (Ret false, w1) ->
  exists failed,
    batch_insert_data sf records w
    = (Ret ([], failed),
       {| creates := creates w1; updates := updates w1;
          deletes := deletes w1; sleeps := sleeps w1;
          clock_reads := (clock_reads w1 + length records)%nat;
          rand_draws := rand_draws w1 |})
    /\ map fr_record failed = records
    /\ Forall (fun f => fr_error f = "Storage limit exceeded") failed.
Proof.
  intros Hck. unfold batch_insert_data. unfold bind at 1. rewrite Hck.
  cbn [negb]. unfold bind at 1.
  destruct (failed_for_marks sf records "Storage limit exceeded" w1)
    as (fs & Hfs & Hrec & Herr).
  rewrite Hfs. unfold ret. exists fs. auto.
Qed.

End StorageCheck.

Section StandardEndpoints.
Import Py Standard StandardApp.
Local Open Scope string_scope.
Local Open Scope Z_scope.
Variable sf : salesforce.

(** X7. The endpoints [update_record_api] and [delete_record_api], once
    authenticated, make at most [RETRY_ATTEMPTS] calls to Salesforce, with
    the pauses of the retry loop between them; they answer with a success
    exactly when the last call returned 204; every failure leaves them as
    an [HTTPException] with status 500: the exception with status 400 of
    their [else] branch is caught by their own [except Exception]. *)
Theorem record_endpoints_fail_with_500 (record_id : string)
    (update_data : record) (w : world) :
  (exists c out,
     update_record_api sf record_id update_data w
     = (out, after_updates w record_id update_data c
               (linear_delays 0 (c - 1)))
     /\ (1 <= c <= 3)%nat
     /\ ((on_update sf (length (updates w) + (c - 1)) record_id update_data
          = Ret 204
          /\ out = Ret ("Record with ID " ++ record_id
                        ++ " updated successfully."))
         \/ (on_update sf (length (updates w) + (c - 1)) record_id update_data
             <> Ret 204
             /\ exists detail, out = Exc (HTTPException 500 detail))))
  /\ (exists c out,
        delete_record_api sf record_id w
        = (out, after_deletes w record_id c (linear_delays 0 (c - 1)))
        /\ (1 <= c <= 3)%nat
        /\ ((on_delete sf (length (deletes w) + (c - 1)) record_id = Ret 204
             /\ out = Ret ("Record with ID " ++ record_id
                           ++ " deleted successfully."))
            \/ (on_delete sf (length (deletes w) + (c - 1)) record_id
                <> Ret 204
                /\ exists detail, out = Exc (HTTPException 500 detail)))).
Proof.
  split.
  - unfold update_record_api, try_except, bind, call, update_record_by_id.
    destruct (update_loop_bounded sf record_id update_data RETRY_ATTEMPTS
                (Z.to_nat RETRY_ATTEMPTS) 0 w eq_refl)
      as (c & [success message] & -> & Hc & Hc0 & Hprev & Hok & Hnone
          & Hconv).
    cbn [fst snd] in *. exists c.
    assert (Hc1 : (1 <= c <= 3)%nat).
    { change (Z.to_nat RETRY_ATTEMPTS) with 3%nat in *.
      destruct c; [|lia]. assert (3 = 0)%nat by (now apply Hc0). lia. }
    destruct success.
    + destruct (Hok eq_refl) as (_ & Hlast & _). unfold ret.
      eexists. split; [reflexivity|]. split; [exact Hc1|]. left. auto.
    + unfold raise. eexists. split; [reflexivity|]. split; [exact Hc1|].
      right. split; [|eauto].
      intros Hlast. assert (false = true) by (apply Hconv; [lia|exact Hlast]).
      discriminate.
  - unfold delete_record_api, try_except, bind, call, delete_record_by_id.
    destruct (delete_loop_bounded sf record_id RETRY_ATTEMPTS
                (Z.to_nat RETRY_ATTEMPTS) 0 w eq_refl)
      as (c & [success message] & -> & Hc & Hc0 & Hprev & Hok & Hnone
          & _ & Hconv).
    cbn [fst snd] in *. exists c.
    assert (Hc1 : (1 <= c <= 3)%nat).
    { change (Z.to_nat RETRY_ATTEMPTS) with 3%nat in *.
      destruct c; [|lia]. assert (3 = 0)%nat by (now apply Hc0). lia. }
    destruct success.
    + destruct (Hok eq_refl) as (_ & Hlast & _). unfold ret.
      eexists. split; [reflexivity|]. split; [exact Hc1|]. left. auto.
    + unfold raise. eexists. split; [reflexivity|]. split; [exact Hc1|].
      right. split; [|eauto].
      intros Hlast. assert (false = true) by (apply Hconv; [lia|exact Hlast]).
      discriminate.
Qed.

End StandardEndpoints.

Section StandardAppExamples.
Import Py Standard StandardApp.
Local Open Scope Z_scope.


Lemma batch_insert_data_storage_check_failed_witness :
  exists failed,
    fst (batch_insert_data entity_deleted_org [acme; globex] empty_world)
    = Ret ([], failed)
    /\ map fr_record failed = [acme; globex].
Proof.
  destruct (batch_insert_data_storage_check_failed entity_deleted_org
              [acme; globex] empty_world
              (snd (check_storage_availability entity_deleted_org
                      empty_world))
              eq_refl)
    as (failed & Heq & Hrec & _).
  exists failed. rewrite Heq. split; [reflexivity|exact Hrec].
Defined.

End StandardAppExamples.

(** ** The recent records ([RecentDataManager]) *)

Section RecentFacts.
Import Py Recent.
Local Open Scope Z_scope.

Lemma firstn_app_firstn {A} (n : nat) (a b : list A) :
  firstn n (a ++ firstn n b) = firstn n (a ++ b).
Proof.
  rewrite !firstn_app, firstn_firstn. f_equal. f_equal. lia.
Qed.

Lemma dict_set_twice (d : record) (k : string) (v1 v2 : value) :
  dict_set String.eqb (dict_set String.eqb d k v1) k v2
  = dict_set String.eqb d k v2.
Proof.
  induction d as [|[k' v'] d IH]; cbn.
  - now rewrite String.eqb_refl.
  - destruct (String.eqb k k') eqn:E; cbn; rewrite E; [reflexivity|].
    now rewrite IH.
Qed.

Lemma tag_held (records : list address) (operation_type : string)
    (a : address) : forall h,
  tag records operation_type h a
  = if held a records
    then dict_set String.eqb (h a) "operation_type" (VStr operation_type)
    else h a.
Proof.
  unfold tag, held.
  induction records as [|r records IH]; intros h; [reflexivity|].
  cbn [fold_left existsb]. rewrite IH. unfold setitem.
  destruct (Nat.eqb_spec a r) as [->|Hne]; cbn [orb].
  - destruct (existsb (Nat.eqb r) records); [apply dict_set_twice|reflexivity].
  - reflexivity.
Qed.

Lemma last_tag_from_acc (calls : list (list address * string)) (a : address) :
  forall acc,
    last_tag_from acc calls a
    = match last_tag_from None calls a with
      | Some operation_type => Some operation_type
      | None => acc
      end.
Proof.
  unfold last_tag_from.
  induction calls as [|call calls IH]; intros acc; [reflexivity|].
  cbn [fold_left]. rewrite IH.
  rewrite (IH (if held a (fst call) then Some (snd call) else None)).
  destruct (fold_left _ calls None); [reflexivity|].
  now destruct (held a (fst call)).
Qed.

Lemma after_calls_state (calls : list (list address * string)) :
  forall self h,
    0 <= max_records self ->
    max_records (fst (after_calls self h calls)) = max_records self
    /\ (calls <> [] ->
        recent_records (fst (after_calls self h calls))
        = firstn (Z.to_nat (max_records self))
            (concat (rev (map fst calls)) ++ recent_records self))
    /\ forall a,
         snd (after_calls self h calls) a
         = match last_tag calls a with
           | Some operation_type =>
               dict_set String.eqb (h a) "operation_type"
                 (VStr operation_type)
           | None => h a
           end.
Proof.
  induction calls as [|call calls IH]; intros self h Hmax.
  - split; [reflexivity|]. split; [congruence|reflexivity].
  - unfold after_calls. cbn [fold_left fst snd].
    change (add_records self (fst call) (snd call) h)
      with ({| max_records := max_records self;
               recent_records :=
                 slice_to (max_records self)
                   (fst call ++ recent_records self) |},
            tag (fst call) (snd call) h).
    match goal with |- context [fold_left _ calls (?s, ?h1)] =>
      fold (after_calls s h1 calls);
      destruct (IH s h1 Hmax) as (Hm & Hr & Hh)
    end.
    cbn [max_records recent_records] in *.
    split; [exact Hm|]. split.
    + intros _. destruct calls as [|call' calls'].
      * cbn. unfold slice_to.
        destruct (Z.leb_spec 0 (max_records self)); [|lia].
        now rewrite app_nil_r.
      * rewrite Hr by discriminate. unfold slice_to.
        destruct (Z.leb_spec 0 (max_records self)); [|lia].
        rewrite firstn_app_firstn. f_equal.
        cbn [map rev]. rewrite !concat_app. cbn [concat].
        now rewrite app_nil_r, <- !app_assoc.
    + intros a. rewrite Hh, tag_held.
      unfold last_tag at 2, last_tag_from. cbn [fold_left].
      fold (last_tag_from (if held a (fst call) then Some (snd call) else None)
              calls a).
      rewrite last_tag_from_acc. fold (last_tag calls a).
      destruct (last_tag calls a) as [op|];
        destruct (held a (fst call)); try reflexivity.
      apply dict_set_twice.
Qed.

(** X8. For a manager with [max_records >= 0], after any calls of
    [add_records] the recent records are the first [max_records] of the
    dictionaries added, those of the last call first, followed by the ones
    held before, so [get_records] never returns more than [max_records];
    a dictionary carries the operation type of the last call that was
    given it, also where an earlier call has put it in the list, and is
    otherwise unchanged. *)
Theorem recent_records_are_the_latest (self : RecentDataManager) (h : heap)
    (calls : list (list address * string)) :
  0 <= max_records self ->
  calls <> [] ->
  get_records (fst (after_calls self h calls))
  = firstn (Z.to_nat (max_records self))
      (concat (rev (map fst calls)) ++ recent_records self)
  /\ (length (get_records (fst (after_calls self h calls)))
      <= Z.to_nat (max_records self))%nat
  /\ forall a,
       snd (after_calls self h calls) a
       = match last_tag calls a with
         | Some operation_type =>
             dict_set String.eqb (h a) "operation_type" (VStr operation_type)
         | None => h a
         end.
Proof.
  intros Hmax Hcalls. unfold get_records.
  destruct (after_calls_state calls self h Hmax) as (_ & Hr & Hh).
  rewrite (Hr Hcalls). split; [reflexivity|]. split; [|exact Hh].
  apply firstn_le_length.
Qed.

End RecentFacts.

Section RecentExamples.
Import Py Recent.
Local Open Scope Z_scope.

Lemma recent_records_are_the_latest_witness :
  get_records
    (fst (after_calls (new 2) two_accounts
            [([0%nat; 1%nat], "insert"); ([0%nat], "query")]))
  = [0%nat; 0%nat]
  /\ snd (after_calls (new 2) two_accounts
            [([0%nat; 1%nat], "insert"); ([0%nat], "query")]) 0%nat
     = [("Name", VStr "Acme"); ("operation_type", VStr "query")].
Proof.
  destruct (recent_records_are_the_latest (new 2) two_accounts
              [([0%nat; 1%nat], "insert"); ([0%nat], "query")])
    as (Hl & _ & Hh).
  - cbn. lia.
  - discriminate.
  - split; [rewrite Hl; reflexivity|rewrite Hh; reflexivity].
Defined.

End RecentExamples.

(** ** Use and refresh of the cached token ([salesforce/auth.py]) *)

Section AuthPolicyFacts.
Import Py Auth AuthPolicy.
Local Open Scope string_scope.
Local Open Scope Z_scope.
Variable env : environment.

Lemma world_eta (w : world) :
  {| cache := cache w; token_requests := token_requests w;
     clock_reads := clock_reads w |} = w.
Proof. now destruct w. Qed.

Lemma fresh_not_needed w access_token instance_url :
  fresh env w access_token instance_url ->
  needs_authentication env w
  = (Ret false,
     {| cache := cache w; token_requests := token_requests w;
        clock_reads := S (clock_reads w) |}).
Proof.
  intros (Ht & Hu & Htt & Hut & expiry & He & Hnow).
  unfold needs_authentication, _is_token_expired, bind, gets, datetime_utcnow.
  rewrite He, Ht. cbn [truthy_opt]. rewrite Htt. cbn [negb].
  destruct (Z.leb_spec (expiry - 1000 * SALESFORCE_TOKEN_REFRESH_BUFFER env)
              (utcnow env (clock_reads w))); [lia|].
  unfold ret. cbn [cache]. rewrite Ht, Hu. cbn [truthy_opt].
  now rewrite Htt, Hut.
Qed.

Lemma due_needed w :
  due env w ->
  exists reads,
    needs_authentication env w
    = (Ret true,
       {| cache := cache w; token_requests := token_requests w;
          clock_reads := reads |})
    /\ (clock_reads w <= reads <= S (clock_reads w))%nat.
Proof.
  unfold due, needs_authentication, _is_token_expired, bind, gets,
    datetime_utcnow.
  destruct (_token_expiry (cache w)) as [expiry|].
  - intros Hdue.
    destruct (truthy_opt (_access_token (cache w))) eqn:Ht; cbn [negb].
    + destruct (Z.leb_spec
                  (expiry - 1000 * SALESFORCE_TOKEN_REFRESH_BUFFER env)
                  (utcnow env (clock_reads w))) as [Hle|Hgt].
      * unfold ret. eexists. split; [reflexivity|]. lia.
      * unfold ret. cbn [cache]. rewrite Ht. cbn [negb orb].
        destruct Hdue as [Hf|[Hf|Hf]]; [discriminate|lia|].
        rewrite Hf. eexists. split; [reflexivity|]. lia.
    + unfold ret. exists (clock_reads w). rewrite world_eta. split; [auto|lia].
  - intros _. unfold ret. exists (clock_reads w). rewrite world_eta.
    split; [auto|lia].
Qed.

Lemma fresh_get_auth_details w access_token instance_url :
  fresh env w access_token instance_url ->
  get_auth_details env w
  = (Ret (access_token, instance_url),
     {| cache := cache w; token_requests := token_requests w;
        clock_reads := S (clock_reads w) |}).
Proof.
  intros Hf. pose proof Hf as (Ht & Hu & Htt & Hut & _).
  unfold get_auth_details. unfold bind at 1.
  rewrite (fresh_not_needed w _ _ Hf).
  unfold bind, ret, return_auth_details, gets. cbn.
  now rewrite Ht, Hu, Htt, Hut.
Qed.

(** X9. While the cached token is fresh, [get_auth_details] returns the
    cached pair without a request to the token endpoint; it reads the
    clock once and leaves the cache as it is. *)
Theorem get_auth_details_reuses_fresh_token (w : world)
    (access_token instance_url : string) :
  fresh env w access_token instance_url ->
  get_auth_details env w
  = (Ret (access_token, instance_url),
     {| cache := cache w; token_requests := token_requests w;
        clock_reads := S (clock_reads w) |}).
Proof. apply fresh_get_auth_details. Qed.

Lemma authenticate_finish_complete access_token instance_url ms w :
  truthy access_token = true -> truthy instance_url = true ->
  authenticate_finish
    (TokenJson (Some access_token) (Some instance_url) (Some ms)) w
  = (Ret tt,
     {| cache := cached access_token instance_url ms;
        token_requests := token_requests w;
        clock_reads := clock_reads w |}).
Proof.
  intros Htt Hut. unfold authenticate_finish, bind, set_cache, modify.
  cbn [truthy_opt cache token_requests clock_reads
       _access_token _instance_url _token_expiry _issued_at].
  rewrite Htt, Hut. reflexivity.
Qed.

(** A forced refresh that is answered completely. *)
Lemma handle_401_complete w access_token instance_url issued_at :
  token_endpoint env (token_requests w)
  = TokenJson (Some access_token) (Some instance_url) (Some issued_at) ->
  truthy access_token = true -> truthy instance_url = true ->
  handle_401_unauthorized env w
  = (Ret tt,
     {| cache := cached access_token instance_url issued_at;
        token_requests := S (token_requests w);
        clock_reads := clock_reads w |}).
Proof.
  intros Hans Htt Hut.
  unfold handle_401_unauthorized, invalidate. unfold bind at 1.
  unfold bind at 1, set_cache, modify.
  cbn [cache token_requests clock_reads].
  unfold authenticate, bind at 1, post_token.
  cbn [cache token_requests clock_reads]. rewrite Hans.
  now rewrite authenticate_finish_complete.
Qed.


(** X11. A token request that fails (no answer, or an error status) makes
    [authenticate] raise an [HTTPException] with status 503, or with the
    status of the answer, and leaves the cache exactly as it was; so does
    [get_auth_details] when a refresh is due: the failure is not cached,
    and whatever was cached stays. *)
Theorem failed_token_request_keeps_cache (w : world) :
  request_failed (token_endpoint env (token_requests w)) ->
  (exists detail,
     authenticate env w
     = (Exc (HTTPException
               (failure_status (token_endpoint env (token_requests w)))
               detail),
        {| cache := cache w; token_requests := S (token_requests w);
           clock_reads := clock_reads w |}))
  /\ (due env w ->
      exists detail w',
        get_auth_details env w
        = (Exc (HTTPException
                  (failure_status (token_endpoint env (token_requests w)))
                  detail), w')
        /\ cache w' = cache w
        /\ token_requests w' = S (token_requests w)).
Proof.
  intros Hfail. split.
  - unfold authenticate, bind, post_token.
    destruct (token_endpoint env (token_requests w)); try contradiction;
      cbn; unfold raise; eauto.
  - intros Hdue. destruct (due_needed w Hdue) as (reads & Hneed & _).
    unfold get_auth_details. unfold bind at 1. rewrite Hneed.
    unfold bind at 1, authenticate, bind at 1, post_token.
    cbn [cache token_requests clock_reads].
    destruct (token_endpoint env (token_requests w)); try contradiction;
      cbn; unfold raise; eauto.
Qed.

(** X12. [handle_401_unauthorized] sends one token request whatever the
    cache holds, a fresh token included; when it returns, the cache holds
    the pair of that answer, and a call of [get_auth_details] made before
    the refresh threshold of the new token returns this pair without
    another request. *)
Theorem forced_refresh_is_used_next (w w1 : world) :
  handle_401_unauthorized env w = (Ret tt, w1) ->
  exists access_token instance_url issued_at,
    token_endpoint env (token_requests w)
    = TokenJson (Some access_token) (Some instance_url) (Some issued_at)
    /\ w1 = {| cache := cached access_token instance_url issued_at;
               token_requests := S (token_requests w);
               clock_reads := clock_reads w |}
    /\ (utcnow env (clock_reads w)
        < issued_at + 1000 * (2 * 60 * 60)
          - 1000 * SALESFORCE_TOKEN_REFRESH_BUFFER env ->
        get_auth_details env w1
        = (Ret (access_token, instance_url),
           {| cache := cache w1; token_requests := S (token_requests w);
              clock_reads := S (clock_reads w) |})).
Proof.
  unfold handle_401_unauthorized, invalidate. unfold bind at 1.
  unfold bind at 1, set_cache, modify.
  cbn [cache token_requests clock_reads].
  unfold authenticate, bind at 1, post_token.
  cbn [cache token_requests clock_reads].
  intros H.
  match type of H with authenticate_finish ?a ?w0 = _ =>
    destruct (authenticate_finish_success a w0 w1 H)
      as (tok & url & ms & Hans & Htt & Hut & Hcache & Hreq & Hclk)
  end.
  cbn [token_requests clock_reads] in Hreq, Hclk.
  exists tok, url, ms. split; [exact Hans|].
  assert (Hw1 : w1 = {| cache := cached tok url ms;
                        token_requests := S (token_requests w);
                        clock_reads := clock_reads w |}).
  { destruct w1 as [c1 t1 r1]. cbn in *. now subst. }
  split; [exact Hw1|]. intros Hnow.
  assert (Hf : fresh env w1 tok url).
  { rewrite Hw1. unfold fresh, cached. cbn. repeat split; auto.
    eexists. split; [reflexivity|]. exact Hnow. }
  rewrite (fresh_get_auth_details w1 _ _ Hf). now rewrite Hw1.
Qed.

End AuthPolicyFacts.

Section AuthPolicyExamples.
Import Py Auth AuthPolicy.
Local Open Scope Z_scope.

Lemma get_auth_details_reuses_fresh_token_witness :
  get_auth_details issuing authenticated_world
  = (Ret ("00Dxx!AQ4", "https://na1.salesforce.com"),
     {| cache := cache authenticated_world;
        token_requests := token_requests authenticated_world;
        clock_reads := S (clock_reads authenticated_world) |}).
Proof.
  apply (get_auth_details_reuses_fresh_token issuing authenticated_world).
  unfold fresh. repeat split; try reflexivity.
  exists 1700007200000. split; reflexivity.
Defined.


Lemma failed_token_request_keeps_cache_witness :
  (exists detail,
     authenticate unreachable initial_world
     = (Exc (HTTPException 503 detail),
        {| cache := cache initial_world; token_requests := 1;
           clock_reads := 0 |}))
  /\ exists detail w',
       get_auth_details unreachable initial_world
       = (Exc (HTTPException 503 detail), w')
       /\ cache w' = cache initial_world
       /\ token_requests w' = 1%nat.
Proof.
  destruct (failed_token_request_keeps_cache unreachable initial_world I)
    as (Hauth & Hget).
  split; [exact Hauth|]. apply Hget. exact I.
Defined.

Lemma forced_refresh_is_used_next_witness :
  exists access_token instance_url,
    fst (get_auth_details issuing
           (snd (handle_401_unauthorized issuing authenticated_world)))
    = Ret (access_token, instance_url).
Proof.
  destruct (forced_refresh_is_used_next issuing authenticated_world
              (snd (handle_401_unauthorized issuing authenticated_world))
              eq_refl)
    as (access_token & instance_url & issued_at & Hans & _ & Hnext).
  exists access_token, instance_url. rewrite Hnext; [reflexivity|].
  injection Hans as _ _ <-. vm_compute. reflexivity.
Defined.

End AuthPolicyExamples.

(** ** Concurrent callers, for every token endpoint *)

Section EventLoopBounds.
Import Py Auth EventLoop.
Local Open Scope string_scope.
Variable env : environment.

Lemma needs_authentication_sends_nothing w :
  token_requests (snd (needs_authentication env w)) = token_requests w.
Proof.
  unfold needs_authentication, _is_token_expired, bind, gets, datetime_utcnow.
  destruct (_token_expiry (cache w)); [|reflexivity].
  destruct (negb (truthy_opt (_access_token (cache w)))); [reflexivity|].
  match goal with |- context [(?a <=? ?b)%Z] => destruct (a <=? b)%Z end;
    reflexivity.
Qed.

Lemma return_auth_details_keeps w :
  snd (return_auth_details w) = w.
Proof.
  unfold return_auth_details, bind, gets.
  destruct (_access_token (cache w)) as [t|]; [|reflexivity].
  destruct (_instance_url (cache w)) as [u|]; [|reflexivity].
  now destruct (truthy t && truthy u).
Qed.

Lemma enter_sends_at_most_one w :
  (token_requests (snd (get_auth_details_enter env w))
   <= S (token_requests w))%nat.
Proof.
  unfold get_auth_details_enter.
  pose proof (needs_authentication_sends_nothing w) as Hn.
  destruct (needs_authentication env w) as [[[|]|e] w1]; cbn [snd] in *.
  - unfold post_token. cbn. lia.
  - rewrite return_auth_details_keeps. lia.
  - lia.
Qed.

Lemma authenticate_finish_sends_nothing answer w :
  token_requests (snd (authenticate_finish answer w)) = token_requests w.
Proof.
  unfold authenticate_finish.
  destruct answer as [cls|status d e|token url [ms|]]; try reflexivity.
  unfold bind, set_cache, modify. cbn.
  destruct (negb (truthy_opt token) || negb (truthy_opt url)); reflexivity.
Qed.

Lemma resume_sends_nothing answer w :
  token_requests (snd (get_auth_details_resume answer w)) = token_requests w.
Proof.
  unfold get_auth_details_resume.
  pose proof (authenticate_finish_sends_nothing answer w) as H.
  destruct (authenticate_finish answer w) as [[[]|e] w1]; cbn [snd] in *.
  - now rewrite return_auth_details_keeps.
  - exact H.
Qed.

Lemma sum_set_nth (f : caller -> nat) (l : list caller) : forall i c c',
  nth_error l i = Some c ->
  (list_sum (map f (set_nth i c' l)) + f c
   = list_sum (map f l) + f c')%nat.
Proof.
  induction l as [|x l IH]; intros [|i] c c' H; try discriminate.
  - injection H as <-. cbn. lia.
  - cbn [nth_error] in H. cbn [set_nth map list_sum].
    specialize (IH i c c' H). unfold list_sum in *. cbn [fold_right]. lia.
Qed.

Lemma sum_repeat_ready (f : caller -> nat) n :
  f Ready = 0%nat -> list_sum (map f (repeat Ready n)) = 0%nat.
Proof.
  intros H. induction n as [|n IH]; [reflexivity|].
  cbn [repeat map]. unfold list_sum in *. cbn [fold_right]. lia.
Qed.

Lemma sum_entered_le (l : list caller) :
  (list_sum (map entered l) <= length l)%nat.
Proof.
  induction l as [|c l IH]; [cbn; lia|].
  cbn [map length]. unfold list_sum in *. cbn [fold_right].
  destruct c; cbn; lia.
Qed.

(** X13. Whatever the token endpoint answers, an execution of [n]
    concurrent calls of [get_auth_details] has at most [2 * n] steps, at
    every moment at most one caller waits for the answer to a token
    request, and this is the caller that holds the lock; in total at most
    one token request is sent for each caller that has got the lock, so at
    most [n]. *)
Theorem concurrent_calls_are_bounded (w : world) (n k : nat) (s : system) :
  steps_in env k (concurrent_calls w n) s ->
  (k + work s <= 2 * n)%nat
  /\ list_sum (map in_flight (callers s)) = (if lock_held s then 1 else 0)%nat
  /\ (token_requests (shared s)
      <= token_requests w + list_sum (map entered (callers s)))%nat
  /\ (token_requests (shared s) <= token_requests w + n)%nat.
Proof.
  intros Hsteps.
  assert (Hinv : (k + work s <= 2 * n)%nat
    /\ list_sum (map in_flight (callers s)) = (if lock_held s then 1 else 0)%nat
    /\ (token_requests (shared s)
        <= token_requests w + list_sum (map entered (callers s)))%nat
    /\ length (callers s) = n).
  { remember (concurrent_calls w n) as s0 eqn:Hs0.
    induction Hsteps as [s|k s1 s2 s3 Hsteps IH Hstep].
    - subst s. unfold work. cbn [concurrent_calls callers shared lock_held].
      rewrite (sum_repeat_ready in_flight), (sum_repeat_ready entered)
        by reflexivity.
      assert (Hw : list_sum (map pending (repeat Ready n)) = (2 * n)%nat).
      { clear. induction n as [|n IH]; [reflexivity|].
        cbn [repeat map]. unfold list_sum in *. cbn [fold_right pending].
        lia. }
      rewrite Hw, repeat_length. repeat split; lia.
    - specialize (IH Hs0). destruct IH as (Hk & Hfl & Htok & Hlen).
      pose proof (step_decreases_work env s2 s3 Hstep) as Hwork.
      split; [lia|].
      inversion Hstep as [s i Hready Hfree|s i answer Hsusp]; subst;
        cbn [callers shared lock_held].
      + rewrite Hfree in Hfl.
        pose proof (enter_sends_at_most_one (shared s2)) as Hsent.
        split; [|split].
        * pose proof (sum_set_nth in_flight (callers s2) i Ready
                        match fst (get_auth_details_enter env (shared s2)) with
                        | Awaiting answer => Suspended answer
                        | Finished result => Returned result
                        end Hready) as Hs.
          destruct (fst (get_auth_details_enter env (shared s2)));
            cbn [in_flight] in Hs; lia.
        * pose proof (sum_set_nth entered (callers s2) i Ready
                        match fst (get_auth_details_enter env (shared s2)) with
                        | Awaiting answer => Suspended answer
                        | Finished result => Returned result
                        end Hready) as Hs.
          destruct (fst (get_auth_details_enter env (shared s2)));
            cbn [entered] in Hs; lia.
        * now rewrite length_set_nth.
      + pose proof (resume_sends_nothing answer (shared s2)) as Hsent.
        pose proof (sum_set_nth in_flight (callers s2) i (Suspended answer)
                      (Returned (fst (get_auth_details_resume answer
                                        (shared s2)))) Hsusp) as Hs1.
        pose proof (sum_set_nth entered (callers s2) i (Suspended answer)
                      (Returned (fst (get_auth_details_resume answer
                                        (shared s2)))) Hsusp) as Hs2.
        cbn [in_flight entered] in Hs1, Hs2.
        split; [|split].
        * destruct (lock_held s2); lia.
        * lia.
        * now rewrite length_set_nth. }
  destruct Hinv as (Hk & Hfl & Htok & Hlen).
  repeat split; auto.
  pose proof (sum_entered_le (callers s)). lia.
Qed.

End EventLoopBounds.

Section EventLoopExamples.
Import Py Auth EventLoop.

Lemma concurrent_calls_are_bounded_witness :
  exists s,
    steps_in unreachable 1 (concurrent_calls initial_world 2) s
    /\ (1 + work s <= 2 * 2)%nat
    /\ (token_requests (shared s) <= token_requests initial_world + 2)%nat.
Proof.
  pose proof (steps_in_step unreachable 0 _ _ _
                (steps_in_refl unreachable (concurrent_calls initial_world 2))
                (step_enter unreachable (concurrent_calls initial_world 2) 0
                   eq_refl eq_refl)) as Hrun.
  destruct (concurrent_calls_are_bounded unreachable initial_world 2 1 _ Hrun)
    as (Hwork & _ & _ & Hsent).
  eexists. split; [exact Hrun|]. split; [exact Hwork|exact Hsent].
Defined.

End EventLoopExamples.

(** ** Requests to Salesforce ([client.py]) *)

Section ClientFacts.
Import Py ApiClient.
Local Open Scope string_scope.
Local Open Scope Z_scope.
Variable env : environment.

(** A method of the authentication sends nothing. *)
Lemma lift_sends_nothing {A} (m : Auth.run A) w :
  exists out aw,
    lift m w = (out, {| auth := aw; sent := sent w |}).
Proof.
  unfold lift. destruct (m (auth w)) as [[a|e] aw]; eauto.
Qed.

Lemma world_nil w aw : {| auth := aw; sent := sent w |}
                       = {| auth := aw; sent := (sent w ++ [])%list |}.
Proof. now rewrite app_nil_r. Qed.

Section Attempt.
Variables (meth target : string) (pars : option (list (string * string)))
  (body : option record).

Local Abbreviation req token :=
  {| method := meth; url := target; bearer := token; params := pars;
     json := body |}.

Lemma request_attempt_sends attempt w :
  exists out aw qs,
    request_attempt env meth target pars body attempt w
    = (out, {| auth := aw; sent := (sent w ++ qs)%list |})
    /\ (qs = [] \/ exists token, qs = [req token])
    /\ (out = Ret Continue ->
        attempt < MAX_RETRIES
        /\ exists token r,
             qs = [req token]
             /\ transport env (length (sent w)) (req token) = Response r
             /\ status_code r = 401)
    /\ (forall r, out = Ret (Return r) ->
        is_success (status_code r) = true
        /\ exists token,
             qs = [req token]
             /\ transport env (length (sent w)) (req token) = Response r)
    /\ (forall token r,
          qs = [req token] ->
          transport env (length (sent w)) (req token) = Response r ->
          is_success (status_code r) = true ->
          out = Ret (Return r)).
Proof.
  unfold request_attempt. unfold bind at 1.
  unfold _get_headers, bind at 1, get_auth_details.
  destruct (lift_sends_nothing (Auth.get_auth_details (auth_env env)) w)
    as ([[token inst]|e] & aw & ->).
  2:{ do 3 eexists. split; [apply f_equal, world_nil|].
      split; [now left|]. split; [discriminate|].
      split; [intros r H; discriminate|]. intros t r H. discriminate. }
  unfold ret at 1. cbn [fst]. unfold bind at 1, client_request.
  cbn [auth sent].
  assert (Hsame : forall t r r',
    [req token] = [req t] ->
    transport env (length (sent w)) (req token) = Response r ->
    transport env (length (sent w)) (req t) = Response r' -> r' = r).
  { intros t r r' Hq H1 H2. inversion Hq; subst. congruence. }
  destruct (transport env (length (sent w)) (req token)) as [r|cls] eqn:Ht.
  - assert (H401s : status_code r = 401 -> is_success (status_code r) = false).
    { intros ->. reflexivity. }
    destruct (Z.eqb_spec (status_code r) 401) as [H401|Hn401];
      destruct (Z.ltb_spec attempt MAX_RETRIES) as [Hlt|Hge]; cbn [andb].
    + unfold bind, handle_401_unauthorized.
      match goal with |- context [lift ?m ?w1] =>
        destruct (lift_sends_nothing m w1) as ([[]|e] & aw1 & ->) end;
        cbn [sent]; unfold ret.
      * do 3 eexists. split; [reflexivity|]. split; [right; eauto|]. split.
        -- intros _. split; [exact Hlt|]. eauto.
        -- split; [intros r0 H; discriminate|].
           intros t r' Hq Ht' Hs'.
           rewrite (Hsame t r r' Hq eq_refl Ht'), (H401s H401) in Hs'.
           discriminate.
      * do 3 eexists. split; [reflexivity|]. split; [right; eauto|].
        split; [discriminate|]. split; [intros r0 H; discriminate|].
        intros t r' Hq Ht' Hs'.
        rewrite (Hsame t r r' Hq eq_refl Ht'), (H401s H401) in Hs'.
        discriminate.
    + rewrite (H401s H401).
      unfold raise. do 3 eexists. split; [reflexivity|].
      split; [right; eauto|]. split; [discriminate|].
      split; [intros r0 H; discriminate|].
      intros t r' Hq Ht' Hs'.
      rewrite (Hsame t r r' Hq eq_refl Ht'), (H401s H401) in Hs'.
      discriminate.
    + destruct (is_success (status_code r)) eqn:Hs; unfold ret, raise;
        do 3 eexists; (split; [reflexivity|]); (split; [right; eauto|]);
        (split; [discriminate|]); split.
      * intros r0 H. injection H as <-. eauto.
      * intros t r' Hq Ht' Hs'. now rewrite (Hsame t r r' Hq eq_refl Ht').
      * intros r0 H. discriminate.
      * intros t r' Hq Ht' Hs'.
        rewrite (Hsame t r r' Hq eq_refl Ht') in Hs'. congruence.
    + destruct (is_success (status_code r)) eqn:Hs; unfold ret, raise;
        do 3 eexists; (split; [reflexivity|]); (split; [right; eauto|]);
        (split; [discriminate|]); split.
      * intros r0 H. injection H as <-. eauto.
      * intros t r' Hq Ht' Hs'. now rewrite (Hsame t r r' Hq eq_refl Ht').
      * intros r0 H. discriminate.
      * intros t r' Hq Ht' Hs'.
        rewrite (Hsame t r r' Hq eq_refl Ht') in Hs'. congruence.
  - destruct (attempt <? MAX_RETRIES); unfold raise; do 3 eexists;
      (split; [reflexivity|]); (split; [right; eauto|]);
      (split; [discriminate|]); (split; [intros r0 H; discriminate|]);
      intros t r' Hq Ht' Hs'; inversion Hq; subst; congruence.
Qed.

Lemma last_of_one {A} (pre : list A) (q a : A) :
  [a] = (pre ++ [q])%list -> pre = [] /\ q = a.
Proof.
  intros H. change [a] with ([] ++ [a])%list in H.
  apply app_inj_tail in H. destruct H; subst; auto.
Qed.

Lemma last_of_two {A} (pre : list A) (q a b : A) :
  [a; b] = (pre ++ [q])%list -> pre = [a] /\ q = b.
Proof.
  intros H. change [a; b] with ([a] ++ [b])%list in H.
  apply app_inj_tail in H. destruct H; subst; auto.
Qed.

(** The loop of [_request] from its first attempt. *)
Lemma request_loop_sends w :
  exists out aw qs,
    request_loop env meth target pars body (Z.to_nat (MAX_RETRIES + 1)) 0 w
    = (out, {| auth := aw; sent := (sent w ++ qs)%list |})
    /\ (length qs <= 2)%nat
    /\ Forall (fun q => exists token, q = req token) qs
    /\ (forall q1 q2, qs = [q1; q2] ->
        exists r, transport env (length (sent w)) q1 = Response r
                  /\ status_code r = 401)
    /\ (forall r, out = Ret r <->
        exists pre q,
          qs = (pre ++ [q])%list
          /\ transport env (length (sent w) + length pre) q = Response r
          /\ is_success (status_code r) = true).
Proof.
  change (Z.to_nat (MAX_RETRIES + 1)) with 2%nat.
  cbn [request_loop]. unfold bind at 1.
  destruct (request_attempt_sends 0 w)
    as (out1 & aw1 & qs1 & -> & Hqs1 & Hcont1 & Hret1 & Hconv1).
  destruct out1 as [[r|]|e].
  - unfold ret. destruct (Hret1 r eq_refl) as (Hs & token & -> & Ht).
    do 3 eexists. split; [reflexivity|]. split; [cbn; lia|].
    split; [repeat constructor; eauto|]. split; [discriminate|].
    intros r0. split.
    + intros H. injection H as <-.
      exists [], (req token). rewrite Nat.add_0_r. auto.
    + intros (pre & q & Hq & Htq & Hsq).
      apply last_of_one in Hq. destruct Hq as (-> & ->).
      rewrite Nat.add_0_r in Htq. congruence.
  - destruct (Hcont1 eq_refl) as (_ & token & r & -> & Ht & H401).
    unfold bind at 1.
    match goal with |- context [request_attempt env _ _ _ _ ?a ?w1] =>
      destruct (request_attempt_sends a w1)
        as (out2 & aw2 & qs2 & -> & Hqs2 & Hcont2 & Hret2 & Hconv2) end.
    cbn [sent] in *. rewrite <- app_assoc.
    assert (Hall : Forall (fun q => exists token, q = req token)
                     ([req token] ++ qs2)).
    { constructor; [eauto|].
      destruct Hqs2 as [->|(t2 & ->)]; repeat constructor; eauto. }
    assert (Hlen : (length ([req token] ++ qs2) <= 2)%nat).
    { destruct Hqs2 as [->|(t2 & ->)]; cbn; lia. }
    assert (Hfirst : forall q1 q2, ([req token] ++ qs2)%list = [q1; q2] ->
              exists r, transport env (length (sent w)) q1 = Response r
                        /\ status_code r = 401).
    { intros q1 q2 H. injection H as <- _. eauto. }
    assert (Hlast : forall r3 pre q,
              ([req token] ++ qs2)%list = (pre ++ [q])%list ->
              transport env (length (sent w) + length pre) q = Response r3 ->
              is_success (status_code r3) = true ->
              out2 = Ret (Return r3)).
    { intros r3 pre q Hq Htq Hsq. destruct Hqs2 as [->|(t2 & ->)].
      - apply last_of_one in Hq. destruct Hq as (-> & ->).
        rewrite Nat.add_0_r, Ht in Htq. injection Htq as <-.
        rewrite H401 in Hsq. discriminate.
      - apply last_of_two in Hq. destruct Hq as (-> & ->).
        apply (Hconv2 t2 r3 eq_refl); [|exact Hsq].
        rewrite length_app. exact Htq. }
    destruct out2 as [[r2|]|e2].
    + unfold ret. destruct (Hret2 r2 eq_refl) as (Hs & t2 & -> & Ht2).
      do 3 eexists. split; [reflexivity|].
      split; [exact Hlen|]. split; [exact Hall|]. split; [exact Hfirst|].
      intros r3. split.
      * intros H. injection H as <-.
        exists [req token], (req t2). split; [reflexivity|].
        rewrite length_app in Ht2. auto.
      * intros (pre & q & Hq & Htq & Hsq).
        specialize (Hlast r3 pre q Hq Htq Hsq). congruence.
    + destruct (Hcont2 eq_refl) as (Hlt & _). unfold MAX_RETRIES in Hlt. lia.
    + do 3 eexists. split; [reflexivity|].
      split; [exact Hlen|]. split; [exact Hall|]. split; [exact Hfirst|].
      intros r3. split; [discriminate|].
      intros (pre & q & Hq & Htq & Hsq).
      specialize (Hlast r3 pre q Hq Htq Hsq). discriminate.
  - do 3 eexists. split; [reflexivity|].
    split; [destruct Hqs1 as [->|(t & ->)]; cbn; lia|].
    split; [destruct Hqs1 as [->|(t & ->)]; repeat constructor; eauto|].
    split; [intros q1 q2 H; destruct Hqs1 as [->|(t & ->)]; discriminate|].
    intros r0. split; [discriminate|].
    intros (pre & q & Hq & Htq & Hsq). destruct Hqs1 as [->|(t & ->)].
    + destruct pre; discriminate.
    + apply last_of_one in Hq. destruct Hq as (-> & ->).
      rewrite Nat.add_0_r in Htq.
      specialize (Hconv1 t r0 eq_refl Htq Hsq). discriminate.
Qed.

End Attempt.

(** What [_request] sends and returns. *)
Lemma request_outcome (meth endpoint : string)
    (pars : option (list (string * string))) (body : option record)
    (is_bulk_api : bool) (w : world) :
  exists out aw qs,
    _request env meth endpoint pars body is_bulk_api w
    = (out, {| auth := aw; sent := (sent w ++ qs)%list |})
    /\ (length qs <= 2)%nat
    /\ (exists target,
          Forall (fun q => method q = meth /\ url q = target
                           /\ params q = pars /\ json q = body) qs)
    /\ (forall q1 q2, qs = [q1; q2] ->
        exists r, transport env (length (sent w)) q1 = Response r
                  /\ status_code r = 401)
    /\ (forall r, out = Ret r <->
        exists pre q,
          qs = (pre ++ [q])%list
          /\ transport env (length (sent w) + length pre) q = Response r
          /\ is_success (status_code r) = true).
Proof.
  assert (Hfail : forall (e : exn) aw,
    exists out aw' qs,
      (Exc e : outcome exn response, {| auth := aw; sent := sent w |})
      = (out, {| auth := aw'; sent := (sent w ++ qs)%list |})
      /\ (length qs <= 2)%nat
      /\ (exists target,
            Forall (fun q => method q = meth /\ url q = target
                             /\ params q = pars /\ json q = body) qs)
      /\ (forall q1 q2, qs = [q1; q2] ->
          exists r, transport env (length (sent w)) q1 = Response r
                    /\ status_code r = 401)
      /\ (forall r, out = Ret r <->
          exists pre q,
            qs = (pre ++ [q])%list
            /\ transport env (length (sent w) + length pre) q = Response r
            /\ is_success (status_code r) = true)).
  { intros e aw. exists (Exc e), aw, []. split; [apply f_equal, world_nil|].
    split; [cbn; lia|]. split; [exists ""; constructor|].
    split; [intros; discriminate|]. intros r. split; [discriminate|].
    intros (pre & q & Hq & _). destruct pre; discriminate. }
  assert (Hloop : forall target aw,
    exists out aw' qs,
      request_loop env meth target pars body (Z.to_nat (MAX_RETRIES + 1)) 0
        {| auth := aw; sent := sent w |}
      = (out, {| auth := aw'; sent := (sent w ++ qs)%list |})
      /\ (length qs <= 2)%nat
      /\ (exists target,
            Forall (fun q => method q = meth /\ url q = target
                             /\ params q = pars /\ json q = body) qs)
      /\ (forall q1 q2, qs = [q1; q2] ->
          exists r, transport env (length (sent w)) q1 = Response r
                    /\ status_code r = 401)
      /\ (forall r, out = Ret r <->
          exists pre q,
            qs = (pre ++ [q])%list
            /\ transport env (length (sent w) + length pre) q = Response r
            /\ is_success (status_code r) = true)).
  { intros target aw.
    destruct (request_loop_sends meth target pars body
                {| auth := aw; sent := sent w |})
      as (out & aw' & qs & Heq & Hlen & Hall & Hfirst & Hret).
    cbn [sent] in *. exists out, aw', qs. split; [exact Heq|].
    split; [exact Hlen|]. split; [|split; assumption].
    exists target. eapply Forall_impl; [|exact Hall].
    intros q (token & ->). cbn. auto. }
  unfold _request. unfold bind at 1.
  unfold _get_base_url, bind at 1, get_auth_details.
  destruct (lift_sends_nothing (Auth.get_auth_details (auth_env env)) w)
    as ([[token inst]|e] & aw & ->); [|apply Hfail].
  unfold ret at 1. cbn [snd]. unfold bind at 1.
  destruct is_bulk_api.
  - unfold bind at 1.
    match goal with |- context [lift ?m ?w1] =>
      destruct (lift_sends_nothing m w1) as ([[token2 inst2]|e] & aw2 & ->)
    end; cbn [sent]; [|apply Hfail].
    destruct (is_jobs_endpoint endpoint); unfold ret; apply Hloop.
  - unfold ret. apply Hloop.
Qed.

(** X14. Whatever the token endpoint and the transport answer, [_request]
    sends at most two requests to Salesforce, with the method, the
    parameters and the body it was given and to one and the same URL; it
    sends a second one only when the first was answered with status 401;
    and it returns a response exactly when the last request it has sent
    was answered with a success status, and then this answer. *)
Theorem request_sends_at_most_two (meth endpoint : string)
    (pars : option (list (string * string))) (body : option record)
    (is_bulk_api : bool) (w : world) :
  exists out aw qs,
    _request env meth endpoint pars body is_bulk_api w
    = (out, {| auth := aw; sent := (sent w ++ qs)%list |})
    /\ (length qs <= 2)%nat
    /\ (exists target,
          Forall (fun q => method q = meth /\ url q = target
                           /\ params q = pars /\ json q = body) qs)
    /\ (forall q1 q2, qs = [q1; q2] ->
        exists r, transport env (length (sent w)) q1 = Response r
                  /\ status_code r = 401)
    /\ (forall r, out = Ret r <->
        exists pre q,
          qs = (pre ++ [q])%list
          /\ transport env (length (sent w) + length pre) q = Response r
          /\ is_success (status_code r) = true).
Proof.
  destruct (request_outcome meth endpoint pars body is_bulk_api w)
    as (out & aw & qs & Heq & Hlen & Hall & Hfirst & Hret).
  exists out, aw, qs. repeat split; try assumption; apply Hret.
Qed.

(** The operations [update_record] and [delete_record] on top of
    [_request]. *)
Lemma monolith_operation_outcome (meth endpoint : string) (body : option record)
    (failed not_confirmed : string) (w : world) :
  exists out aw qs,
    try_except
      (success <- (response <- _request env meth endpoint None body false ;;
                   ret (status_code response =? 204)) ;;
       if (success : bool) then ret tt
       else raise (HTTPException 500 not_confirmed))%py
      (operation_handler failed) w
    = (out, {| auth := aw; sent := (sent w ++ qs)%list |})
    /\ (length qs <= 2)%nat
    /\ Forall (fun q => method q = meth /\ params q = None /\ json q = body)
         qs
    /\ (out = Ret tt <->
        exists pre q r,
          qs = (pre ++ [q])%list
          /\ transport env (length (sent w) + length pre) q = Response r
          /\ status_code r = 204)
    /\ (forall e, out = Exc e ->
        exists status detail,
          e = HTTPException status detail
          /\ ((forall pre q r,
                 qs = (pre ++ [q])%list ->
                 transport env (length (sent w) + length pre) q = Response r ->
                 is_success (status_code r) = true ->
                 status = 500 /\ detail = not_confirmed))).
Proof.
  unfold try_except. unfold bind at 1. unfold bind at 1.
  destruct (request_outcome meth endpoint None body false w)
    as (out & aw & qs & -> & Hlen & (target & Hall) & _ & Hret).
  assert (Hall' : Forall (fun q => method q = meth /\ params q = None
                                   /\ json q = body) qs).
  { eapply Forall_impl; [|exact Hall]. cbn. tauto. }
  assert (Hone : forall pre q r pre' q' r',
    qs = (pre ++ [q])%list ->
    transport env (length (sent w) + length pre) q = Response r ->
    qs = (pre' ++ [q'])%list ->
    transport env (length (sent w) + length pre') q' = Response r' ->
    r' = r).
  { intros pre q r pre' q' r' -> Ht Hq Ht'.
    apply app_inj_tail in Hq. destruct Hq as (-> & ->). congruence. }
  destruct out as [r|e].
  - destruct (proj1 (Hret r) eq_refl) as (pre & q & Hq & Ht & Hs).
    unfold ret at 1.
    destruct (Z.eqb_spec (status_code r) 204) as [H204|Hn204].
    + unfold ret. exists (Ret tt), aw, qs. split; [reflexivity|].
      split; [exact Hlen|]. split; [exact Hall'|]. split.
      * split; [intros _; eauto 6|reflexivity].
      * discriminate.
    + unfold raise, operation_handler.
      eexists _, aw, qs. split; [reflexivity|].
      split; [exact Hlen|]. split; [exact Hall'|]. split.
      * split; [discriminate|].
        intros (pre' & q' & r' & Hq' & Ht' & H204).
        rewrite (Hone pre q r pre' q' r' Hq Ht Hq' Ht') in H204. contradiction.
      * intros e H. injection H as <-. do 2 eexists. split; [reflexivity|].
        auto.
  - assert (Hno : forall pre q r,
              qs = (pre ++ [q])%list ->
              transport env (length (sent w) + length pre) q = Response r ->
              is_success (status_code r) = true -> False).
    { intros pre q r Hq Ht Hs.
      assert (H : Exc e = Ret r) by (apply Hret; eauto). discriminate. }
    destruct e as [s d|m|m]; unfold operation_handler, raise;
      eexists _, aw, qs; (split; [reflexivity|]); (split; [exact Hlen|]);
      (split; [exact Hall'|]); split;
      try (split; [discriminate|];
           intros (pre & q & r & Hq & Ht & H204); exfalso;
           apply (Hno pre q r Hq Ht); rewrite H204; reflexivity);
      intros e H; injection H as <-; do 2 eexists;
      (split; [reflexivity|]); intros pre q r Hq Ht Hs; exfalso; eauto.
Qed.

Lemma url_on_base inst endpoint :
  url_on env inst "" ++ endpoint = url_on env inst endpoint.
Proof.
  unfold url_on. rewrite !sapp_assoc. reflexivity.
Qed.

(** With a complete cache and the clock before its refresh threshold, the
    authentication answers from the cache. *)
Lemma client_get_auth_details_cached (c : Auth.SalesforceAuth)
    (access_token instance_url : string) (expiry : Z) (n k : nat)
    (qs : list http_request) :
  Auth._access_token c = Some access_token ->
  Auth._instance_url c = Some instance_url ->
  Auth._token_expiry c = Some expiry ->
  truthy access_token = true -> truthy instance_url = true ->
  stays_before env expiry ->
  get_auth_details env
    {| auth := {| Auth.cache := c; Auth.token_requests := n;
                  Auth.clock_reads := k |};
       sent := qs |}
  = (Ret (access_token, instance_url),
     {| auth := {| Auth.cache := c; Auth.token_requests := n;
                   Auth.clock_reads := S k |};
        sent := qs |}).
Proof.
  intros Ht Hu He Htt Hut Hbefore. unfold get_auth_details, lift.
  cbn [auth sent].
  rewrite (fresh_get_auth_details (auth_env env) _ access_token instance_url).
  - reflexivity.
  - unfold AuthPolicy.fresh. cbn. repeat split; auto. eauto.
Qed.


(** X16. [update_record] and [delete_record] of
    [src/salesforce/operations.py] send at most two requests, a [PATCH]
    with the data as body or a [DELETE], and return exactly when the last
    request they have sent was answered with status 204. Otherwise they
    raise an [HTTPException] and no other exception (the [NameError] of
    the client included); when the last request was answered with another
    success status, its status is 500 and its text says that the success
    was not confirmed. *)
Theorem update_and_delete_record_outcomes (object_name record_id : string)
    (data : record) (w : world) :
  (exists out aw qs,
     update_record env object_name record_id data w
     = (out, {| auth := aw; sent := (sent w ++ qs)%list |})
     /\ (length qs <= 2)%nat
     /\ Forall (fun q => method q = "PATCH" /\ params q = None
                         /\ json q = Some data) qs
     /\ (out = Ret tt <->
         exists pre q r,
           qs = (pre ++ [q])%list
           /\ transport env (length (sent w) + length pre) q = Response r
           /\ status_code r = 204)
     /\ (forall e, out = Exc e ->
         exists status detail,
           e = HTTPException status detail
           /\ (forall pre q r,
                 qs = (pre ++ [q])%list ->
                 transport env (length (sent w) + length pre) q
                 = Response r ->
                 is_success (status_code r) = true ->
                 status = 500
                 /\ detail = "Update operation failed to confirm success.")))
  /\ (exists out aw qs,
        delete_record env object_name record_id w
        = (out, {| auth := aw; sent := (sent w ++ qs)%list |})
        /\ (length qs <= 2)%nat
        /\ Forall (fun q => method q = "DELETE" /\ params q = None
                            /\ json q = None) qs
        /\ (out = Ret tt <->
            exists pre q r,
              qs = (pre ++ [q])%list
              /\ transport env (length (sent w) + length pre) q = Response r
              /\ status_code r = 204)
        /\ (forall e, out = Exc e ->
            exists status detail,
              e = HTTPException status detail
              /\ (forall pre q r,
                    qs = (pre ++ [q])%list ->
                    transport env (length (sent w) + length pre) q
                    = Response r ->
                    is_success (status_code r) = true ->
                    status = 500
                    /\ detail
                       = "Delete operation failed to confirm success."))).
Proof.
  split.
  - unfold update_record, update_sobject_record. apply monolith_operation_outcome.
  - unfold delete_record, delete_sobject_record. apply monolith_operation_outcome.
Qed.

End ClientFacts.

Section ClientExamples.
Import Py ApiClient.
Local Open Scope Z_scope.


End ClientExamples.

(** ** Texts the CSV parser accepts *)

Section CsvInputFacts.
Import Py Csv DataHandler CsvInput.
Local Open Scope string_scope.

(** The end of a line never fails and never leaves the parser in the
    state in which it eats line ends. *)
Lemma process_eol_returns self :
  exists self2,
    parse_process_char self EOL = Ret self2
    /\ (String.length (field self2) <= String.length (field self))%nat
    /\ state self2 <> EAT_CRNL.
Proof.
  destruct self as [st f fs]. unfold parse_process_char.
  destruct st; cbn; eexists; (split; [reflexivity|]); cbn;
    split; try lia; discriminate.
Qed.

(** A character does not fail while the field is below the limit, unless
    it follows a carriage return outside quotes and is not a line end. *)
Lemma process_char_returns self c :
  (Z.of_nat (String.length (field self)) < field_limit)%Z ->
  (state self = EAT_CRNL -> is_newline c = true) ->
  exists self1,
    parse_process_char self (Char c) = Ret self1
    /\ (String.length (field self1) <= S (String.length (field self)))%nat
    /\ (state self1 = EAT_CRNL -> is_newline c = true).
Proof.
  intros Hlen Hst. destruct self as [st f fs]. cbn [field state] in *.
  assert (Hadd : forall st', parse_add_char (mk st' f fs) c
                             = Ret (mk st' (f ++ String c "") fs)).
  { intros st'. now apply add_char_ok. }
  assert (Hl : (String.length (f ++ String c "") <= S (String.length f))%nat).
  { rewrite slength_app. cbn. lia. }
  unfold parse_process_char, parse_start_field, set_state, parse_save_field.
  cbn [state field fields].
  destruct st.
  - destruct (is_newline c) eqn:Hn.
    + eexists. split; [reflexivity|]. cbn. split; [lia|auto].
    + destruct (c =? DQUOTE)%char.
      * eexists. split; [reflexivity|]. cbn. split; [lia|discriminate].
      * destruct (c =? COMMA)%char.
        -- eexists. split; [reflexivity|]. cbn. split; [lia|discriminate].
        -- rewrite Hadd. eexists. split; [reflexivity|]. cbn.
           split; [exact Hl|discriminate].
  - destruct (is_newline c) eqn:Hn.
    + eexists. split; [reflexivity|]. cbn. split; [lia|auto].
    + destruct (c =? DQUOTE)%char.
      * eexists. split; [reflexivity|]. cbn. split; [lia|discriminate].
      * destruct (c =? COMMA)%char.
        -- eexists. split; [reflexivity|]. cbn. split; [lia|discriminate].
        -- rewrite Hadd. eexists. split; [reflexivity|]. cbn.
           split; [exact Hl|discriminate].
  - destruct (is_newline c) eqn:Hn.
    + eexists. split; [reflexivity|]. cbn. split; [lia|auto].
    + destruct (c =? COMMA)%char.
      * eexists. split; [reflexivity|]. cbn. split; [lia|discriminate].
      * rewrite Hadd. eexists. split; [reflexivity|]. cbn.
        split; [exact Hl|discriminate].
  - destruct (c =? DQUOTE)%char.
    + eexists. split; [reflexivity|]. cbn. split; [lia|discriminate].
    + rewrite Hadd. eexists. split; [reflexivity|]. cbn.
      split; [exact Hl|discriminate].
  - destruct (c =? DQUOTE)%char.
    + rewrite Hadd. eexists. split; [reflexivity|]. cbn.
      split; [exact Hl|discriminate].
    + destruct (c =? COMMA)%char.
      * eexists. split; [reflexivity|]. cbn. split; [lia|discriminate].
      * destruct (is_newline c) eqn:Hn.
        -- eexists. split; [reflexivity|]. cbn. split; [lia|auto].
        -- rewrite Hadd. eexists. split; [reflexivity|]. cbn.
           split; [exact Hl|discriminate].
  - rewrite (Hst eq_refl). eexists. split; [reflexivity|]. cbn.
    split; [lia|auto].
Qed.

Lemma end_of_input_returns self : exists rows, end_of_input self = Ret rows.
Proof.
  unfold end_of_input.
  destruct (negb (Nat.eqb (String.length (field self)) 0)
            || is_IN_QUOTED_FIELD (state self)); eauto.
Qed.

Lemma read_stream_returns s : forall self,
  cr_before_lf_only s = true ->
  (Z.of_nat (String.length (field self) + String.length s) <= field_limit)%Z ->
  (state self = EAT_CRNL ->
   match s with String d _ => d = LF | EmptyString => True end) ->
  exists rows, read_stream self s = Ret rows.
Proof.
  induction s as [|c rest IH]; intros self Hcr Hlen Hst.
  - apply end_of_input_returns.
  - cbn [read_stream]. cbn [cr_before_lf_only] in Hcr.
    apply andb_prop in Hcr. destruct Hcr as [Hc Hcr].
    cbn [String.length] in Hlen.
    destruct (process_char_returns self c) as (self1 & -> & Hl1 & Hs1).
    { lia. }
    { intros E. rewrite (Hst E). reflexivity. }
    destruct (process_eol_returns self1) as (self2 & He & Hl2 & Hs2).
    destruct ((c =? LF)%char || Nat.eqb (String.length rest) 0) eqn:Hend.
    + rewrite He. destruct (is_START_RECORD (state self2)).
      * destruct (IH parse_reset Hcr) as (rows & ->).
        -- cbn. lia.
        -- discriminate.
        -- eauto.
      * apply (IH self2 Hcr); [lia|]. intros E. contradiction.
    + apply orb_false_elim in Hend. destruct Hend as [Hlf Hne].
      apply (IH self1 Hcr); [lia|]. intros E.
      specialize (Hs1 E). unfold is_newline in Hs1. rewrite Hlf in Hs1.
      cbn [orb] in Hs1. rewrite Hs1 in Hc.
      destruct rest as [|d rest']; [discriminate|].
      now apply Ascii.eqb_eq in Hc.
Qed.

(** The reader returns for such a text. *)
Lemma reader_returns s :
  cr_before_lf_only s = true ->
  (Z.of_nat (String.length s) <= field_limit)%Z ->
  exists rows, reader s = Ret rows.
Proof.
  intros Hcr Hlen. unfold reader. rewrite read_rows_stream.
  apply read_stream_returns; [exact Hcr|exact Hlen|discriminate].
Qed.

(** X17. Neither [parse_csv_string_to_records] nor the CSV branch of the
    file readers raises for a text of at most 131072 characters in which
    every carriage return is followed by a line feed or ends the text: line
    ends of both kinds, quoted fields and open quotes are accepted. *)
Theorem csv_parsing_returns (s : string) :
  cr_before_lf_only s = true ->
  (Z.of_nat (String.length s) <= field_limit)%Z ->
  (exists rows, parse_csv_string_to_records s = Ret rows)
  /\ (exists rows, read_file_data_for_bulk_csv s = Ret rows).
Proof.
  intros Hcr Hlen. destruct (reader_returns s Hcr Hlen) as (rows & Hr).
  split.
  - unfold parse_csv_string_to_records, DictReader. rewrite Hr.
    destruct (strip_is_empty s); [eauto|]. destruct rows; eauto.
  - unfold read_file_data_for_bulk_csv, DictReader. rewrite Hr.
    destruct rows; eauto.
Qed.

End CsvInputFacts.

(** ** What a returned job id and a raised error mean *)

Section BulkOutcomeFacts.
Import Py Csv DataHandler Bulk BulkOutcome.
Local Open Scope string_scope.
Variable sf : salesforce.

Lemma convert_with_first_keys (first : record) (rest : list record) :
  convert_records_to_csv_string (first :: rest) (Some (dict_keys first))
  = convert_records_to_csv_string (first :: rest) None.
Proof.
  unfold convert_records_to_csv_string, fieldnames_of.
  now destruct (dict_keys first).
Qed.

Lemma create_job_accepted object_name operation external_id_field w info :
  on_create_job sf (length (requests w)) = Ret info ->
  create_bulk_ingest_job sf object_name operation external_id_field w
  = (Ret info,
     {| requests := (requests w
                     ++ [CreateIngestJob object_name operation
                           external_id_field])%list;
        jobs := match job_id info with
                | Some j => dict_set String.eqb (jobs w) j "Open"
                | None => jobs w
                end |}).
Proof. intros H. unfold create_bulk_ingest_job. now rewrite H. Qed.

(** What [update_bulk_job_state] does to the world. *)
Lemma update_state_sent j s w :
  requests (snd (update_bulk_job_state sf j s w))
  = (requests w ++ [UpdateJobState j s])%list
  /\ (forall a w', update_bulk_job_state sf j s w = (Ret a, w') ->
        on_update_state sf (length (requests w)) = Ret tt
        /\ job_state w' j = Some s)
  /\ (on_update_state sf (length (requests w)) = Ret tt ->
      exists w', update_bulk_job_state sf j s w = (Ret tt, w')
                 /\ job_state w' j = Some s).
Proof.
  unfold update_bulk_job_state.
  destruct (on_update_state sf (length (requests w))) as [[]|e] eqn:Ho;
    cbn [snd requests]; repeat split; try discriminate.
  - injection H as <- <-. unfold job_state. cbn [jobs].
    apply job_state_set.
  - intros _. eexists. split; [reflexivity|]. unfold job_state. cbn [jobs].
    apply job_state_set.
Qed.

(** The [except] clauses of the version of [src/salesforce/operations.py]:
    one request to abort the job, whose failure is swallowed, then an
    [HTTPException]. *)
Lemma monolith_handler_aborts {A} j e w (truthy_j : truthy j = true) :
  exists status detail w',
    @monolith_handler sf A (Some j) e w = (Exc (HTTPException status detail), w')
    /\ requests w' = (requests w ++ [UpdateJobState j "Aborted"])%list
    /\ (on_update_state sf (length (requests w)) = Ret tt ->
        job_state w' j = Some "Aborted").
Proof.
  destruct (update_state_sent j "Aborted" w) as (Hsent & Hret & _).
  assert (Habort : exists w',
    try_abort sf (Some j) w = (Ret tt, w')
    /\ requests w' = (requests w ++ [UpdateJobState j "Aborted"])%list
    /\ (on_update_state sf (length (requests w)) = Ret tt ->
        job_state w' j = Some "Aborted")).
  { unfold try_abort, try_except, abort_if_created. rewrite truthy_j.
    destruct (update_bulk_job_state sf j "Aborted" w) as [[[]|e0] w0] eqn:Hu;
      cbn [snd] in Hsent; unfold ret; eexists; (split; [reflexivity|]);
      (split; [exact Hsent|]).
    - intros _. now destruct (Hret tt w0 eq_refl).
    - intros Hok. unfold update_bulk_job_state in Hu. rewrite Hok in Hu.
      discriminate. }
  destruct Habort as (w' & Hab & Hreq & Hst).
  destruct e; unfold monolith_handler, bind; rewrite Hab; unfold raise;
    eauto 10.
Qed.

(** The [except] clauses of the version of
    [shared/src/salesforce/operations.py]: one request to abort the job;
    when it fails its exception is the one that leaves the function. *)
Lemma shared_handler_aborts {A} j e w (truthy_j : truthy j = true) :
  exists e' w',
    @shared_handler sf A (Some j) e w = (Exc e', w')
    /\ requests w' = (requests w ++ [UpdateJobState j "Aborted"])%list
    /\ (on_update_state sf (length (requests w)) = Ret tt ->
        job_state w' j = Some "Aborted"
        /\ exists status detail, e' = HTTPException status detail).
Proof.
  destruct (update_state_sent j "Aborted" w) as (Hsent & Hret & _).
  destruct e; unfold shared_handler, bind, abort_if_created;
    rewrite truthy_j;
    destruct (update_bulk_job_state sf j "Aborted" w) as [[[]|e0] w0] eqn:Hu;
    cbn [snd] in Hsent; unfold raise; do 2 eexists;
    (split; [reflexivity|]); (split; [exact Hsent|]); intros Hok;
    try (destruct (Hret tt w0 eq_refl); split; eauto);
    unfold update_bulk_job_state in Hu; rewrite Hok in Hu; discriminate.
Qed.

(** X18. When [perform_bulk_operation] fails after Salesforce has created
    the job, the last request it has sent is a request to abort this job,
    and the job is aborted when this request is accepted; the version of
    [src/salesforce/operations.py] then raises an [HTTPException] in every
    case, the shared version when the request to abort is accepted. *)
Theorem failure_after_creation_aborts_job (p : payload) (w w' : world)
    (info : job_info) (j : string) (e : exn) :
  on_create_job sf (length (requests w)) = Ret info ->
  job_id info = Some j -> truthy j = true ->
  (monolith_perform_bulk_operation sf p w = (Exc e, w') ->
   exists sent,
     requests w' = (sent ++ [UpdateJobState j "Aborted"])%list
     /\ (exists status detail, e = HTTPException status detail)
     /\ (on_update_state sf (length sent) = Ret tt ->
         job_state w' j = Some "Aborted"))
  /\ (shared_perform_bulk_operation sf p w = (Exc e, w') ->
      exists sent,
        requests w' = (sent ++ [UpdateJobState j "Aborted"])%list
        /\ (on_update_state sf (length sent) = Ret tt ->
            job_state w' j = Some "Aborted"
            /\ exists status detail, e = HTTPException status detail)).
Proof.
  intros Hcreate Hj Htj. split.
  - unfold monolith_perform_bulk_operation. unfold bind at 1.
    unfold try_except at 1.
    rewrite (create_job_accepted _ _ _ w info Hcreate).
    unfold try_except. rewrite Hj.
    match goal with |- context [match ?body ?w1 with _ => _ end] =>
      destruct (body w1) as [[r|e0] w0] end; [discriminate|].
    destruct (@monolith_handler_aborts string j e0 w0 Htj)
      as (status & detail & w2 & Hh & Hreq & Hst).
    rewrite Hh. intros H. injection H as <- <-.
    exists (requests w0). eauto.
  - unfold shared_perform_bulk_operation. unfold bind at 1.
    unfold try_except at 1.
    rewrite (create_job_accepted _ _ _ w info Hcreate).
    unfold try_except. rewrite Hj.
    match goal with |- context [match ?body ?w1 with _ => _ end] =>
      destruct (body w1) as [[r|e0] w0] end; [discriminate|].
    destruct (@shared_handler_aborts string j e0 w0 Htj)
      as (e' & w2 & Hh & Hreq & Hst).
    rewrite Hh. intros H. injection H as <- <-.
    exists (requests w0). eauto.
Qed.

End BulkOutcomeFacts.

Section BulkSuccessFacts.
Import Py Csv DataHandler Bulk BulkOutcome.
Local Open Scope string_scope.
Variable sf : salesforce.

Lemma shared_handler_raises {A} j e w :
  exists e' w', @shared_handler sf A j e w = (Exc e', w').
Proof.
  destruct e; unfold shared_handler, bind;
    destruct (abort_if_created sf j w) as [[[]|e0] w0]; unfold raise; eauto.
Qed.

Lemma monolith_handler_raises {A} j e w :
  exists e' w', @monolith_handler sf A j e w = (Exc e', w').
Proof.
  destruct e; unfold monolith_handler, bind, try_abort, try_except;
    destruct (abort_if_created sf j w) as [[[]|e0] w0]; unfold raise, ret;
    eauto.
Qed.

Lemma send_sent {A} (r : request) (answer : nat -> outcome exn A) w :
  send r answer w
  = (answer (length (requests w)),
     {| requests := (requests w ++ [r])%list; jobs := jobs w |}).
Proof. reflexivity. Qed.

Lemma update_state_returned j s w a w' :
  update_bulk_job_state sf j s w = (Ret a, w') ->
  w' = {| requests := (requests w ++ [UpdateJobState j s])%list;
          jobs := dict_set String.eqb (jobs w) j s |}.
Proof.
  unfold update_bulk_job_state.
  destruct (on_update_state sf (length (requests w))); intros H;
    now inversion H.
Qed.

(** X19. When the [perform_bulk_operation] of
    [shared/src/salesforce/operations.py] returns a job id, it has sent
    exactly three requests, in this order: the creation of the job, which
    Salesforce answered with this id and a content URL; the upload, to this
    URL, of the CSV text of the records, which is not blank; and the change
    of the job's state to [UploadComplete], which is the state the job is
    left in. No request to abort was sent. *)
Theorem shared_returned_job_was_uploaded (p : payload) (w w' : world)
    (j : string) :
  shared_perform_bulk_operation sf p w = (Ret j, w') ->
  exists content_url,
    on_create_job sf (length (requests w))
    = Ret {| job_id := Some j; contentUrl := Some content_url |}
    /\ strip_is_empty (convert_records_to_csv_string (records p) None) = false
    /\ w' = {| requests :=
                 (requests w
                  ++ [CreateIngestJob (object_name p) (operation p)
                        (external_id_field p);
                      UploadJobData content_url
                        (convert_records_to_csv_string (records p) None);
                      UpdateJobState j "UploadComplete"])%list;
               jobs := dict_set String.eqb
                         (dict_set String.eqb (jobs w) j "Open")
                         j "UploadComplete" |}.
Proof.
  unfold shared_perform_bulk_operation. unfold bind at 1.
  unfold try_except at 1, create_bulk_ingest_job.
  destruct (on_create_job sf (length (requests w))) as [info|e] eqn:Hc.
  2:{ match goal with |- context [shared_handler sf ?j0 e ?w0] =>
        destruct (@shared_handler_raises job_info j0 e w0) as (e' & w1 & ->)
      end. discriminate. }
  unfold try_except.
  match goal with |- context [match ?body ?w1 with _ => _ end] =>
    destruct (body w1) as [[r|e0] w0] eqn:Hbody end.
  2:{ match goal with |- context [shared_handler sf ?j0 e0 w0] =>
        destruct (@shared_handler_raises string j0 e0 w0) as (e' & w1 & ->)
      end. discriminate. }
  intros H. injection H as -> ->.
  destruct info as [[j0|] [u|]]; cbn [job_id contentUrl] in Hbody;
    try discriminate.
  destruct (truthy j0 && truthy u); [|discriminate].
  destruct (strip_is_empty (convert_records_to_csv_string (records p) None))
    eqn:Hblank.
  { unfold bind, raise in Hbody.
    destruct (update_bulk_job_state sf j0 "Aborted" _) as [[[]|?] ?];
      discriminate. }
  unfold bind at 1, upload_bulk_job_data in Hbody.
  rewrite send_sent in Hbody. cbn [requests jobs] in Hbody.
  destruct (on_upload sf _) as [ok|?]; [|discriminate].
  unfold bind at 1 in Hbody.
  destruct (update_bulk_job_state sf j0 "UploadComplete" _)
    as [[[]|?] w2] eqn:Hu; [|discriminate].
  unfold ret in Hbody. injection Hbody as -> ->.
  apply update_state_returned in Hu. cbn [requests jobs] in Hu.
  exists u. split; [reflexivity|]. split; [reflexivity|].
  rewrite Hu. now rewrite <- !app_assoc.
Qed.

(** X20. When the [perform_bulk_operation] of [src/salesforce/operations.py]
    returns a job id for a DML operation, the records were not empty and it
    has sent exactly three requests: the creation of the job (with the
    external id field only for an upsert), answered with this id and a
    content URL; the upload of the CSV text of the records, which is the
    text the shared version uploads, is not blank and has at least two
    lines, and which Salesforce answered with status 201; and the change of
    the job's state to [UploadComplete]. For another operation it has sent
    the creation and the change of state only. *)
Theorem monolith_returned_job_was_uploaded (p : payload) (w w' : world)
    (j : string) :
  monolith_perform_bulk_operation sf p w = (Ret j, w') ->
  exists content_url,
    on_create_job sf (length (requests w))
    = Ret {| job_id := Some j; contentUrl := Some content_url |}
    /\ w' = {| requests :=
                 (requests w
                  ++ submission
                       (CreateIngestJob (object_name p) (operation p)
                          (if String.eqb (operation p) "upsert"
                           then external_id_field p else None))
                       (if is_dml (operation p)
                        then Some (UploadJobData content_url
                                     (convert_records_to_csv_string
                                        (records p) None))
                        else None)
                       j)%list;
               jobs := dict_set String.eqb
                         (dict_set String.eqb (jobs w) j "Open")
                         j "UploadComplete" |}
    /\ (is_dml (operation p) = true ->
        records p <> []
        /\ strip_is_empty (convert_records_to_csv_string (records p) None)
           = false
        /\ (2 <= split_lf_length
                   (strip (convert_records_to_csv_string (records p) None)))%nat
        /\ on_upload sf (S (length (requests w))) = Ret true).
Proof.
  unfold monolith_perform_bulk_operation. unfold bind at 1.
  unfold try_except at 1, create_bulk_ingest_job.
  destruct (on_create_job sf (length (requests w))) as [info|e] eqn:Hc.
  2:{ match goal with |- context [monolith_handler sf ?j0 e ?w0] =>
        destruct (@monolith_handler_raises job_info j0 e w0) as (e' & w1 & ->)
      end. discriminate. }
  unfold try_except.
  match goal with |- context [match ?body ?w1 with _ => _ end] =>
    destruct (body w1) as [[r|e0] w0] eqn:Hbody end.
  2:{ match goal with |- context [monolith_handler sf ?j0 e0 w0] =>
        destruct (@monolith_handler_raises string j0 e0 w0) as (e' & w1 & ->)
      end. discriminate. }
  intros H. injection H as -> ->.
  destruct info as [[j0|] [u|]]; cbn [job_id contentUrl] in Hbody;
    try discriminate.
  destruct (truthy j0 && truthy u); [|discriminate].
  exists u. unfold submission.
  destruct (is_dml (operation p)) eqn:Hdml.
  - destruct (records p) as [|first rest] eqn:Hrec.
    { unfold bind, raise in Hbody.
      destruct (update_bulk_job_state sf j0 "Aborted" _) as [[[]|?] ?];
        discriminate. }
    rewrite convert_with_first_keys in Hbody.
    set (csv := convert_records_to_csv_string (first :: rest) None) in *.
    destruct (strip_is_empty csv) eqn:Hblank; cbn [orb] in Hbody.
    { unfold bind, raise in Hbody.
      destruct (update_bulk_job_state sf j0 "Aborted" _) as [[[]|?] ?];
        discriminate. }
    destruct (Nat.ltb_spec (split_lf_length (strip csv)) 2) as [Hlt|Hge].
    { unfold bind, raise in Hbody.
      destruct (update_bulk_job_state sf j0 "Aborted" _) as [[[]|?] ?];
        discriminate. }
    unfold bind at 1 in Hbody. unfold bind at 1 in Hbody.
    unfold upload_bulk_job_data in Hbody.
    rewrite send_sent in Hbody. cbn [requests jobs] in Hbody.
    rewrite length_app in Hbody. cbn [length] in Hbody.
    rewrite Nat.add_1_r in Hbody.
    destruct (on_upload sf (S (length (requests w)))) as [[|]|?] eqn:Hup.
    + unfold ret at 1 in Hbody. unfold bind at 1 in Hbody.
      destruct (update_bulk_job_state sf j0 "UploadComplete" _)
        as [[[]|?] w2] eqn:Hu; [|discriminate].
      unfold ret in Hbody. injection Hbody as -> ->.
      apply update_state_returned in Hu. cbn [requests jobs] in Hu.
      split; [reflexivity|]. split.
      * rewrite Hu. cbn [app]. now rewrite <- !app_assoc.
      * intros _. repeat split; auto. discriminate.
    + unfold bind, raise in Hbody.
      destruct (update_bulk_job_state sf j0 "Aborted" _) as [[[]|?] ?];
        discriminate.
    + discriminate.
  - unfold bind at 1 in Hbody. unfold ret at 1 in Hbody.
    unfold bind at 1 in Hbody.
    destruct (update_bulk_job_state sf j0 "UploadComplete" _)
      as [[[]|?] w2] eqn:Hu; [|discriminate].
    unfold ret in Hbody. injection Hbody as -> ->.
    apply update_state_returned in Hu. cbn [requests jobs] in Hu.
    split; [reflexivity|]. split; [|discriminate].
    rewrite Hu. cbn [app]. now rewrite <- !app_assoc.
Qed.

End BulkSuccessFacts.

Section StatusEndpointFacts.
Import Py Csv DataHandler Bulk BulkOutcome CsvInput.
Local Open Scope string_scope.
Variable sf : salesforce.

Lemma status_of_incomplete j q w info :
  on_job_info sf (length (requests w)) = Ret info ->
  status_state info <> Some "JobComplete" ->
  get_bulk_job_status_and_results sf j q w
  = (Ret (info, None),
     {| requests := (requests w ++ [GetJobInfo q j])%list; jobs := jobs w |}).
Proof.
  intros Hinfo Hstate.
  unfold get_bulk_job_status_and_results, try_except. unfold bind at 1.
  unfold get_job_info. rewrite send_sent, Hinfo.
  destruct (status_state info) as [state|]; [|reflexivity].
  destruct (String.eqb_spec state "JobComplete") as [->|Hne];
    [congruence|reflexivity].
Qed.



(** X23. Whatever Salesforce answers, the status endpoint only reads: it
    sends at most three requests, each of them a GET, and changes the
    state of no job; and when it fails, it fails with status 500, whatever
    the status Salesforce answered with. *)
Theorem status_endpoint_only_reads (j : string) (is_query_job : bool)
    (w : world) :
  exists sent out,
    handle_get_bulk_job_status_and_results_endpoint sf j is_query_job w
    = (out, {| requests := (requests w ++ sent)%list; jobs := jobs w |})
    /\ forallb is_read sent = true
    /\ (length sent <= 3)%nat
    /\ forall e, out = Exc e -> exists detail, e = HTTPException 500 detail.
Proof.
  assert (Hinner : exists sent out,
    get_bulk_job_status_and_results sf j is_query_job w
    = (out, {| requests := (requests w ++ sent)%list; jobs := jobs w |})
    /\ forallb is_read sent = true /\ (length sent <= 3)%nat).
  { unfold get_bulk_job_status_and_results, try_except. unfold bind at 1.
    unfold get_job_info. rewrite send_sent.
    destruct (on_job_info sf (length (requests w))) as [info|e].
    - destruct (status_state info) as [state|].
      + destruct (String.eqb state "JobComplete").
        * destruct is_query_job.
          -- unfold bind at 1, get_query_results. rewrite send_sent.
             cbn [requests jobs].
             destruct (on_query_results sf _ j); unfold ret;
               [|destruct e; unfold raise]; rewrite <- app_assoc;
               do 2 eexists; (split; [reflexivity|]); split; cbn; auto; lia.
          -- unfold bind at 1, get_bulk_job_successful_results.
             rewrite send_sent. cbn [requests jobs].
             destruct (on_successful_results sf _ j).
             ++ unfold bind at 1, get_bulk_job_failed_results.
                rewrite send_sent. cbn [requests jobs].
                destruct (on_failed_results sf _ j); unfold ret;
                  [|destruct e; unfold raise]; rewrite <- !app_assoc;
                  do 2 eexists; (split; [reflexivity|]); split; cbn; auto;
                  lia.
             ++ destruct e; unfold raise; rewrite <- !app_assoc;
                  do 2 eexists; (split; [reflexivity|]); split; cbn; auto;
                  lia.
        * unfold ret. do 2 eexists. (split; [reflexivity|]); split; cbn; auto.
      + unfold ret. do 2 eexists. (split; [reflexivity|]); split; cbn; auto.
    - destruct e; unfold raise; do 2 eexists; (split; [reflexivity|]);
        split; cbn; auto. }
  destruct Hinner as (sent & out0 & Heq & Hread & Hlen).
  exists sent.
  unfold handle_get_bulk_job_status_and_results_endpoint, try_except.
  unfold bind at 1. rewrite Heq.
  set (w1 := {| requests := (requests w ++ sent)%list; jobs := jobs w |}).
  destruct out0 as [[info results]|e].
  2:{ unfold raise. eexists. split; [reflexivity|]. repeat split; auto.
      intros e0 H. injection H as <-. eauto. }
  assert (Hkeep : forall (m : run (option parsed_results)),
            (exists o, m w1 = (o, w1)) ->
            exists out,
              match
                (parsed <- m ;;
                 ret {| response_job_id := match status_id info with
                                           | Some i => i
                                           | None => j
                                           end;
                        response_state := status_state info;
                        response_results_data := parsed;
                        raw_results_csv := results |})%py w1
              with
              | (Ret a, s') => (Ret a, s')
              | (Exc e, s') => raise (HTTPException 500 (exn_str e)) s'
              end = (out, w1)
              /\ forallb is_read sent = true /\ (length sent <= 3)%nat
              /\ forall e, out = Exc e ->
                           exists detail, e = HTTPException 500 detail).
  { intros m (o & Hm). unfold bind. rewrite Hm. destruct o as [a|e];
      unfold ret, raise; eexists; (split; [reflexivity|]);
      repeat split; auto.
    - discriminate.
    - intros e0 H. injection H as <-. eauto. }
  apply Hkeep.
  assert (Hparse : forall s, exists o, parse s w1 = (o, w1)).
  { intros s. unfold parse.
    destruct (parse_csv_string_to_records s); unfold ret, raise; eauto. }
  destruct results as [r|]; [|unfold ret; eauto].
  destruct (results_truthy r); [|unfold ret; eauto].
  destruct r as [text|texts]; destruct is_query_job;
    try (unfold ret; eauto; fail).
  - unfold bind. destruct (Hparse text) as (o & ->).
    destruct o; unfold ret; eauto.
  - unfold bind.
    destruct (Hparse (csv_of texts "successful_records_csv")) as (o1 & ->).
    destruct o1; [|eauto].
    destruct (Hparse (csv_of texts "failed_records_csv")) as (o2 & ->).
    destruct o2; [|eauto].
    destruct (Hparse (csv_of texts "unprocessed_records_csv")) as (o3 & ->).
    destruct o3; unfold ret; eauto.
Qed.

End StatusEndpointFacts.

Section BulkOutcomeExamples.
Import Py Csv DataHandler Bulk BulkOutcome.
Local Open Scope Z_scope.

Lemma failure_after_creation_aborts_job_witness :
  exists sent,
    requests (snd (monolith_perform_bulk_operation refusing_upload
                     insert_sample empty_world))
    = (sent ++ [UpdateJobState "750xx01" "Aborted"])%list
    /\ job_state (snd (monolith_perform_bulk_operation refusing_upload
                         insert_sample empty_world)) "750xx01"
       = Some "Aborted".
Proof.
  destruct (proj1 (failure_after_creation_aborts_job refusing_upload
                     insert_sample empty_world
                     (snd (monolith_perform_bulk_operation refusing_upload
                             insert_sample empty_world))
                     {| job_id := Some "750xx01";
                        contentUrl :=
                          Some "services/data/v58.0/jobs/ingest/750xx01/batches" |}
                     "750xx01"
                     (HTTPException 400
                        "Salesforce Bulk API Upload Error: InvalidBatch")
                     eq_refl eq_refl eq_refl))
    as (sent & Hsent & _ & Hstate).
  - vm_compute. reflexivity.
  - exists sent. split; [exact Hsent|]. apply Hstate. reflexivity.
Defined.

Lemma shared_returned_job_was_uploaded_witness :
  exists content_url,
    on_create_job obliging 0
    = Ret {| job_id := Some "750xx01"; contentUrl := Some content_url |}
    /\ length (requests (snd (shared_perform_bulk_operation obliging
                                insert_sample empty_world))) = 3%nat.
Proof.
  destruct (shared_returned_job_was_uploaded obliging insert_sample
              empty_world
              (snd (shared_perform_bulk_operation obliging insert_sample
                      empty_world))
              "750xx01")
    as (content_url & Hcreate & _ & Hw).
  - vm_compute. reflexivity.
  - exists content_url. split; [exact Hcreate|]. rewrite Hw. reflexivity.
Defined.

Lemma monolith_returned_job_was_uploaded_witness :
  exists content_url,
    on_create_job obliging 0
    = Ret {| job_id := Some "750xx01"; contentUrl := Some content_url |}
    /\ records insert_sample <> []
    /\ on_upload obliging 1 = Ret true.
Proof.
  destruct (monolith_returned_job_was_uploaded obliging insert_sample
              empty_world
              (snd (monolith_perform_bulk_operation obliging insert_sample
                      empty_world))
              "750xx01")
    as (content_url & Hcreate & _ & Hdml).
  - vm_compute. reflexivity.
  - exists content_url. split; [exact Hcreate|].
    destruct (Hdml eq_refl) as (Hrec & _ & _ & Hup). split; assumption.
Defined.

End BulkOutcomeExamples.

Section CsvInputExamples.
Import Py Csv DataHandler Bulk BulkOutcome CsvInput.
Local Open Scope string_scope.

Lemma csv_parsing_returns_witness :
  (exists rows, parse_csv_string_to_records windows_text = Ret rows)
  /\ (exists rows, read_file_data_for_bulk_csv windows_text = Ret rows).
Proof.
  apply (csv_parsing_returns windows_text).
  - vm_compute. reflexivity.
  - vm_compute. discriminate.
Defined.



End CsvInputExamples.

(** ** Query jobs ([perform_bulk_query]) *)

Section BulkQueryFacts.
Import Py Bulk BulkQuery.
Local Open Scope string_scope.
Variable sf : BulkQuery.salesforce.

(** X24. Both versions of [perform_bulk_query] send exactly one request,
    the creation of the query job, whatever Salesforce answers: the
    requests to abort in their [except] clauses are never sent, since no
    statement can fail once a job id is known. They return the id of the
    answer exactly when the answer has one that is not empty, and raise an
    [HTTPException] otherwise. *)
Theorem perform_bulk_query_sends_one_request (soql_query operation : string)
    (w : list BulkQuery.request) :
  (exists out,
     shared_perform_bulk_query sf soql_query operation w
     = (out, (w ++ [PostQueryJob operation soql_query])%list)
     /\ (forall j, out = Ret j <->
                   on_post sf (length w) = Ret (Some j) /\ truthy j = true)
     /\ (forall e, out = Exc e ->
                   exists status detail, e = HTTPException status detail))
  /\ (exists out,
        monolith_perform_bulk_query sf soql_query operation w
        = (out, (w ++ [PostQueryJob operation soql_query])%list)
        /\ (forall j, out = Ret j <->
                      on_post sf (length w) = Ret (Some j) /\ truthy j = true)
        /\ (forall e, out = Exc e ->
                      exists status detail, e = HTTPException status detail)).
Proof.
  split.
  - unfold shared_perform_bulk_query. unfold bind at 1.
    unfold try_except at 1, post_query_job.
    destruct (on_post sf (length w)) as [[j|]|e] eqn:Hp.
    + unfold try_except, check_job_id. destruct (truthy j) eqn:Ht.
      * unfold ret. eexists. split; [reflexivity|]. split.
        -- intros j'. split.
           ++ intros H. injection H as <-. auto.
           ++ intros (H & _). now injection H as <-.
        -- discriminate.
      * unfold raise at 1, shared_handler, abort_if_created. rewrite Ht.
        unfold bind, ret, raise. eexists. split; [reflexivity|]. split.
        -- intros j'. split; [discriminate|].
           intros (H & H'). injection H as <-. congruence.
        -- intros e H. injection H as <-. eauto.
    + unfold try_except, check_job_id, raise at 1, shared_handler,
        abort_if_created, bind, ret, raise.
      eexists. split; [reflexivity|]. split.
      * intros j'. split; [discriminate|]. intros (H & _). discriminate.
      * intros e H. injection H as <-. eauto.
    + destruct e; unfold shared_handler, abort_if_created, bind, ret, raise;
        eexists; (split; [reflexivity|]); (split;
          [intros j'; split; [discriminate|intros (H & _); discriminate]
          |intros e' H; injection H as <-; eauto]).
  - unfold monolith_perform_bulk_query. unfold bind at 1.
    unfold try_except at 1, post_query_job.
    destruct (on_post sf (length w)) as [[j|]|e] eqn:Hp.
    + unfold try_except at 1, check_job_id. destruct (truthy j) eqn:Ht.
      * unfold ret. eexists. split; [reflexivity|]. split.
        -- intros j'. split.
           ++ intros H. injection H as <-. auto.
           ++ intros (H & _). now injection H as <-.
        -- discriminate.
      * unfold raise at 1, monolith_handler, abort_if_created. rewrite Ht.
        unfold try_except, bind, ret, raise. eexists.
        split; [reflexivity|]. split.
        -- intros j'. split; [discriminate|].
           intros (H & H'). injection H as <-. congruence.
        -- intros e H. injection H as <-. eauto.
    + unfold try_except, check_job_id, raise at 1, monolith_handler,
        abort_if_created, bind, ret, raise.
      eexists. split; [reflexivity|]. split.
      * intros j'. split; [discriminate|]. intros (H & _). discriminate.
      * intros e H. injection H as <-. eauto.
    + destruct e;
        unfold monolith_handler, abort_if_created, try_except, bind, ret,
          raise;
        eexists; (split; [reflexivity|]); (split;
          [intros j'; split; [discriminate|intros (H & _); discriminate]
          |intros e' H; injection H as <-; eauto]).
Qed.

End BulkQueryFacts.

(** ** Record-by-record processing ([routers/bulk.py]) *)

Section RestBatchFacts.
Import Py Bulk RestBatch.
Local Open Scope string_scope.
Local Open Scope Z_scope.
Variable sf : RestBatch.salesforce.

(** [create_record] makes one call; it returns an id exactly when the
    answer reports a success, and raises an [HTTPException] otherwise. *)
Lemma create_record_outcome object_name data (w : RestBatch.world) :
  exists out,
    create_record sf object_name data w
    = (out, (w ++ [(object_name, data)])%list)
    /\ (if created_ok (on_create_record sf (length w))
        then exists i, out = Ret i
        else exists status detail, out = Exc (HTTPException status detail)).
Proof.
  unfold create_record, try_except, bind, create_sobject_record, created_ok.
  destruct (on_create_record sf (length w)) as [a|e].
  - destruct (answer_success a); unfold ret, raise; eauto.
  - destruct e; unfold raise; eauto.
Qed.

Lemma process_record_outcome object_name operation_type data
    (w : RestBatch.world) :
  exists d ok,
    process_record sf object_name operation_type data w
    = (Ret (d, ok),
       if String.eqb operation_type "create"
       then (w ++ [(object_name, data)])%list else w)
    /\ (if String.eqb operation_type "create"
        then ok = created_ok (on_create_record sf (length w))
             /\ detail_success d = ok
        else ok = true
             /\ d = {| detail_success := false; detail_id := None;
                       detail_errors := None |}).
Proof.
  unfold process_record, try_except. unfold bind at 1.
  destruct (String.eqb operation_type "create").
  - unfold bind at 1.
    destruct (create_record_outcome object_name data w) as (out & -> & Hout).
    destruct (created_ok (on_create_record sf (length w))).
    + destruct Hout as (i & ->). unfold ret. do 2 eexists.
      split; [reflexivity|]. auto.
    + destruct Hout as (status & detail & ->). unfold ret. do 2 eexists.
      split; [reflexivity|]. auto.
  - unfold ret. do 2 eexists. split; [reflexivity|]. auto.
Qed.

Lemma successes_app results d :
  successes (results ++ [d])
  = (successes results + if detail_success d then 1 else 0)%nat.
Proof.
  unfold successes. rewrite filter_app, length_app. cbn.
  destruct (detail_success d); reflexivity.
Qed.

Lemma process_records_outcome object_name operation_type records :
  forall success_count failed_count results0 (w : RestBatch.world),
  exists s f results,
    process_records sf object_name operation_type records
      success_count failed_count results0 w
    = (Ret (success_count + s, failed_count + f, (results0 ++ results)%list),
       if String.eqb operation_type "create"
       then (w ++ map (fun r => (object_name, r)) records)%list else w)
    /\ length results = length records
    /\ 0 <= f /\ s + f = Z.of_nat (length records)
    /\ (if String.eqb operation_type "create"
        then s = Z.of_nat (successes results)
             /\ forall i d, nth_error results i = Some d ->
                  detail_success d
                  = created_ok (on_create_record sf (length w + i))
        else f = 0
             /\ Forall (fun d => d = {| detail_success := false;
                                        detail_id := None;
                                        detail_errors := None |}) results).
Proof.
  induction records as [|r records IH];
    intros success_count failed_count results0 w.
  - exists 0, 0, []. cbn [process_records map]. unfold ret.
    rewrite !Z.add_0_r, !app_nil_r.
    split; [now destruct (String.eqb operation_type "create")|].
    split; [reflexivity|]. split; [lia|]. split; [reflexivity|].
    destruct (String.eqb operation_type "create"); split; auto.
    intros [|i] d H; discriminate.
  - cbn [process_records]. unfold bind at 1.
    destruct (process_record_outcome object_name operation_type r w)
      as (d & ok & -> & Hd).
    match goal with
    | |- context [process_records _ _ _ _ ?s1 ?f1 ?res1 ?w1] =>
        destruct (IH s1 f1 res1 w1) as (s & f & results & -> & Hl & Hf & Hsum & Hrest)
    end.
    exists ((if ok then 1 else 0) + s), ((if ok then 0 else 1) + f),
      (d :: results).
    split; [|split; [cbn; lia|split; [destruct ok; lia|
             split; [destruct ok; cbn [length]; lia|]]]].
    + replace ((if ok then success_count + 1 else success_count) + s)
        with (success_count + ((if ok then 1 else 0) + s))
        by (destruct ok; lia).
      replace ((if ok then failed_count else failed_count + 1) + f)
        with (failed_count + ((if ok then 0 else 1) + f))
        by (destruct ok; lia).
      rewrite <- app_assoc. cbn [app map].
      destruct (String.eqb operation_type "create"); [|reflexivity].
      now rewrite <- app_assoc.
    + destruct (String.eqb operation_type "create").
      * destruct Hd as (Hok & Hds). destruct Hrest as (Hs & Hnth). split.
        -- change (d :: results) with ([d] ++ results)%list.
           unfold successes in *. rewrite filter_app, length_app.
           cbn [filter]. rewrite Hds. destruct ok; cbn [length]; lia.
        -- intros [|i] d0 H.
           ++ injection H as <-. rewrite Nat.add_0_r. congruence.
           ++ cbn [nth_error] in H. rewrite (Hnth i d0 H).
              rewrite length_app. cbn [length]. do 2 f_equal. lia.
      * destruct Hd as (-> & ->). destruct Hrest as (-> & Hall).
        split; [lia|]. constructor; auto.
Qed.

(** X25. The record-by-record branch of [handle_batch_record_processing]
    never raises and reports one entry per record. For the operation type
    [create] it calls [create_record] once per record, in order; the entry
    of a record reports a success exactly when Salesforce reported one for
    its call; the counts of the message are the numbers of these entries;
    and the response reports a success exactly when no record failed. For
    any other operation type it sends nothing to Salesforce, every entry
    reports no success, and yet the message counts every record as
    successful and the response reports a success. *)
Theorem rest_batch_reports (object_name operation_type : string)
    (records : list record) (w : RestBatch.world) :
  exists s f results,
    rest_batch sf object_name operation_type records w
    = (Ret {| response_success := (f =? 0);
              response_message := processed_message (length records) s f;
              response_job_id := None;
              response_results := Some results |},
       if String.eqb operation_type "create"
       then (w ++ map (fun r => (object_name, r)) records)%list else w)
    /\ length results = length records
    /\ 0 <= f /\ s + f = Z.of_nat (length records)
    /\ (if String.eqb operation_type "create"
        then s = Z.of_nat (successes results)
             /\ forall i d, nth_error results i = Some d ->
                  detail_success d
                  = created_ok (on_create_record sf (length w + i))
        else f = 0
             /\ Forall (fun d => d = {| detail_success := false;
                                        detail_id := None;
                                        detail_errors := None |}) results).
Proof.
  unfold rest_batch, bind.
  destruct (process_records_outcome object_name operation_type records
              0 0 [] w) as (s & f & results & -> & H).
  cbn [app Z.add]. unfold ret. exists s, f, results. split; [reflexivity|].
  exact H.
Qed.

End RestBatchFacts.

(** ** The endpoints that submit DML jobs ([routers/bulk.py]) *)

Section BulkRouterFacts.
Import Py Csv DataHandler Bulk BulkRouter.
Local Open Scope string_scope.
Variable sf : salesforce.
Variable validation_error : string.

Lemma mem_valid_ops op :
  mem op valid_ops = true ->
  op <> "harddelete" ->
  mem op ["insert"; "update"; "upsert"; "delete"] = true.
Proof.
  unfold mem, valid_ops. cbn [existsb]. intros H Hne.
  destruct (String.eqb_spec op "harddelete") as [E|_]; [contradiction|].
  now rewrite !orb_false_r in *.
Qed.

(** The payload of a job the endpoints submit passes the validators. *)
Lemma new_payload_accepts object_name op r rs ext w :
  mem op ["insert"; "update"; "upsert"; "delete"] = true ->
  (op = "upsert" -> truthy_opt ext = true) ->
  new_payload validation_error object_name op (r :: rs) ext w
  = (Ret {| object_name := object_name; operation := op;
            records := r :: rs; external_id_field := ext |}, w).
Proof.
  unfold mem. cbn [existsb]. intros Hop Hext. unfold new_payload.
  assert (Hcases : op = "insert" \/ op = "update" \/ op = "upsert"
                   \/ op = "delete").
  { repeat (apply orb_prop in Hop; destruct Hop as [Hop|Hop]);
      try discriminate; apply String.eqb_eq in Hop; auto. }
  destruct Hcases as [ -> | [ -> | [ -> | -> ] ] ]; try reflexivity.
  rewrite (Hext eq_refl). reflexivity.
Qed.


(** X27. A hard delete cannot be submitted through these endpoints: the
    endpoints know the operation as [harddelete], in lower case, and the
    validator of [SalesforceBulkOperationPayload] only as [hardDelete]. For
    an operation type that is [harddelete] in lower case and a file or a
    payload with records, both endpoints fail with status 500 and the text
    of the validation error, and send nothing to Salesforce. *)
Theorem hard_delete_is_never_submitted (object_name operation_type : string)
    (r : record) (rs : list record) (external_id_field : option string)
    (w : world) :
  lower operation_type = "harddelete" ->
  handle_bulk_dml_from_file_upload sf validation_error object_name
    operation_type (Ret (r :: rs)) external_id_field w
  = (Exc (HTTPException 500 validation_error), w)
  /\ handle_bulk_dml_direct_payload sf validation_error object_name
       (lower operation_type) (r :: rs) external_id_field w
     = (Exc (HTTPException 500 validation_error), w).
Proof.
  intros Hhd. split.
  - unfold handle_bulk_dml_from_file_upload. rewrite Hhd. reflexivity.
  - unfold handle_bulk_dml_direct_payload. rewrite Hhd. reflexivity.
Qed.

End BulkRouterFacts.

Section BulkRouterExamples.
Import Py Csv DataHandler Bulk BulkRouter.
Local Open Scope string_scope.


Lemma hard_delete_is_never_submitted_witness :
  handle_bulk_dml_from_file_upload obliging "1 validation error" "Account"
    "hardDelete" (Ret [[("Name", VStr "Acme")]]) None empty_world
  = (Exc (HTTPException 500 "1 validation error"), empty_world).
Proof.
  apply (proj1 (hard_delete_is_never_submitted obliging "1 validation error"
                  "Account" "hardDelete" _ _ None empty_world eq_refl)).
Defined.

End BulkRouterExamples.

(** ** The record service: update and delete *)

Section RecordServiceFacts.
Import Py Bulk RecordService.
Local Open Scope string_scope.
Local Open Scope Z_scope.
Variable sf : RecordService.salesforce.

(** What an operation makes of the outcome of its call of the client. *)
Lemma shared_operation_outcome (c : call) (failed not_confirmed : string)
    (w : RecordService.world) :
  exists out,
    try_except
      (success <- (fun w => (on_call sf (length w), (w ++ [c])%list)) ;;
       if (success : bool) then ret tt
       else raise (HTTPException 500 not_confirmed))%py
      (RecordService.operation_handler failed) w
    = (out, (w ++ [c])%list)
    /\ (out = Ret tt <-> on_call sf (length w) = Ret true)
    /\ (forall status_code detail,
          on_call sf (length w) = Exc (HTTPException status_code detail) ->
          out = Exc (HTTPException 500
                       (failed ++ str_of_int status_code ++ ": " ++ detail)))
    /\ (forall e, out = Exc e ->
        exists status_code detail,
          e = HTTPException status_code detail
          /\ (status_code <> 500 ->
              exists message,
                on_call sf (length w)
                = Exc (HTTPStatusError status_code detail message))).
Proof.
  unfold try_except, bind.
  destruct (on_call sf (length w)) as [[|]|[s d|s t m|m]] eqn:Hc;
    unfold ret, raise, RecordService.operation_handler; eexists;
    (split; [reflexivity|]); (split; [split; congruence|]);
    (split; [intros s' d' H; try discriminate|]).
  - discriminate.
  - intros e H. injection H as <-. do 2 eexists. split; [reflexivity|].
    congruence.
  - injection H as <- <-. reflexivity.
  - intros e H. injection H as <-. do 2 eexists. split; [reflexivity|].
    congruence.
  - intros e H. injection H as <-. do 2 eexists. split; [reflexivity|].
    eauto.
  - intros e H. injection H as <-. do 2 eexists. split; [reflexivity|].
    congruence.
Qed.

(** X28. The update and delete endpoints of the record service make
    exactly one call of the client (the update endpoint none, answering
    with status 400, when the record id or the data is missing) and answer
    with a success exactly when the client reports status 204. An
    [HTTPException] of the client, whatever its status, comes out with
    status 500, its own status being left in the text only; a status other
    than 500 is reported only for an [httpx.HTTPStatusError] that reaches
    the operation. *)
Theorem record_service_reports_client_errors_as_500 (object_name : string)
    (record_id : option string) (data : option record)
    (w : RecordService.world) :
  (truthy_opt record_id && truthy_data data = false ->
   exists detail,
     handle_update_record_endpoint sf object_name record_id data w
     = (Exc (HTTPException 400 detail), w))
  /\ (forall i d,
        record_id = Some i -> data = Some d ->
        truthy i = true -> truthy_data data = true ->
        exists out,
          handle_update_record_endpoint sf object_name record_id data w
          = (out, (w ++ [UpdateRecord object_name i d])%list)
          /\ ((exists response,
                 out = Ret response /\ response_success response = true)
              <-> on_call sf (length w) = Ret true)
          /\ (forall status_code detail,
                on_call sf (length w)
                = Exc (HTTPException status_code detail) ->
                out = Exc (HTTPException 500
                             (("Failed to update record " ++ object_name ++ "/"
                               ++ i ++ ": ")
                              ++ str_of_int status_code ++ ": " ++ detail)))
          /\ (forall e, out = Exc e ->
              exists status_code detail,
                e = HTTPException status_code detail
                /\ (status_code <> 500 ->
                    exists message,
                      on_call sf (length w)
                      = Exc (HTTPStatusError status_code detail message))))
  /\ (forall i,
        exists out,
          handle_delete_record_endpoint sf object_name i w
          = (out, (w ++ [DeleteRecord object_name i])%list)
          /\ ((exists response,
                 out = Ret response /\ response_success response = true)
              <-> on_call sf (length w) = Ret true)
          /\ (forall status_code detail,
                on_call sf (length w)
                = Exc (HTTPException status_code detail) ->
                out = Exc (HTTPException 500
                             (("Failed to delete record " ++ object_name ++ "/"
                               ++ i ++ ": ")
                              ++ str_of_int status_code ++ ": " ++ detail)))
          /\ (forall e, out = Exc e ->
              exists status_code detail,
                e = HTTPException status_code detail
                /\ (status_code <> 500 ->
                    exists message,
                      on_call sf (length w)
                      = Exc (HTTPStatusError status_code detail message)))).
Proof.
  assert (Hwrap : forall (c : call) failed not_confirmed message,
    exists out,
      try_except
        (try_except
           (success <- (fun w => (on_call sf (length w), (w ++ [c])%list)) ;;
            if (success : bool) then ret tt
            else raise (HTTPException 500 not_confirmed))%py
           (RecordService.operation_handler failed) ;;
         ret {| response_success := true; response_message := message |})%py
        endpoint_handler w
      = (out, (w ++ [c])%list)
      /\ ((exists response,
             out = Ret response /\ response_success response = true)
          <-> on_call sf (length w) = Ret true)
      /\ (forall status_code detail,
            on_call sf (length w) = Exc (HTTPException status_code detail) ->
            out = Exc (HTTPException 500
                         (failed ++ str_of_int status_code ++ ": " ++ detail)))
      /\ (forall e, out = Exc e ->
          exists status_code detail,
            e = HTTPException status_code detail
            /\ (status_code <> 500 ->
                exists message,
                  on_call sf (length w)
                  = Exc (HTTPStatusError status_code detail message)))).
  { intros c failed not_confirmed message.
    unfold try_except at 1. unfold bind at 1.
    destruct (shared_operation_outcome c failed not_confirmed w)
      as (out & -> & Hok & Hhttp & Hexc).
    destruct out as [[]|e].
    - unfold ret. eexists. split; [reflexivity|]. split.
      + split; [intros _; now apply Hok|]. intros _. eauto.
      + split; [|discriminate]. intros s d H.
        specialize (Hhttp s d H). discriminate.
    - destruct (Hexc e eq_refl) as (s & d & -> & Hs).
      unfold endpoint_handler, raise. eexists. split; [reflexivity|]. split.
      + split.
        * intros (response & H & _). discriminate.
        * intros H. apply Hok in H. discriminate.
      + split.
        * intros s' d' H. specialize (Hhttp s' d' H). congruence.
        * intros e H. injection H as <-. eauto. }
  split; [|split].
  - intros Hmiss. unfold handle_update_record_endpoint, raise.
    destruct record_id as [i|]; [|eauto].
    destruct data as [d|]; cbn [truthy_opt] in Hmiss.
    + destruct (truthy i); cbn [negb andb] in *; [|eauto].
      rewrite Hmiss. cbn [negb]. eauto.
    + destruct (truthy i); cbn [negb]; eauto.
  - intros i d -> -> Hi Hd. unfold handle_update_record_endpoint.
    rewrite Hi, Hd. cbn [negb]. unfold update_record, update_sobject_record.
    apply Hwrap.
  - intros i. unfold handle_delete_record_endpoint, delete_record,
      delete_sobject_record. apply Hwrap.
Qed.

End RecordServiceFacts.

Section RecordServiceExamples.
Import Py Bulk RecordService.
Local Open Scope string_scope.
Local Open Scope Z_scope.

Lemma record_service_reports_client_errors_as_500_witness :
  (exists detail,
     handle_update_record_endpoint not_found "Account" (Some "001xx01") None []
     = (Exc (HTTPException 400 detail), []))
  /\ fst (handle_update_record_endpoint not_found "Account" (Some "001xx01")
            (Some [("Name", VStr "Acme")]) [])
     = Exc (HTTPException 500
              "Failed to update record Account/001xx01: 404: Salesforce API Error: NOT_FOUND").
Proof.
  split.
  - apply (proj1 (record_service_reports_client_errors_as_500 not_found
                    "Account" (Some "001xx01") None [])).
    reflexivity.
  - destruct (proj1 (proj2 (record_service_reports_client_errors_as_500
                              not_found "Account" (Some "001xx01")
                              (Some [("Name", VStr "Acme")]) []))
                "001xx01" [("Name", VStr "Acme")] eq_refl eq_refl eq_refl
                eq_refl)
      as (out & Heq & _ & Hhttp & _).
    rewrite Heq. cbn [fst].
    apply (Hhttp 404 "Salesforce API Error: NOT_FOUND"). reflexivity.
Defined.

End RecordServiceExamples.
